(** * 5g-edge-platform: the browser-side utilities

    A shallow embedding of the four JavaScript classes of the dashboard
    (PlatformUtils, StorageManager, NotificationManager, ChartManager) and
    the properties their specification states about them.

    Conventions.
    - A JavaScript number is a double.  The numbers the code computes with
      are integers held by doubles; [Double] below gives the rounding of
      [-] and of [Math.floor(a / b)] on them.  [NaN] is [None].  The
      numbers the code stores as JSON are all the finite doubles.
    - Strings are [String.string]; a non-ASCII literal is its UTF-8 bytes.
    - What the host provides (the clock, timers, the DOM, localStorage,
      JSON, the chart engine) is modelled next to the class that uses it,
      as explicit state. *)

From Stdlib Require Import ZArith QArith String Ascii List Lia Bool.
From Stdlib Require Import DecimalString DecimalZ DecimalN DecimalFacts.
From stdpp Require Import gmap strings list sorting.

Open Scope string_scope.
Open Scope list_scope.
Open Scope Z_scope.

(** The string made of one double quote. *)
Definition dquote : string := String "034"%char EmptyString.

(** * Doubles

    A finite double is [m * 2 ^ e] for integers [m] and [e] with
    [|m| <= 2 ^ 53] and [e >= -1074].  The result of an arithmetic
    operation is the double nearest to the exact result, and of two
    nearest ones the one with the even mantissa. *)

Module Double.

(** The integer nearest to [a / b], for [b > 0]; of two nearest ones the
    even one. *)
Definition round_ratio (a b : Z) : Z :=
  let q := a / b in
  let r := a mod b in
  if 2 * r <? b then q
  else if b <? 2 * r then q + 1
  else if Z.even q then q else q + 1.

(** The place of the leading bit of [a / b], for [a, b > 0]: the [l] with
    [2 ^ l <= a / b < 2 ^ (l + 1)]. *)
Definition ilog2_ratio (a b : Z) : Z :=
  let k := Z.log2 a - Z.log2 b in
  if (if 0 <=? k then b * 2 ^ k <=? a else b <=? a * 2 ^ (- k))
  then k else k - 1.

(** [a / b] divided by [2 ^ e], as a ratio. *)
Definition scale (a b e : Z) : Z * Z :=
  if 0 <=? e then (a, b * 2 ^ e) else (a * 2 ^ (- e), b).

(** The exponent of the subnormal doubles. *)
Definition min_exponent : Z := -1074.

(** The double nearest to [a / b], for [a, b > 0], as mantissa and
    exponent: the mantissa has 53 bits, or fewer at the least exponent. *)
Definition round_positive (a b : Z) : Z * Z :=
  let e := Z.max (ilog2_ratio a b - 52) min_exponent in
  let '(a', b') := scale a b e in
  (round_ratio a' b', e).

(** The same for an [a] of any sign. *)
Definition round (a b : Z) : Z * Z :=
  if a =? 0 then (0, 0)
  else let '(m, e) := round_positive (Z.abs a) b in (Z.sgn a * m, e).

(** [Math.floor] of the double [m * 2 ^ e]. *)
Definition floor_of (x : Z * Z) : Z :=
  let '(m, e) := x in
  if 0 <=? e then m * 2 ^ e else m / 2 ^ (- e).

Lemma round_ratio_exact c b : 0 < b -> round_ratio (c * b) b = c.
Proof.
  intros Hb. unfold round_ratio.
  rewrite Z.div_mul, Z.mod_mul by lia.
  destruct (Z.ltb_spec (2 * 0) b); [reflexivity | lia].
Qed.

Lemma round_ratio_bounds a b :
  0 < b -> a / b <= round_ratio a b /\ 2 * b * round_ratio a b <= 2 * a + b.
Proof.
  intros Hb. unfold round_ratio.
  pose proof (Z.div_mod a b ltac:(lia)) as Hdm.
  pose proof (Z.mod_pos_bound a b Hb) as Hr.
  destruct (Z.ltb_spec (2 * (a mod b)) b).
  - split; [lia | nia].
  - destruct (Z.ltb_spec b (2 * (a mod b))).
    + split; [lia | nia].
    + destruct (Z.even (a / b)); split; try lia; nia.
Qed.

Lemma ilog2_ratio_lower a b :
  0 < a -> 0 < b ->
  let l := ilog2_ratio a b in
  (0 <= l -> b * 2 ^ l <= a) /\ (l < 0 -> b <= a * 2 ^ (- l)).
Proof.
  intros Ha Hb. unfold ilog2_ratio.
  pose proof (Z.log2_spec a Ha) as [Ha1 Ha2].
  pose proof (Z.log2_spec b Hb) as [Hb1 Hb2].
  pose proof (Z.log2_nonneg a). pose proof (Z.log2_nonneg b).
  set (la := Z.log2 a) in *. set (lb := Z.log2 b) in *.
  assert (Hk : forall k, 0 <= k -> la - lb = k + 1 -> b * 2 ^ k <= a).
  { intros k Hk0 Hkk.
    assert (2 ^ la = 2 ^ k * 2 ^ (Z.succ lb)).
    { rewrite <- Z.pow_add_r by lia. f_equal. lia. }
    assert (0 < 2 ^ k) by (apply Z.pow_pos_nonneg; lia). nia. }
  assert (Hk' : forall k, 0 < k -> lb - la = k - 1 -> b <= a * 2 ^ k).
  { intros k Hk0 Hkk.
    assert (2 ^ (Z.succ lb) = 2 ^ k * 2 ^ la).
    { rewrite <- Z.pow_add_r by lia. f_equal. lia. }
    assert (0 < 2 ^ k) by (apply Z.pow_pos_nonneg; lia). nia. }
  destruct (Z.leb_spec 0 (la - lb)).
  - destruct (Z.leb_spec (b * 2 ^ (la - lb)) a); cbv zeta.
    + split; [auto | lia].
    + split; intros Hl.
      * apply Hk; lia.
      * assert (la - lb = 0) by lia.
        replace (- (la - lb - 1)) with 1 by lia. apply (Hk' 1); lia.
  - destruct (Z.leb_spec b (a * 2 ^ (- (la - lb)))); cbv zeta.
    + split; [lia | auto].
    + split; [lia |]. intros _. apply Hk'; lia.
Qed.


(** The double nearest to the integer [x], as an integer. *)
Definition round_integer (x : Z) : Z := floor_of (round x 1).

(** [Math.floor(a / b)] of two integers held by doubles. *)
Definition floor_div (a b : Z) : Z := floor_of (round a b).

Lemma ilog2_ratio_1 x : 0 < x -> ilog2_ratio x 1 = Z.log2 x.
Proof.
  intros Hx. unfold ilog2_ratio. change (Z.log2 1) with 0. rewrite Z.sub_0_r.
  pose proof (Z.log2_nonneg x). pose proof (Z.log2_spec x Hx).
  destruct (Z.leb_spec 0 (Z.log2 x)); [| lia].
  destruct (Z.leb_spec (1 * 2 ^ Z.log2 x) x); [reflexivity | lia].
Qed.

Lemma pow2_pos n : 0 <= n -> 0 < 2 ^ n.
Proof. intros. apply Z.pow_pos_nonneg; lia. Qed.

Lemma log2_le_52 x : 0 < x -> x < 2 ^ 53 -> Z.log2 x <= 52.
Proof.
  intros Hx Hlt. apply Z.log2_lt_pow2 in Hlt; lia.
Qed.

Lemma round_positive_integer x :
  0 < x -> x < 2 ^ 53 ->
  round_positive x 1 = (x * 2 ^ (52 - Z.log2 x), Z.log2 x - 52).
Proof.
  intros Hx Hlt. unfold round_positive. rewrite ilog2_ratio_1 by assumption.
  pose proof (log2_le_52 x Hx Hlt). pose proof (Z.log2_nonneg x).
  unfold min_exponent. rewrite Z.max_l by lia.
  unfold scale. destruct (Z.leb_spec 0 (Z.log2 x - 52)).
  - replace (Z.log2 x - 52) with 0 by lia.
    replace (52 - Z.log2 x) with 0 by lia. simpl (1 * 2 ^ 0).
    rewrite <- (Z.mul_1_r x) at 1. rewrite round_ratio_exact by lia.
    f_equal. simpl. lia.
  - replace (- (Z.log2 x - 52)) with (52 - Z.log2 x) by lia.
    rewrite <- (Z.mul_1_r (x * _)) at 1. now rewrite round_ratio_exact by lia.
Qed.

Lemma round_integer_small x : Z.abs x < 2 ^ 53 -> round_integer x = x.
Proof.
  intros Hx. unfold round_integer, round.
  destruct (Z.eqb_spec x 0) as [-> | Hnz]; [reflexivity |].
  rewrite round_positive_integer by lia.
  pose proof (log2_le_52 (Z.abs x) ltac:(lia) Hx).
  pose proof (Z.log2_nonneg (Z.abs x)).
  unfold floor_of.
  pose proof (pow2_pos (52 - Z.log2 (Z.abs x)) ltac:(lia)) as Hp.
  assert (Hs : Z.sgn x * Z.abs x = x) by lia.
  destruct (Z.leb_spec 0 (Z.log2 (Z.abs x) - 52)).
  - replace (Z.log2 (Z.abs x) - 52) with 0 by lia.
    replace (52 - Z.log2 (Z.abs x)) with 0 by lia. simpl (2 ^ 0). lia.
  - replace (- (Z.log2 (Z.abs x) - 52)) with (52 - Z.log2 (Z.abs x)) by lia.
    rewrite Z.mul_assoc, Hs. apply Z.div_mul. lia.
Qed.

(** The nearest double to an integer beyond 2^53, as mantissa times a
    power of two. *)
Lemma round_integer_large x :
  2 ^ 53 <= Z.abs x ->
  let e := Z.log2 (Z.abs x) - 52 in
  1 <= e /\
  round_integer x = Z.sgn x * round_ratio (Z.abs x) (2 ^ e) * 2 ^ e /\
  2 ^ 52 <= round_ratio (Z.abs x) (2 ^ e).
Proof.
  intros Hx e.
  assert (Hpos : 0 < Z.abs x) by (pose proof (pow2_pos 53); lia).
  assert (He : 1 <= e).
  { unfold e. assert (53 <= Z.log2 (Z.abs x)); [| lia].
    apply Z.log2_le_pow2; lia. }
  split; [exact He |].
  unfold round_integer, round.
  destruct (Z.eqb_spec x 0) as [-> | Hnz]; [simpl in Hpos; lia |].
  unfold round_positive. rewrite ilog2_ratio_1 by assumption. fold e.
  unfold min_exponent. rewrite Z.max_l by lia.
  unfold scale. destruct (Z.leb_spec 0 e); [| lia].
  rewrite Z.mul_1_l. unfold floor_of.
  destruct (Z.leb_spec 0 e); [| lia]. split; [reflexivity |].
  pose proof (pow2_pos e ltac:(lia)) as Hp.
  destruct (round_ratio_bounds (Z.abs x) (2 ^ e) Hp) as [Hlo _].
  etransitivity; [| exact Hlo].
  apply Z.div_le_lower_bound; [lia |].
  rewrite <- Z.pow_add_r by lia. replace (e + 52) with (Z.log2 (Z.abs x)) by (unfold e; lia).
  apply Z.log2_spec. assumption.
Qed.

Lemma round_integer_even x :
  2 ^ 53 <= Z.abs x ->
  Z.even (round_integer x) = true /\ 2 ^ 53 <= Z.abs (round_integer x).
Proof.
  intros Hx. destruct (round_integer_large x Hx) as (He & -> & Hm).
  set (e := Z.log2 (Z.abs x) - 52) in *.
  set (m := round_ratio (Z.abs x) (2 ^ e)) in *.
  pose proof (pow2_pos (e - 1) ltac:(lia)) as Hp.
  assert (H2 : 2 ^ e = 2 * 2 ^ (e - 1)).
  { rewrite <- (Z.pow_succ_r 2 (e - 1)) by lia. f_equal. lia. }
  split.
  - rewrite H2. replace (Z.sgn x * m * (2 * 2 ^ (e - 1)))
      with (2 * (Z.sgn x * m * 2 ^ (e - 1))) by ring.
    rewrite Z.even_mul. reflexivity.
  - assert (Z.abs (Z.sgn x * m * 2 ^ e) = m * 2 ^ e).
    { rewrite !Z.abs_mul. rewrite (Z.abs_eq m), (Z.abs_eq (2 ^ e)) by lia.
      assert (Z.abs (Z.sgn x) = 1); [| lia].
      assert (x <> 0); [| lia]. intros ->. simpl in Hx. lia. }
    change (2 ^ 53) with (2 ^ 52 * 2). nia.
Qed.

Lemma round_integer_near x :
  2 ^ 53 <= Z.abs x < 2 ^ 54 -> Z.abs (round_integer x - x) <= 1.
Proof.
  intros [Hlo Hhi]. destruct (round_integer_large x Hlo) as (_ & -> & _).
  assert (Hl : Z.log2 (Z.abs x) = 53).
  { apply Z.log2_unique; [lia |]. change (Z.succ 53) with 54. lia. }
  rewrite Hl. change (2 ^ (53 - 52)) with 2.
  destruct (round_ratio_bounds (Z.abs x) 2 ltac:(lia)) as [H1 H2].
  pose proof (Z.div_mod (Z.abs x) 2 ltac:(lia)).
  pose proof (Z.mod_pos_bound (Z.abs x) 2 ltac:(lia)).
  lia.
Qed.

Lemma round_integer_sign x : x < 0 -> round_integer x <= 0.
Proof.
  intros Hx. destruct (Z.lt_ge_cases (Z.abs x) (2 ^ 53)).
  - rewrite round_integer_small by assumption. lia.
  - destruct (round_integer_large x ltac:(lia)) as (He & -> & Hm).
    pose proof (pow2_pos (Z.log2 (Z.abs x) - 52) ltac:(lia)). nia.
Qed.

(** The mantissa and exponent of [a / b] when the quotient is below
    [2 ^ K]. *)
Lemma round_small_quotient a b K :
  0 < a -> 0 < b -> 0 <= K <= 52 -> a < b * 2 ^ K ->
  exists s, 53 - K <= s /\
            round a b = (round_ratio (a * 2 ^ s) b, - s).
Proof.
  intros Ha Hb HK Hq. unfold round.
  destruct (Z.eqb_spec a 0); [lia |].
  rewrite Z.abs_eq, Z.sgn_pos by lia. unfold round_positive.
  destruct (ilog2_ratio_lower a b Ha Hb) as [Hl _].
  set (l := ilog2_ratio a b) in *.
  assert (Hlt : l < K).
  { destruct (Z.lt_ge_cases l K) as [| Hge]; [assumption |].
    specialize (Hl ltac:(lia)).
    assert (2 ^ K <= 2 ^ l) by (apply Z.pow_le_mono_r; lia). nia. }
  exists (- Z.max (l - 52) min_exponent). unfold min_exponent.
  split; [lia |]. unfold scale.
  destruct (Z.leb_spec 0 (Z.max (l - 52) (-1074))); [lia |].
  now rewrite Z.opp_involutive, Z.mul_1_l.
Qed.

Lemma floor_div_exact a b K :
  0 < a -> 0 < b -> 0 <= K <= 52 -> a < b * 2 ^ K ->
  b < 2 ^ (54 - K) * (b - a mod b) ->
  floor_div a b = a / b.
Proof.
  intros Ha Hb HK Hq Hc. unfold floor_div.
  destruct (round_small_quotient a b K Ha Hb HK Hq) as (s & Hs & ->).
  unfold floor_of. destruct (Z.leb_spec 0 (- s)); [lia |].
  rewrite Z.opp_involutive.
  pose proof (pow2_pos s ltac:(lia)) as Hp.
  destruct (round_ratio_bounds (a * 2 ^ s) b Hb) as [Hlo Hhi].
  set (m := round_ratio (a * 2 ^ s) b) in *.
  pose proof (Z.div_mod a b ltac:(lia)) as Hdm.
  pose proof (Z.mod_pos_bound a b Hb) as Hr.
  set (n := a / b) in *. set (r := a mod b) in *.
  assert (H2 : 2 ^ (54 - K) <= 2 ^ (s + 1)) by (apply Z.pow_le_mono_r; lia).
  assert (H3 : 2 ^ (s + 1) = 2 * 2 ^ s).
  { replace (s + 1) with (Z.succ s) by lia. apply Z.pow_succ_r. lia. }
  rewrite H3 in H2. clearbody m n r.
  set (p := 2 ^ s) in *. set (c := 2 ^ (54 - K)) in *. clearbody p c.
  assert (Hge : n * p <= m).
  { etransitivity; [| exact Hlo]. apply Z.div_le_lower_bound; [lia |]. nia. }
  assert (Hlt : m < (n + 1) * p).
  { assert (b < 2 * p * (b - r)) by nia.
    assert (2 * b * m < 2 * b * ((n + 1) * p)); [| nia].
    eapply Z.le_lt_trans; [exact Hhi |]. subst a. nia. }
  symmetry. apply (Z.div_unique m p n (m - n * p)); lia.
Qed.

Lemma floor_div_pos a b : 0 < b -> b <= a -> 1 <= floor_div a b.
Proof.
  intros Hb Hab. unfold floor_div, round.
  destruct (Z.eqb_spec a 0); [lia |].
  rewrite Z.abs_eq, Z.sgn_pos by lia. unfold round_positive.
  destruct (ilog2_ratio_lower a b ltac:(lia) Hb) as [Hl _].
  set (l := ilog2_ratio a b) in *.
  set (e := Z.max (l - 52) min_exponent). unfold scale.
  destruct (Z.leb_spec 0 e) as [He | He]; rewrite Z.mul_1_l; unfold floor_of.
  - destruct (Z.leb_spec 0 e); [| lia].
    pose proof (pow2_pos e He) as Hp.
    assert (Hbe : 0 < b * 2 ^ e) by nia.
    destruct (round_ratio_bounds a (b * 2 ^ e) Hbe) as [Hlo _].
    assert (1 <= a / (b * 2 ^ e)); [| nia].
    apply Z.div_le_lower_bound; [lia |].
    assert (e <= l) by (unfold e, min_exponent in *; lia).
    specialize (Hl ltac:(lia)).
    assert (2 ^ e <= 2 ^ l) by (apply Z.pow_le_mono_r; lia). nia.
  - destruct (Z.leb_spec 0 e); [lia |].
    pose proof (pow2_pos (- e) ltac:(lia)) as Hp.
    destruct (round_ratio_bounds (a * 2 ^ (- e)) b Hb) as [Hlo _].
    apply Z.div_le_lower_bound; [lia |].
    etransitivity; [| exact Hlo].
    apply Z.div_le_lower_bound; [lia |]. nia.
Qed.

(** ** Doubles with an odd mantissa *)

(** The odd part of a mantissa, and the exponent that goes with it. *)
Fixpoint odd_part (p : positive) (e : Z) : Z * Z :=
  match p with
  | xO p' => odd_part p' (e + 1)
  | _ => (Z.pos p, e)
  end.

(** The double [m * 2 ^ e] written with an odd mantissa; zero is [(0, 0)]. *)
Definition normalize (x : Z * Z) : Z * Z :=
  match x with
  | (Z0, _) => (0, 0)
  | (Z.pos p, e) => odd_part p e
  | (Z.neg p, e) => let '(m, e') := odd_part p e in (- m, e')
  end.

Lemma odd_part_spec p : forall e,
  let '(m, e') := odd_part p e in
  Z.odd m = true /\ 0 < m /\ e <= e' /\ Z.pos p = m * 2 ^ (e' - e).
Proof.
  induction p as [p IH | p IH |]; intros e; simpl.
  - rewrite Z.sub_diag. simpl. repeat split; lia.
  - specialize (IH (e + 1)). destruct (odd_part p (e + 1)) as [m e'].
    destruct IH as (Ho & Hm & He & Hp). repeat split; try assumption; try lia.
    replace (e' - e) with (Z.succ (e' - (e + 1))) by lia.
    rewrite Z.pow_succ_r by lia. rewrite Pos2Z.inj_xO, Hp. ring.
  - rewrite Z.sub_diag. simpl. repeat split; lia.
Qed.

Lemma normalize_spec m0 e0 :
  m0 <> 0 ->
  let '(m, e) := normalize (m0, e0) in
  Z.odd m = true /\ e0 <= e /\ m0 = m * 2 ^ (e - e0).
Proof.
  intros Hnz. destruct m0 as [| p | p]; [contradiction | |]; simpl.
  - pose proof (odd_part_spec p e0) as H. destruct (odd_part p e0) as [m e].
    tauto.
  - pose proof (odd_part_spec p e0) as H. destruct (odd_part p e0) as [m e].
    destruct H as (Ho & Hm & He & Hp). repeat split; try assumption.
    + now rewrite Z.odd_opp.
    + rewrite <- Pos2Z.opp_pos, Hp. ring.
Qed.

(** An odd mantissa and its exponent are told by the value. *)
Lemma odd_decomposition_unique m m' d t :
  Z.odd m = true -> Z.odd m' = true -> 0 <= d -> 0 <= t ->
  m * 2 ^ d = m' * 2 ^ t -> m = m' /\ d = t.
Proof.
  assert (H : forall m m' d t,
    Z.odd m = true -> Z.odd m' = true -> 0 <= d <= t ->
    m * 2 ^ d = m' * 2 ^ t -> m = m' /\ d = t).
  { clear. intros m m' d t Ho Ho' Hdt Heq.
    replace t with ((t - d) + d) in Heq by lia.
    rewrite Z.pow_add_r in Heq by lia.
    pose proof (pow2_pos d ltac:(lia)).
    assert (Hm : m = m' * 2 ^ (t - d)) by nia.
    destruct (Z.eq_dec d t) as [<- | Hne].
    - rewrite Z.sub_diag in Hm. simpl in Hm. split; lia.
    - exfalso. replace (t - d) with (Z.succ (t - d - 1)) in Hm by lia.
      rewrite Z.pow_succ_r in Hm by lia.
      rewrite Hm in Ho.
      replace (m' * (2 * 2 ^ (t - d - 1))) with (2 * (m' * 2 ^ (t - d - 1))) in Ho by ring.
      rewrite Z.odd_mul in Ho. discriminate. }
  intros Ho Ho' Hd Ht Heq. destruct (Z.le_ge_cases d t).
  - apply H; auto.
  - destruct (H m' m t d) as [-> ->]; auto.
Qed.

(** A double given with an odd mantissa [m] and a power of two is left as
    it is, but for the power, which goes to the exponent. *)
Lemma normalize_odd m d e :
  Z.odd m = true -> 0 <= d -> normalize (m * 2 ^ d, e) = (m, e + d).
Proof.
  intros Ho Hd.
  assert (Hm : m <> 0) by (intros ->; discriminate).
  pose proof (pow2_pos d Hd) as Hp.
  assert (Hnz : m * 2 ^ d <> 0) by nia.
  pose proof (normalize_spec (m * 2 ^ d) e Hnz) as H.
  destruct (normalize (m * 2 ^ d, e)) as [m' e']. destruct H as (Ho' & He & Heq).
  destruct (odd_decomposition_unique m m' d (e' - e)) as [-> Hd']; try assumption; try lia.
  f_equal. lia.
Qed.

(** The ratio [a / b] is the number [m * 2 ^ e]. *)
Definition is_ratio (a b m e : Z) : Prop :=
  if 0 <=? e then a = m * 2 ^ e * b else a * 2 ^ (- e) = m * b.

(** A ratio that is a double is rounded to itself. *)
Lemma round_positive_exact a b m e :
  0 < b -> 0 < m < 2 ^ 53 -> min_exponent <= e -> is_ratio a b m e ->
  exists d, 0 <= d /\ round_positive a b = (m * 2 ^ d, e - d).
Proof.
  intros Hb Hm He Hr. unfold is_ratio in Hr.
  assert (Ha : 0 < a).
  { destruct (Z.leb_spec 0 e).
    - pose proof (pow2_pos e ltac:(lia)). nia.
    - pose proof (pow2_pos (- e) ltac:(lia)). nia. }
  unfold round_positive.
  destruct (ilog2_ratio_lower a b Ha Hb) as [Hl1 Hl2].
  set (l := ilog2_ratio a b) in *.
  assert (Hcancel : forall x y, b * x <= y * b -> x <= y) by (intros; nia).
  assert (Hlt : l < 53 + e).
  { destruct (Z.lt_ge_cases l (53 + e)) as [| Hge]; [assumption | exfalso].
    destruct (Z.leb_spec 0 e).
    - specialize (Hl1 ltac:(lia)). subst a.
      assert (H53 : 2 ^ (53 + e) <= 2 ^ l) by (apply Z.pow_le_mono_r; lia).
      rewrite Z.pow_add_r in H53 by lia.
      pose proof (pow2_pos e ltac:(lia)) as Hp.
      apply Hcancel in Hl1. clear Hcancel.
      set (p := 2 ^ e) in *. set (q := 2 ^ l) in *. clearbody p q.
      assert (2 ^ 53 * p <= m * p) by lia. nia.
    - destruct (Z.leb_spec 0 l).
      + specialize (Hl1 ltac:(lia)).
        assert (H53 : 2 ^ 53 <= 2 ^ (l - e)) by (apply Z.pow_le_mono_r; lia).
        replace (l - e) with (l + - e) in H53 by lia.
        rewrite Z.pow_add_r in H53 by lia.
        pose proof (pow2_pos l ltac:(lia)). pose proof (pow2_pos (- e) ltac:(lia)).
        set (p := 2 ^ (- e)) in *. set (q := 2 ^ l) in *. clearbody p q.
        assert (Hx : b * (q * p) <= m * b) by nia.
        apply Hcancel in Hx. lia.
      + specialize (Hl2 ltac:(lia)).
        assert (H53 : 2 ^ (53 - l) <= 2 ^ (- e)) by (apply Z.pow_le_mono_r; lia).
        replace (53 - l) with (53 + - l) in H53 by lia.
        rewrite Z.pow_add_r in H53 by lia.
        pose proof (pow2_pos (- l) ltac:(lia)). pose proof (pow2_pos (- e) ltac:(lia)).
        set (p := 2 ^ (- e)) in *. set (q := 2 ^ (- l)) in *. clearbody p q.
        assert (Hx : b * p <= (m * q) * b) by nia.
        apply Hcancel in Hx. nia. }
  clear Hcancel.
  set (e' := Z.max (l - 52) min_exponent).
  assert (He' : e' <= e) by (unfold e'; lia).
  exists (e - e'). split; [lia |].
  replace (e - (e - e')) with e' by lia.
  pose proof (pow2_pos (e - e') ltac:(lia)) as Hpd.
  unfold scale. destruct (Z.leb_spec 0 e').
  - destruct (Z.leb_spec 0 e); [| lia]. subst a.
    assert (Hpow : 2 ^ e = 2 ^ (e - e') * 2 ^ e')
      by (rewrite <- Z.pow_add_r by lia; f_equal; lia).
    replace (m * 2 ^ e * b) with (m * 2 ^ (e - e') * (b * 2 ^ e'))
      by (rewrite Hpow; ring).
    rewrite round_ratio_exact; [reflexivity |].
    pose proof (pow2_pos e' ltac:(lia)). nia.
  - replace (a * 2 ^ (- e')) with (m * 2 ^ (e - e') * b).
    + now rewrite round_ratio_exact.
    + destruct (Z.leb_spec 0 e).
      * subst a.
        assert (Hpow : 2 ^ (e - e') = 2 ^ e * 2 ^ (- e'))
          by (rewrite <- Z.pow_add_r by lia; f_equal; lia).
        rewrite Hpow. ring.
      * assert (Hpow : 2 ^ (- e') = 2 ^ (- e) * 2 ^ (e - e'))
          by (rewrite <- Z.pow_add_r by lia; f_equal; lia).
        rewrite Hpow, Z.mul_assoc, Hr. ring.
Qed.

(** Rounding leaves a double as it is. *)
Lemma normalize_round_exact a b m e :
  0 < b -> Z.odd m = true -> Z.abs m < 2 ^ 53 -> min_exponent <= e ->
  is_ratio a b (Z.abs m) e ->
  normalize (round (Z.sgn m * a) b) = (m, e).
Proof.
  intros Hb Ho Hm He Hr.
  assert (Hnz : m <> 0) by (intros ->; discriminate).
  destruct (round_positive_exact a b (Z.abs m) e Hb ltac:(lia) He Hr)
    as (d & Hd & Hrp).
  assert (Ha : 0 < a).
  { unfold is_ratio in Hr. destruct (Z.leb_spec 0 e).
    - pose proof (pow2_pos e ltac:(lia)). nia.
    - pose proof (pow2_pos (- e) ltac:(lia)). nia. }
  unfold round. destruct (Z.eqb_spec (Z.sgn m * a) 0) as [H0 | _]; [nia |].
  replace (Z.abs (Z.sgn m * a)) with a by nia. rewrite Hrp.
  replace (Z.sgn (Z.sgn m * a)) with (Z.sgn m) by nia.
  replace (Z.sgn m * (Z.abs m * 2 ^ d)) with (m * 2 ^ d) by nia.
  rewrite normalize_odd by assumption. f_equal. lia.
Qed.

End Double.

(** ** Numbers as text *)

(** [String(n)] for an integer-valued number of magnitude up to [2 ^ 53],
    which JavaScript prints with all its digits.  (Beyond that it prints
    the shortest digits that tell the double from its neighbours, and
    from [1e21] on it uses an exponent; no number of that size is printed
    below, where the text matters.) *)
Definition Number_toString (z : Z) : string :=
  NilZero.string_of_int (Z.to_int z).

(** The same for a number that may be [NaN]. *)
Definition num_toString (n : option Z) : string :=
  match n with
  | Some z => Number_toString z
  | None => "NaN"
  end.

(** [a < b]: false as soon as one side is [NaN]. *)
Definition num_ltb (a : option Z) (b : Z) : bool :=
  match a with
  | Some x => x <? b
  | None => false
  end.

(** [Math.floor(a / b)], for [b > 0]: the quotient is a double before
    [Math.floor] sees it. *)
Definition num_floor_div (a : option Z) (b : Z) : option Z :=
  match a with
  | Some x => Some (Double.floor_div x b)
  | None => None
  end.

(** [a - b] on integers held by doubles: the double nearest to the
    difference. *)
Definition num_sub (a b : option Z) : option Z :=
  match a, b with
  | Some x, Some y => Some (Double.round_integer (x - y))
  | _, _ => None
  end.

(** * PlatformUtils *)

Module PlatformUtils.

(** What a caller passes as [date]: nothing, [null], or a timestamp in
    epoch milliseconds. *)
Inductive jsdate :=
| DUndefined
| DNull
| DNumber (t : Z).

(** [!date]. *)
Definition falsy (date : jsdate) : bool :=
  match date with
  | DUndefined | DNull => true
  | DNumber t => t =? 0
  end.

(** The largest time value a [Date] holds, in milliseconds either side of
    the epoch. *)
Definition max_time_value : Z := 8640000000000000.

Definition TimeClip (t : Z) : option Z :=
  if Z.abs t <=? max_time_value then Some t else None.

(** The time value of [new Date(date)]; [None] is an invalid date. *)
Definition Date_new (date : jsdate) : option Z :=
  match date with
  | DUndefined => None
  | DNull => Some 0
  | DNumber t => TimeClip t
  end.

(** [formatTime(date)], where [now] is the time value of [new Date()]. *)
Definition formatTime (date : jsdate) (now : Z) : string :=
  if falsy date then "从未更新"
  else
    let target := Date_new date in
    let diff := num_sub (Some now) target in
    if num_ltb diff 60000 then "刚刚"
    else if num_ltb diff 3600000 then
      num_toString (num_floor_div diff 60000) +:+ "分钟前"
    else if num_ltb diff 86400000 then
      num_toString (num_floor_div diff 3600000) +:+ "小时前"
    else num_toString (num_floor_div diff 86400000) +:+ "天前".

(** A timestamp a [Date] can hold; the time value of [new Date()] is one. *)
Definition is_time_value (t : Z) : Prop := Z.abs t <= max_time_value.

(** The [diff] of [formatTime] for a target that is a valid date. *)
Definition diff (now t : Z) : Z := Double.round_integer (now - t).

Lemma Date_new_time_value (t : Z) :
  is_time_value t -> Date_new (DNumber t) = Some t.
Proof.
  unfold is_time_value, Date_new, TimeClip. intros H.
  destruct (Z.leb_spec (Z.abs t) max_time_value); [reflexivity | lia].
Qed.

(** The body of [formatTime] once the guard has let the timestamp through. *)
Lemma formatTime_truthy (t now : Z) :
  t <> 0 -> is_time_value t ->
  formatTime (DNumber t) now =
    let e := diff now t in
    if e <? 60000 then "刚刚"
    else if e <? 3600000
    then Number_toString (Double.floor_div e 60000) +:+ "分钟前"
    else if e <? 86400000
    then Number_toString (Double.floor_div e 3600000) +:+ "小时前"
    else Number_toString (Double.floor_div e 86400000) +:+ "天前".
Proof.
  intros Hnz Hv. unfold formatTime. simpl falsy.
  destruct (Z.eqb_spec t 0); [contradiction |].
  rewrite Date_new_time_value by assumption. reflexivity.
Qed.

(** Up to 2^53 ms the difference is exact; beyond, it is the nearest even
    number. *)
Lemma diff_exact (now t : Z) : Z.abs (now - t) < 2 ^ 53 -> diff now t = now - t.
Proof. apply Double.round_integer_small. Qed.

Lemma diff_near (now t : Z) :
  is_time_value now -> is_time_value t ->
  Z.abs (diff now t - (now - t)) <= 1 /\
  (diff now t < 2 ^ 53 \/
   Z.even (diff now t) = true /\ diff now t < 86400000 * 2 ^ 28).
Proof.
  unfold is_time_value, max_time_value, diff. intros Hn Ht.
  destruct (Z.lt_ge_cases (Z.abs (now - t)) (2 ^ 53)) as [Hs | Hl].
  - rewrite Double.round_integer_small by assumption. lia.
  - assert (Hr : 2 ^ 53 <= Z.abs (now - t) < 2 ^ 54) by lia.
    pose proof (Double.round_integer_near _ Hr) as Hnear.
    destruct (Double.round_integer_even _ Hl) as [He _].
    split; [exact Hnear | right]. split; [exact He | lia].
Qed.

(** In the three formats the quotient a double holds has the floor of the
    exact quotient. *)
Lemma floor_div_minutes (e : Z) :
  60000 <= e < 3600000 -> Double.floor_div e 60000 = e / 60000.
Proof.
  intros He. apply (Double.floor_div_exact e 60000 6); try lia.
  pose proof (Z.mod_pos_bound e 60000 ltac:(lia)). lia.
Qed.

Lemma floor_div_hours (e : Z) :
  3600000 <= e < 86400000 -> Double.floor_div e 3600000 = e / 3600000.
Proof.
  intros He. apply (Double.floor_div_exact e 3600000 5); try lia.
  pose proof (Z.mod_pos_bound e 3600000 ltac:(lia)). lia.
Qed.

Lemma floor_div_days (e : Z) :
  86400000 <= e ->
  e < 2 ^ 53 \/ Z.even e = true /\ e < 86400000 * 2 ^ 28 ->
  Double.floor_div e 86400000 = e / 86400000.
Proof.
  intros He Hcase.
  pose proof (Z.mod_pos_bound e 86400000 ltac:(lia)) as Hr.
  destruct Hcase as [Hs | [Hev Hlt]].
  - apply (Double.floor_div_exact e 86400000 27); lia.
  - apply (Double.floor_div_exact e 86400000 28); try lia.
    apply Z.even_spec in Hev as [h Hh].
    pose proof (Z.div_mod e 86400000 ltac:(lia)) as Hdm.
    assert (2 <= 86400000 - e mod 86400000); lia.
Qed.

Example formatTime_59999 : formatTime (DNumber 1000) 60999 = "刚刚".
Proof. reflexivity. Qed.

Example formatTime_60000 : formatTime (DNumber 1000) 61000 = "1分钟前".
Proof. vm_compute. reflexivity. Qed.

Example formatTime_two_days :
  formatTime (DNumber 1000) (1000 + 2 * 86400000 + 5) = "2天前".
Proof. vm_compute. reflexivity. Qed.

(** Where the difference is no longer exact: the clock at the last time
    value, the timestamp one millisecond after the first.  The difference
    17279999999999999 is no double; the code computes with
    17280000000000000 and shows one day more than the elapsed time has. *)
Example formatTime_rounded :
  diff 8640000000000000 (-8639999999999999) = 17280000000000000 /\
  formatTime (DNumber (-8639999999999999)) 8640000000000000 = "200000000天前" /\
  (8640000000000000 - -8639999999999999) / 86400000 = 199999999.
Proof. vm_compute. repeat split. Qed.

(** C6, as the specification states it, at the timestamp 0 (the epoch):
    the timestamp is not null and the elapsed time 1700000000000 ms is
    19675 whole days, yet the guard [!date] takes 0 for a missing value and
    the result is the "never updated" text. *)
Lemma formatTime_epoch_is_never :
  is_time_value 0 /\ 0 <= 1700000000000 - 0 /\
  86400000 <= 1700000000000 - 0 /\
  formatTime (DNumber 0) 1700000000000 = "从未更新" /\
  formatTime (DNumber 0) 1700000000000 <>
    Number_toString ((1700000000000 - 0) / 86400000) +:+ "天前".
Proof.
  repeat split; try (unfold is_time_value, max_time_value; simpl; lia).
  vm_compute. discriminate.
Qed.

(** C6, amended: null, undefined and the number 0 give the "never
    updated" text, at any time.  A timestamp [t] that passes the guard and
    is a time value is answered by the bucket of the elapsed time [e] the
    code computes, which is [now - t] below 2^53 ms and within one
    millisecond of it above: "just now" below 60000 ms (also for a negative
    [e]), whole minutes from 60000 ms, whole hours from 3600000 ms, whole
    days from 86400000 ms, with strict upper bounds and floor division.  A
    timestamp no [Date] can hold gives the days format around [NaN]. *)
Theorem formatTime_buckets (t now : Z) :
  is_time_value now ->
  formatTime DNull now = "从未更新" /\
  formatTime DUndefined now = "从未更新" /\
  formatTime (DNumber 0) now = "从未更新" /\
  (max_time_value < Z.abs t -> formatTime (DNumber t) now = "NaN天前") /\
  (t <> 0 -> is_time_value t ->
   let e := diff now t in
   (Z.abs (now - t) < 2 ^ 53 -> e = now - t) /\
   Z.abs (e - (now - t)) <= 1 /\
   (e < 60000 -> formatTime (DNumber t) now = "刚刚") /\
   (60000 <= e < 3600000 ->
    formatTime (DNumber t) now = Number_toString (e / 60000) +:+ "分钟前") /\
   (3600000 <= e < 86400000 ->
    formatTime (DNumber t) now = Number_toString (e / 3600000) +:+ "小时前") /\
   (86400000 <= e ->
    formatTime (DNumber t) now = Number_toString (e / 86400000) +:+ "天前")).
Proof.
  intros Hnow. do 3 (split; [reflexivity |]). split.
  { intros Ht. unfold formatTime, falsy, Date_new, TimeClip.
    destruct (Z.eqb_spec t 0) as [-> | _];
      [unfold max_time_value in Ht; simpl in Ht; lia |].
    destruct (Z.leb_spec (Z.abs t) max_time_value); [lia | reflexivity]. }
  intros Hnz Hv e.
  destruct (diff_near now t Hnow Hv) as [Hnear Hcase]. fold e in Hnear, Hcase.
  split; [apply diff_exact |]. split; [exact Hnear |].
  rewrite (formatTime_truthy t now Hnz Hv). fold e. cbv zeta.
  repeat split; intros Hb;
    destruct (Z.ltb_spec e 60000); try lia;
    destruct (Z.ltb_spec e 3600000); try lia;
    destruct (Z.ltb_spec e 86400000); try lia.
  - reflexivity.
  - now rewrite floor_div_minutes.
  - now rewrite floor_div_hours.
  - now rewrite floor_div_days.
Qed.

Lemma formatTime_buckets_witness :
  is_time_value 3601000 /\
  formatTime (DNumber 0) 3601000 = "从未更新" /\
  formatTime (DNumber 1000) 3601000 = "1小时前".
Proof.
  assert (H0 : is_time_value 3601000)
    by (unfold is_time_value, max_time_value; simpl; lia).
  assert (H1 : 1000 <> 0) by lia.
  assert (H2 : is_time_value 1000)
    by (unfold is_time_value, max_time_value; simpl; lia).
  destruct (formatTime_buckets 1000 3601000 H0) as (_ & _ & Hz & _ & Hb).
  destruct (Hb H1 H2) as (_ & _ & _ & _ & Hh & _).
  split; [exact H0 |]. split; [exact Hz |].
  apply Hh. vm_compute. split; [discriminate | reflexivity].
Defined.

(** C10, as the specification states it, at a future timestamp that no
    [Date] can hold: the timestamp is not null and lies in the future, and
    the result is the days format around [NaN], not the "just now" text. *)
Lemma formatTime_future_invalid_date :
  1700000000000 - 8640000000000001 < 0 /\
  formatTime (DNumber 8640000000000001) 1700000000000 = "NaN天前" /\
  formatTime (DNumber 8640000000000001) 1700000000000 <> "刚刚".
Proof. split; [lia |]. vm_compute. split; [reflexivity | discriminate]. Qed.

(** C10, amended: a timestamp lying in the future ([now - t < 0]) that
    passes the guard and is a time value gives the "just now" text, which
    is what an elapsed time under one minute gives: no failure, no
    negative count and no format of its own.  A future timestamp beyond
    the last time value gives the days format around [NaN], and the
    timestamp 0, which lies in the future of a clock set before 1970,
    gives the "never updated" text. *)
Theorem formatTime_future (t now : Z) :
  now - t < 0 ->
  (t <> 0 -> is_time_value t -> formatTime (DNumber t) now = "刚刚") /\
  (max_time_value < t -> formatTime (DNumber t) now = "NaN天前") /\
  (t = 0 -> formatTime (DNumber t) now = "从未更新").
Proof.
  intros Hfut. split; [| split].
  - intros Hnz Hv. rewrite formatTime_truthy by assumption. cbv zeta.
    pose proof (Double.round_integer_sign (now - t) Hfut) as Hs.
    unfold diff. destruct (Z.ltb_spec (Double.round_integer (now - t)) 60000);
      [reflexivity | lia].
  - intros Ht. unfold formatTime, falsy, Date_new, TimeClip.
    destruct (Z.eqb_spec t 0) as [-> | _];
      [unfold max_time_value in Ht; simpl in Ht; lia |].
    destruct (Z.leb_spec (Z.abs t) max_time_value); [lia | reflexivity].
  - now intros ->.
Qed.

Lemma formatTime_future_witness :
  formatTime (DNumber 1700000060000) 1700000000000 = "刚刚".
Proof.
  assert (Hfut : 1700000000000 - 1700000060000 < 0) by lia.
  destruct (formatTime_future 1700000060000 1700000000000 Hfut) as (H & _).
  apply H.
  - lia.
  - unfold is_time_value, max_time_value. simpl. lia.
Defined.

(** ** The rest of the class *)

(** A value given to [formatValue]: nothing, [null], a number, a string or
    a boolean.  The numbers are the integers [Number_toString] prints, of
    magnitude up to [2 ^ 53]. *)
Inductive jsvalue :=
| VUndefined
| VNull
| VNumber (z : Z)
| VString (s : string)
| VBoolean (b : bool).

(** The string [+] makes of a value next to a string. *)
Definition ToString (v : jsvalue) : string :=
  match v with
  | VUndefined => "undefined"
  | VNull => "null"
  | VNumber z => Number_toString z
  | VString s => s
  | VBoolean true => "true"
  | VBoolean false => "false"
  end.

(** [formatValue(value, unit = '')]; a [unit] left out is [None]. *)
Definition formatValue (value : jsvalue) (unit : option string) : string :=
  let unit := default "" unit in
  match value with
  | VNull | VUndefined => "--"
  | _ => (ToString value +:+ " ") +:+ unit
  end.

(** The names every object inherits from [Object.prototype]. *)
Definition Object_prototype_names : list string :=
  ["constructor"; "hasOwnProperty"; "isPrototypeOf"; "propertyIsEnumerable";
   "toLocaleString"; "toString"; "valueOf"; "__proto__";
   "__defineGetter__"; "__defineSetter__"; "__lookupGetter__";
   "__lookupSetter__"].

(** What reading a property of the [icons] object gives: a string of the
    table, or the member of [Object.prototype] of that name. *)
Inductive member :=
| Text (s : string)
| Inherited (name : string).

(** [icons[sensorType]]; [None] is [undefined]. *)
Definition icons (sensorType : string) : option member :=
  if String.eqb sensorType "temperature" then Some (Text "fa-thermometer-half")
  else if String.eqb sensorType "humidity" then Some (Text "fa-tint")
  else if String.eqb sensorType "light" then Some (Text "fa-sun")
  else if String.eqb sensorType "pressure" then Some (Text "fa-tachometer-alt")
  else if String.eqb sensorType "camera" then Some (Text "fa-camera")
  else if bool_decide (sensorType ∈ Object_prototype_names)
  then Some (Inherited sensorType)
  else None.

(** [getSensorIcon(sensorType)]: every member the lookup can give is
    true, so the fallback is taken for [undefined] only. *)
Definition getSensorIcon (sensorType : string) : member :=
  default (Text "fa-microchip") (icons sensorType).

(** The sensor types of the table. *)
Definition sensor_types : list string :=
  ["temperature"; "humidity"; "light"; "pressure"; "camera"].

Lemma append_space_not_sentinel (a b : string) : (a +:+ " ") +:+ b <> "--".
Proof.
  destruct a as [| c1 [| c2 [| c3 a]]]; discriminate.
Qed.

(** X1: [formatValue] gives the text [--] for [null] and [undefined] and
    for nothing else: 0, [false] and the empty string are formatted like
    any value, and no value and unit spell [--]. *)
Theorem formatValue_sentinel (value : jsvalue) (unit : option string) :
  formatValue value unit = "--" <-> value = VNull \/ value = VUndefined.
Proof.
  split.
  - destruct value; simpl; intros H; auto;
      now apply append_space_not_sentinel in H.
  - now intros [-> | ->].
Qed.

(** X2: in the minutes format the number shown is between 1 and 59, in
    the hours format between 1 and 23, and in the days format at least 1:
    [formatTime] never shows a count of 0 nor a full next unit. *)
Theorem formatTime_counts (t now : Z) :
  t <> 0 -> is_time_value t -> 60000 <= now - t ->
  exists n,
    1 <= n /\
    ((now - t < 3600000 /\ n <= 59 /\
      formatTime (DNumber t) now = Number_toString n +:+ "分钟前") \/
     (3600000 <= now - t < 86400000 /\ n <= 23 /\
      formatTime (DNumber t) now = Number_toString n +:+ "小时前") \/
     (86400000 <= now - t /\
      formatTime (DNumber t) now = Number_toString n +:+ "天前")).
Proof.
  intros Hnz Hv He. rewrite (formatTime_truthy t now Hnz Hv). cbv zeta.
  destruct (Z.lt_ge_cases (Z.abs (now - t)) (2 ^ 53)) as [Hs | Hl].
  - rewrite (diff_exact now t Hs).
    destruct (Z.ltb_spec (now - t) 60000); [lia |].
    destruct (Z.ltb_spec (now - t) 3600000).
    + exists ((now - t) / 60000). split.
      * apply Z.div_le_lower_bound; lia.
      * left. split; [assumption |]. rewrite floor_div_minutes by lia.
        split; [| reflexivity].
        assert ((now - t) / 60000 < 60)
          by (apply Z.div_lt_upper_bound; lia). lia.
    + destruct (Z.ltb_spec (now - t) 86400000).
      * exists ((now - t) / 3600000). split.
        -- apply Z.div_le_lower_bound; lia.
        -- right. left. split; [lia |]. rewrite floor_div_hours by lia.
           split; [| reflexivity].
           assert ((now - t) / 3600000 < 24)
             by (apply Z.div_lt_upper_bound; lia). lia.
      * exists ((now - t) / 86400000). split.
        -- apply Z.div_le_lower_bound; lia.
        -- right. right. split; [assumption |].
           rewrite floor_div_days by lia. reflexivity.
  - destruct (Double.round_integer_even (now - t) Hl) as [_ Hbig].
    pose proof (Double.round_integer_sign (now - t)) as Hsign.
    assert (Hd : 2 ^ 53 <= diff now t).
    { unfold diff. destruct (Z.le_gt_cases 0 (Double.round_integer (now - t)));
        [lia |].
      assert (Hpos : 0 < now - t) by lia.
      pose proof (Double.round_integer_large (now - t) Hl) as (He1 & Heq & Hm).
      rewrite Heq, Z.sgn_pos in * by assumption.
      pose proof (Double.pow2_pos (Z.log2 (Z.abs (now - t)) - 52) ltac:(lia)).
      nia. }
    assert (H53 : 2 ^ 53 = 9007199254740992) by reflexivity.
    destruct (Z.ltb_spec (diff now t) 60000); [lia |].
    destruct (Z.ltb_spec (diff now t) 3600000); [lia |].
    destruct (Z.ltb_spec (diff now t) 86400000); [lia |].
    exists (Double.floor_div (diff now t) 86400000). split.
    + apply Double.floor_div_pos; lia.
    + right. right. split; [lia | reflexivity].
Qed.

Lemma formatTime_counts_witness :
  exists n, 1 <= n /\ n <= 23 /\
            formatTime (DNumber 1000) 7201000 = Number_toString n +:+ "小时前".
Proof.
  assert (H1 : 1000 <> 0) by lia.
  assert (H2 : is_time_value 1000)
    by (unfold is_time_value, max_time_value; simpl; lia).
  assert (H3 : 60000 <= 7201000 - 1000) by lia.
  destruct (formatTime_counts 1000 7201000 H1 H2 H3)
    as (n & Hn & [(Hlt & _) | [(_ & Hle & Hf) | (Hge & _)]]); try lia.
  exists n. repeat split; assumption.
Defined.

(** X3: a timestamp outside the range of [Date] passes the guard, makes
    an invalid date, and every comparison with the difference fails: the
    result is the days format around [NaN], whatever the clock shows. *)
Theorem formatTime_out_of_range (t now : Z) :
  max_time_value < Z.abs t -> formatTime (DNumber t) now = "NaN天前".
Proof.
  intros Ht. unfold formatTime, falsy, Date_new, TimeClip.
  destruct (Z.eqb_spec t 0) as [-> | _]; [unfold max_time_value in Ht; simpl in Ht; lia |].
  destruct (Z.leb_spec (Z.abs t) max_time_value); [lia | reflexivity].
Qed.

Lemma formatTime_out_of_range_witness :
  formatTime (DNumber 9000000000000000) 1700000000000 = "NaN天前".
Proof.
  apply formatTime_out_of_range. unfold max_time_value. simpl. lia.
Defined.

Lemma icons_sensor_type (a : string) :
  a ∈ sensor_types -> exists s, icons a = Some (Text s) /\ s <> "fa-microchip".
Proof.
  unfold sensor_types. rewrite !elem_of_cons, elem_of_nil.
  intros [-> | [-> | [-> | [-> | [-> | []]]]]]; eexists; split;
    try reflexivity; discriminate.
Qed.

(** X4: the icon tells the sensor type: a type of the table and any other
    name never get the same result, so the five types have five different
    icons and none of them is the fallback icon. *)
Theorem getSensorIcon_injective (a b : string) :
  a ∈ sensor_types -> getSensorIcon b = getSensorIcon a -> b = a.
Proof.
  intros Ha. unfold getSensorIcon.
  assert (Hb : b ∈ sensor_types \/ (exists n, icons b = Some (Inherited n))
               \/ icons b = None).
  { unfold icons, sensor_types. rewrite !elem_of_cons.
    repeat (match goal with
            | |- context [String.eqb b ?k] =>
                destruct (String.eqb_spec b k) as [-> | _]; [tauto |]
            end).
    destruct (bool_decide _); eauto. }
  destruct Hb as [Hb | [(n & Hb) | Hb]].
  - revert Ha Hb. unfold sensor_types. rewrite !elem_of_cons, !elem_of_nil.
    intros [-> | [-> | [-> | [-> | [-> | []]]]]]
           [-> | [-> | [-> | [-> | [-> | []]]]]]; simpl;
      try reflexivity; discriminate.
  - destruct (icons_sensor_type a Ha) as (s & -> & _). rewrite Hb. discriminate.
  - destruct (icons_sensor_type a Ha) as (s & -> & Hs). rewrite Hb. simpl.
    congruence.
Qed.

Lemma getSensorIcon_injective_witness :
  "light" ∈ sensor_types /\
  (getSensorIcon "light" = getSensorIcon "light" -> "light" = "light").
Proof.
  assert (H : "light" ∈ sensor_types)
    by (unfold sensor_types; rewrite !elem_of_cons; tauto).
  split; [exact H | exact (getSensorIcon_injective "light" "light" H)].
Defined.

(** X5: a name that is neither in the table nor inherited from
    [Object.prototype] gets the fallback icon, and the result is always
    an icon class starting with [fa-] for such names and for the types of
    the table; an inherited name gets the inherited member, which is no
    icon class at all. *)
Theorem getSensorIcon_fallback (sensorType : string) :
  (sensorType ∉ Object_prototype_names ->
   exists s, getSensorIcon sensorType = Text ("fa-" +:+ s) /\
             (sensorType ∉ sensor_types -> s = "microchip")) /\
  (sensorType ∈ Object_prototype_names ->
   getSensorIcon sensorType = Inherited sensorType).
Proof.
  unfold getSensorIcon, icons, sensor_types. split.
  - intros Hn.
    repeat (match goal with
            | |- context [String.eqb sensorType ?k] =>
                destruct (String.eqb_spec sensorType k) as [-> | ?];
                [eexists; split; [reflexivity |];
                 intros Hk; exfalso; apply Hk; rewrite !elem_of_cons; tauto |]
            end).
    rewrite bool_decide_eq_false_2 by assumption.
    eexists. split; reflexivity.
  - intros Hin.
    repeat (match goal with
            | |- context [String.eqb sensorType ?k] =>
                destruct (String.eqb_spec sensorType k) as [-> | ?];
                [exfalso; revert Hin; unfold Object_prototype_names;
                 rewrite !elem_of_cons, elem_of_nil; intuition discriminate |]
            end).
    now rewrite bool_decide_eq_true_2 by assumption.
Qed.

Lemma getSensorIcon_fallback_witness :
  getSensorIcon "co2" = Text "fa-microchip" /\
  getSensorIcon "toString" = Inherited "toString".
Proof.
  destruct (getSensorIcon_fallback "co2") as [H1 _].
  destruct (getSensorIcon_fallback "toString") as [_ H2].
  split; [| apply H2; unfold Object_prototype_names;
            rewrite !elem_of_cons; tauto].
  destruct H1 as (s & Hs & Hm).
  - unfold Object_prototype_names. rewrite !not_elem_of_cons.
    repeat split; try discriminate. apply not_elem_of_nil.
  - rewrite Hs, Hm; [reflexivity |].
    unfold sensor_types. rewrite !not_elem_of_cons.
    repeat split; try discriminate. apply not_elem_of_nil.
Defined.

End PlatformUtils.

(** * A JavaScript [Map] with string keys

    Entries are kept in insertion order; [set] on a key that is present
    replaces the value where the entry stands. *)

Module JSMap.
Section JSMap.
Context {A : Type}.

Fixpoint get (k : string) (m : list (string * A)) : option A :=
  match m with
  | [] => None
  | (k', a) :: m' => if String.eqb k k' then Some a else get k m'
  end.

Fixpoint set (k : string) (a : A) (m : list (string * A)) : list (string * A) :=
  match m with
  | [] => [(k, a)]
  | (k', a') :: m' =>
      if String.eqb k k' then (k, a) :: m' else (k', a') :: set k a m'
  end.

Definition keys (m : list (string * A)) : list string := map fst m.
Definition values (m : list (string * A)) : list A := map snd m.

Lemma get_set_eq k a m : get k (set k a m) = Some a.
Proof.
  induction m as [| [k' a'] m IH]; simpl.
  - now rewrite String.eqb_refl.
  - destruct (String.eqb_spec k k') as [-> | Hne]; simpl.
    + now rewrite String.eqb_refl.
    + destruct (String.eqb_spec k k'); [contradiction | exact IH].
Qed.

Lemma get_set_ne k k' a m : k <> k' -> get k' (set k a m) = get k' m.
Proof.
  intros Hne. induction m as [| [k0 a0] m IH]; simpl.
  - destruct (String.eqb_spec k' k); congruence.
  - destruct (String.eqb_spec k k0) as [-> | Hk]; simpl.
    + destruct (String.eqb_spec k' k0); congruence.
    + now rewrite IH.
Qed.

Lemma keys_set_present k a m : k ∈ keys m -> keys (set k a m) = keys m.
Proof.
  induction m as [| [k' a'] m IH]; simpl; [by intros ?%elem_of_nil |].
  intros Hin. destruct (String.eqb_spec k k') as [-> | Hne]; simpl.
  - reflexivity.
  - f_equal. apply IH. apply elem_of_cons in Hin. destruct Hin; congruence.
Qed.

Lemma keys_set_absent k a m :
  k ∉ keys m -> keys (set k a m) = keys m ++ [k].
Proof.
  induction m as [| [k' a'] m IH]; simpl; [reflexivity |].
  intros Hnin. apply not_elem_of_cons in Hnin as [Hne Hnin].
  destruct (String.eqb_spec k k') as [-> | _]; simpl.
  - contradiction.
  - f_equal. now apply IH.
Qed.

Lemma keys_set_NoDup k a m : NoDup (keys m) -> NoDup (keys (set k a m)).
Proof.
  intros Hnd. destruct (decide (k ∈ keys m)) as [Hin | Hnin].
  - now rewrite keys_set_present.
  - rewrite keys_set_absent by assumption.
    apply NoDup_app. repeat split; try assumption.
    + intros x Hx Hx'. apply list_elem_of_singleton in Hx'. congruence.
    + apply NoDup_singleton.
Qed.

End JSMap.
End JSMap.

(** * Objects as records of properties

    The own properties of an object, in the order [Object.keys],
    [Object.entries] and [JSON.stringify] list them: the keys that are
    array indices first, in ascending order, then the other keys in the
    order they were created. *)

Module JSObject.

(** The number a property key stands for when the key is an array index:
    the canonical text of an integer from 0 to 2^32 - 2. *)
Definition array_index (k : string) : option N :=
  match NilZero.uint_of_string k with
  | Some u =>
      let n := N.of_uint u in
      if String.eqb (NilZero.string_of_uint (N.to_uint n)) k
         && (n <? 4294967295)%N
      then Some n else None
  | None => None
  end.

(** [k] comes before [k'] among the keys of one object: array indices in
    ascending order, then the other keys. *)
Definition key_before (k k' : string) : bool :=
  match array_index k, array_index k' with
  | Some n, Some n' => (n <? n')%N
  | Some _, None => true
  | None, Some _ => false
  | None, None => negb (String.eqb k k')
  end.

Section JSObject.
Context {V : Type}.

(** A new property goes where its key belongs: an array index among the
    indices, another key at the end. *)
Fixpoint insert_property (k : string) (v : V) (l : list (string * V))
    : list (string * V) :=
  match l with
  | [] => [(k, v)]
  | (k', v') :: l' =>
      if key_before k' k then (k', v') :: insert_property k v l'
      else (k, v) :: (k', v') :: l'
  end.

(** [CreateDataProperty]: a key that is present keeps its place and takes
    the new value. *)
Definition define_property (k : string) (v : V) (l : list (string * V))
    : list (string * V) :=
  match JSMap.get k l with
  | Some _ => JSMap.set k v l
  | None => insert_property k v l
  end.

(** [Object.entries(o)] for the object [o] made by creating the
    properties [props] one after the other, as an object literal and a
    run of assignments do. *)
Definition entries (props : list (string * V)) : list (string * V) :=
  fold_left (fun o p => define_property (fst p) (snd p) o) props [].

Lemma key_before_irrefl k : key_before k k = false.
Proof.
  unfold key_before. destruct (array_index k).
  - apply N.ltb_irrefl.
  - now rewrite String.eqb_refl.
Qed.

Lemma define_property_last (l : list (string * V)) k v :
  forallb (fun p => key_before (fst p) k) l = true ->
  define_property k v l = l ++ [(k, v)].
Proof.
  intros H. unfold define_property.
  assert (Hget : JSMap.get k l = None).
  { induction l as [| [k' v'] l IH]; [reflexivity |]. simpl in *.
    apply andb_true_iff in H as [Hk H].
    destruct (String.eqb_spec k k') as [-> | _].
    - now rewrite key_before_irrefl in Hk.
    - now apply IH. }
  rewrite Hget. clear Hget.
  induction l as [| [k' v'] l IH]; [reflexivity |]. simpl in *.
  apply andb_true_iff in H as [-> H]. now rewrite IH.
Qed.

Lemma length_set k v (l : list (string * V)) :
  (length (JSMap.set k v l) <= S (length l))%nat.
Proof.
  induction l as [| [k' v'] l IH]; simpl; [lia |].
  destruct (String.eqb k k'); simpl; lia.
Qed.

Lemma length_insert_property k v (l : list (string * V)) :
  length (insert_property k v l) = S (length l).
Proof.
  induction l as [| [k' v'] l IH]; simpl; [lia |].
  destruct (key_before k' k); simpl; lia.
Qed.

(** An object has no more properties than were created. *)
Lemma length_entries (props : list (string * V)) :
  (length (entries props) <= length props)%nat.
Proof.
  unfold entries.
  enough (H : forall acc,
    (length (fold_left (fun o p => define_property (fst p) (snd p) o) props acc)
     <= length acc + length props)%nat) by apply (H []).
  induction props as [| [k v] props IH]; intros acc; simpl; [lia |].
  etransitivity; [apply IH |].
  unfold define_property. destruct (JSMap.get k acc).
  - pose proof (length_set k v acc). lia.
  - rewrite length_insert_property. lia.
Qed.

(** Without array indices among the keys, and with each key created once,
    the properties are listed in the order they were created. *)
Lemma entries_insertion_order (props : list (string * V)) :
  NoDup (map fst props) ->
  Forall (fun k => array_index k = None) (map fst props) ->
  entries props = props.
Proof.
  unfold entries.
  enough (H : forall acc,
    NoDup (map fst (acc ++ props)) ->
    Forall (fun k => array_index k = None) (map fst (acc ++ props)) ->
    fold_left (fun o p => define_property (fst p) (snd p) o) props acc
    = acc ++ props) by apply (H []).
  induction props as [| [k v] props IH]; intros acc Hnd Hna; simpl.
  - now rewrite app_nil_r.
  - replace (acc ++ (k, v) :: props) with ((acc ++ [(k, v)]) ++ props) in *
      by now rewrite <- app_assoc.
    rewrite define_property_last; [now apply IH |].
    rewrite !map_app in Hnd, Hna. simpl in Hnd, Hna.
    apply NoDup_app in Hnd as [Hnd _]. apply NoDup_app in Hnd as (_ & Hk & _).
    apply Forall_app in Hna as [Hna _]. apply Forall_app in Hna as [Hacc Hk'].
    apply Forall_cons in Hk' as [Hkn _].
    apply forallb_forall. intros [k' v'] Hin%list_elem_of_In. simpl.
    assert (Hin' : k' ∈ map fst acc) by (apply (list_elem_of_fmap_2 fst _ _ Hin)).
    unfold key_before. rewrite Hkn.
    rewrite (proj1 (Forall_forall _ _) Hacc k' Hin').
    apply negb_true_iff, String.eqb_neq. intros ->.
    apply (Hk k Hin'). now apply list_elem_of_singleton.
Qed.

End JSObject.
End JSObject.

(** * What a host operation gives back *)

(** The exceptions the host raises in this development. *)
Inductive error := TypeError | SyntaxError | QuotaExceededError | SecurityError.

(** An operation returns, throws, or leaves this model: [Unmodelled] marks
    the inputs whose outcome in JavaScript is an infinity or depends on
    UTF-16 surrogates, which the model does not have, and a number that is
    not written in its form.  It is not an exception, and no [catch] sees
    it. *)
Inductive outcome (A : Type) :=
| Return (a : A)
| Throw (e : error)
| Unmodelled.
Arguments Return {A} a.
Arguments Throw {A} e.
Arguments Unmodelled {A}.

#[global] Instance outcome_ret : MRet outcome := @Return.
#[global] Instance outcome_bind : MBind outcome :=
  fun A B f c =>
    match c with
    | Return a => f a
    | Throw e => Throw e
    | Unmodelled => Unmodelled
    end.

(** * JSON *)

Module JSON.

(** The JavaScript values of the model.  A finite number is [Number z]
    when it is a safe integer and [Double m e], the number [m * 2 ^ e]
    with [m] odd, when it is not; minus zero, which [===] does not tell
    from zero, is [Number 0]; [NaN] and the infinities, which
    [JSON.stringify] writes as [null], are no values of the model.  The
    properties of an object are listed in the order [Object.keys] gives
    them; [Cycle] is a reference from inside an object or array to one that
    encloses it, [up] levels above. *)
#[local] Unset Elimination Schemes.
Inductive value :=
| Undefined
| Null
| Bool (b : bool)
| Number (z : Z)
| Double (m e : Z)
| BigInt (z : Z)
| Str (s : string)
| Array (items : list value)
| Object (props : list (string * value))
| Cycle (up : nat).
#[local] Set Elimination Schemes.

(** The integers a number holds exactly. *)
Definition max_safe_integer : Z := 9007199254740991.

Definition is_safe_integer (z : Z) : bool :=
  (- max_safe_integer <=? z) && (z <=? max_safe_integer).

(** ** Numbers that are no safe integers *)

(** [m * 2 ^ e] is a finite double, written with an odd mantissa, and no
    safe integer. *)
Definition is_double (m e : Z) : bool :=
  Z.odd m && (Z.abs m <? 2 ^ 53) && (Double.min_exponent <=? e)
  && (Z.log2 (Z.abs m) + e <? 1024)
  && negb ((0 <=? e) && (Z.abs m * 2 ^ e <=? max_safe_integer)).

(** The value of the double [x], given by mantissa and exponent.  A
    number from 2^1024 on is an infinity. *)
Definition number_of_double (x : Z * Z) : outcome value :=
  let '(m, e) := Double.normalize x in
  if 1024 <=? Z.log2 (Z.abs m) + e then Unmodelled
  else if (0 <=? e) && (Z.abs m * 2 ^ e <=? max_safe_integer)
  then Return (Number (m * 2 ^ e))
  else Return (Double m e).

(** The decimal [M * 10 ^ E] as a ratio. *)
Definition decimal_ratio (M E : Z) : Z * Z :=
  if 0 <=? E then (M * 10 ^ E, 1) else (M, 10 ^ (- E)).

(** The number a decimal literal stands for: the double nearest to
    [M * 10 ^ E], with the sign given. *)
Definition number_of_decimal (negative : bool) (M E : Z) : outcome value :=
  let '(a, b) := decimal_ratio M E in
  number_of_double (Double.round (if negative then - a else a) b).

(** ** [Number::toString] *)

(** The decimal that is [m * 2 ^ e] exactly, for [m > 0]. *)
Definition exact_decimal (m e : Z) : Z * Z :=
  if 0 <=? e then (m * 2 ^ e, 0) else (m * 5 ^ (- e), e).

(** The decimal [s * 10 ^ E], with the sign of [m], is read as the double
    [m * 2 ^ e]. *)
Definition reads_as (m e s E : Z) : bool :=
  match number_of_decimal (m <? 0) s E with
  | Return (Double m' e') => (m' =? m) && (e' =? e)
  | _ => false
  end.

(** The decimal with the fewest digits that is read as the double
    [m * 2 ^ e], whose absolute value is [D * 10 ^ q]: with [j] digits of
    [D] left out, the decimal below and the one above are tried, and of
    two that do the nearer one is taken (the even one when they are
    equally near); [j] goes down until one does. *)
Fixpoint shortest (m e D q : Z) (j : nat) : option (Z * Z) :=
  match j with
  | O => if reads_as m e D q then Some (D, q) else None
  | S j' =>
      let p := 10 ^ Z.of_nat j in
      let lo := D / p in
      let hi := lo + 1 in
      let E := q + Z.of_nat j in
      match reads_as m e lo E, reads_as m e hi E with
      | true, true =>
          if D - lo * p <? hi * p - D then Some (lo, E)
          else if hi * p - D <? D - lo * p then Some (hi, E)
          else if Z.even lo then Some (lo, E) else Some (hi, E)
      | true, false => Some (lo, E)
      | false, true => Some (hi, E)
      | false, false => shortest m e D q j'
      end
  end.

(** The digits [s] and the exponent [E] of the text of [m * 2 ^ e]. *)
Definition digits (m e : Z) : option (Z * Z) :=
  let '(D, q) := exact_decimal (Z.abs m) e in
  shortest m e D q (Decimal.nb_digits (Pos.to_uint (Z.to_pos D))).

(** The exponent of the scientific notation, with its sign. *)
Definition exponent_text (x : Z) : string :=
  String (if x <? 0 then "-"%char else "+"%char)
    (NilEmpty.string_of_uint (N.to_uint (Z.to_N (Z.abs x)))).

(** The text of the positive number [s * 10 ^ E]: with [k] the number of
    digits of [s] and [n = k + E] the place of the decimal point,
    - the digits and [n - k] zeros when [k <= n <= 21], which are the
      digits of the integer [s * 10 ^ E];
    - the digits with a point after the first [n] when [0 < n <= 21];
    - the digits after [0.] and [- n] zeros when [-6 < n <= 0];
    - and else the first digit, the others after a point if there are
      others, and the exponent [n - 1]. *)
Definition decimal_text (s E : Z) : string :=
  let u := Pos.to_uint (Z.to_pos s) in
  let k := Z.of_nat (Decimal.nb_digits u) in
  let n := k + E in
  if (0 <=? E) && (n <=? 21)
  then NilEmpty.string_of_uint (Pos.to_uint (Z.to_pos (s * 10 ^ E)))
  else if (0 <? n) && (n <=? 21)
  then NilEmpty.string_of_uint (Decimal.del_tail (Z.to_nat (- E)) u)
       +:+ String "." (NilEmpty.string_of_uint (Decimal.del_head (Z.to_nat n) u))
  else if (-6 <? n) && (n <=? 0)
  then String "0"
         (String "."
            (NilEmpty.string_of_uint (Nat.iter (Z.to_nat (- n)) Decimal.D0 u)))
  else NilEmpty.string_of_uint
         (Decimal.del_tail (Decimal.nb_digits u - 1) u)
       +:+ (if k =? 1 then ""
            else String "." (NilEmpty.string_of_uint (Decimal.del_head 1 u)))
       +:+ String "e" (exponent_text (n - 1)).

(** [String(x)] for the double [m * 2 ^ e]. *)
Definition double_text (m e : Z) : option string :=
  match digits m e with
  | Some (s, E) => Some ((if m <? 0 then "-" else "") +:+ decimal_text s E)
  | None => None
  end.

(** ** [JSON.stringify] *)

Definition hex_digit (n : N) : ascii :=
  ascii_of_N (if (n <? 10)%N then 48 + n else 87 + n).

(** One character of a quoted string. *)
Definition quote_char (c : ascii) : string :=
  let n := N_of_ascii c in
  if (n =? 34)%N then String "092"%char dquote
  else if (n =? 92)%N then "\\"
  else if (n =? 8)%N then "\b"
  else if (n =? 12)%N then "\f"
  else if (n =? 10)%N then "\n"
  else if (n =? 13)%N then "\r"
  else if (n =? 9)%N then "\t"
  else if (n <? 32)%N then
    "\u00" +:+ String (hex_digit (n / 16)) (String (hex_digit (n mod 16)) "")
  else String c "".

Fixpoint quote_chars (s : string) : string :=
  match s with
  | EmptyString => ""
  | String c s' => quote_char c +:+ quote_chars s'
  end.

(** [QuoteJSONString]. *)
Definition quote (s : string) : string := dquote +:+ quote_chars s +:+ dquote.

Definition comma (first : bool) : string := if first then "" else ",".

(** [SerializeJSONArray], without the brackets: an element without text
    is written [null]. *)
Definition serialize_elements (serialize : value -> outcome (option string)) :=
  fix elements (l : list value) (first : bool) : outcome string :=
    match l with
    | [] => Return ""
    | x :: l' =>
        o ← serialize x;
        rest ← elements l' false;
        Return (comma first +:+ default "null" o +:+ rest)
    end.

(** [SerializeJSONObject], without the braces: a property without text is
    left out. *)
Definition serialize_members (serialize : value -> outcome (option string)) :=
  fix members (l : list (string * value)) (first : bool) : outcome string :=
    match l with
    | [] => Return ""
    | (k, x) :: l' =>
        o ← serialize x;
        match o with
        | Some text =>
            rest ← members l' false;
            Return (comma first +:+ quote k +:+ ":" +:+ text +:+ rest)
        | None => members l' first
        end
    end.

(** [SerializeJSONProperty]: the text of a value, or nothing for
    [undefined].  A [BigInt] and a reference to an enclosing object make it
    throw.  A number written in the other of its two forms (a [Number]
    that is no safe integer, a [Double] that is one or is no double) is
    no value. *)
Fixpoint serialize (v : value) : outcome (option string) :=
  match v with
  | Undefined => Return None
  | Null => Return (Some "null")
  | Bool true => Return (Some "true")
  | Bool false => Return (Some "false")
  | Number z =>
      if is_safe_integer z then Return (Some (Number_toString z))
      else Unmodelled
  | Double m e =>
      if is_double m e then
        match double_text m e with
        | Some text => Return (Some text)
        | None => Unmodelled
        end
      else Unmodelled
  | BigInt _ => Throw TypeError
  | Str s => Return (Some (quote s))
  | Array items =>
      body ← serialize_elements serialize items true;
      Return (Some ("[" +:+ body +:+ "]"))
  | Object props =>
      body ← serialize_members serialize props true;
      Return (Some ("{" +:+ body +:+ "}"))
  | Cycle _ => Throw TypeError
  end.

(** [JSON.stringify(value)]. *)
Definition stringify (v : value) : outcome (option string) := serialize v.

(** ** [JSON.parse] *)

Definition is_ws (c : ascii) : bool :=
  let n := N_of_ascii c in
  ((n =? 32) || (n =? 9) || (n =? 10) || (n =? 13))%N.

Fixpoint skip_ws (s : string) : string :=
  match s with
  | String c s' => if is_ws c then skip_ws s' else s
  | EmptyString => s
  end.

Definition hex_value (c : ascii) : option N :=
  let n := N_of_ascii c in
  if ((48 <=? n) && (n <=? 57))%N then Some (n - 48)%N
  else if ((97 <=? n) && (n <=? 102))%N then Some (n - 87)%N
  else if ((65 <=? n) && (n <=? 70))%N then Some (n - 55)%N
  else None.

(** The bytes of the character a [\u] escape names; a surrogate is half a
    character. *)
Definition utf8 (code : N) : outcome string :=
  if (code <? 128)%N then Return (String (ascii_of_N code) "")
  else if (code <? 2048)%N then
    Return (String (ascii_of_N (192 + code / 64))
              (String (ascii_of_N (128 + code mod 64)) ""))
  else if ((55296 <=? code) && (code <=? 57343))%N then Unmodelled
  else
    Return (String (ascii_of_N (224 + code / 4096))
              (String (ascii_of_N (128 + (code / 64) mod 64))
                 (String (ascii_of_N (128 + code mod 64)) ""))).

(** The character a two-character escape stands for. *)
Definition unescape (e : ascii) : option ascii :=
  let m := N_of_ascii e in
  if (m =? 34)%N then Some e
  else if (m =? 92)%N then Some e
  else if (m =? 47)%N then Some e
  else if (m =? 98)%N then Some (ascii_of_N 8)
  else if (m =? 102)%N then Some (ascii_of_N 12)
  else if (m =? 110)%N then Some (ascii_of_N 10)
  else if (m =? 114)%N then Some (ascii_of_N 13)
  else if (m =? 116)%N then Some (ascii_of_N 9)
  else None.

(** The characters of a string up to its closing quote, and what follows
    the quote. *)
Fixpoint parse_chars (s : string) : outcome (string * string) :=
  match s with
  | EmptyString => Throw SyntaxError
  | String c s' =>
      let n := N_of_ascii c in
      if (n =? 34)%N then Return ("", s')
      else if (n =? 92)%N then
        match s' with
        | EmptyString => Throw SyntaxError
        | String e s'' =>
            if (N_of_ascii e =? 117)%N then
              match s'' with
              | String h1 (String h2 (String h3 (String h4 s3))) =>
                  match hex_value h1, hex_value h2, hex_value h3, hex_value h4 with
                  | Some a, Some b, Some c', Some d =>
                      text ← utf8 (((a * 16 + b) * 16 + c') * 16 + d)%N;
                      '(t, r) ← parse_chars s3;
                      Return (text +:+ t, r)
                  | _, _, _, _ => Throw SyntaxError
                  end
              | _ => Throw SyntaxError
              end
            else
              match unescape e with
              | Some c' => '(t, r) ← parse_chars s''; Return (String c' t, r)
              | None => Throw SyntaxError
              end
        end
      else if (n <? 32)%N then Throw SyntaxError
      else '(t, r) ← parse_chars s'; Return (String c t, r)
  end.

(** A decimal digit, as the constructor of [Decimal.uint] it stands for. *)
Definition digit (c : ascii) : option (Decimal.uint -> Decimal.uint) :=
  match c with
  | "0" => Some Decimal.D0 | "1" => Some Decimal.D1 | "2" => Some Decimal.D2
  | "3" => Some Decimal.D3 | "4" => Some Decimal.D4 | "5" => Some Decimal.D5
  | "6" => Some Decimal.D6 | "7" => Some Decimal.D7 | "8" => Some Decimal.D8
  | "9" => Some Decimal.D9 | _ => None
  end%char.

(** The digits a text starts with, and what follows them. *)
Fixpoint take_digits (s : string) : Decimal.uint * string :=
  match s with
  | String c s' =>
      match digit c with
      | Some d => let '(u, r) := take_digits s' in (d u, r)
      | None => (Decimal.Nil, s)
      end
  | EmptyString => (Decimal.Nil, s)
  end.

(** A zero followed by more digits. *)
Definition leading_zero (u : Decimal.uint) : bool :=
  match u with
  | Decimal.D0 Decimal.Nil => false
  | Decimal.D0 _ => true
  | _ => false
  end.

(** The fraction of a number, if one comes next: a point and digits. *)
Definition fraction (r : string) : outcome (Decimal.uint * string) :=
  match r with
  | String "."%char r' =>
      match take_digits r' with
      | (Decimal.Nil, _) => Throw SyntaxError
      | (f, r'') => Return (f, r'')
      end
  | _ => Return (Decimal.Nil, r)
  end.

(** The exponent of a number, if one comes next: [e] or [E], a sign or
    none, and digits. *)
Definition exponent (r : string) : outcome (Z * string) :=
  match r with
  | String c r' =>
      if Ascii.eqb c "e" || Ascii.eqb c "E" then
        let '(negative, r'') :=
          match r' with
          | String "-"%char t => (true, t)
          | String "+"%char t => (false, t)
          | _ => (false, r')
          end in
        match take_digits r'' with
        | (Decimal.Nil, _) => Throw SyntaxError
        | (x, r3) =>
            Return (if negative then - Z.of_uint x else Z.of_uint x, r3)
        end
      else Return (0, r)
  | EmptyString => Return (0, r)
  end.

(** The number that begins with the digits [u], [r] being what follows
    them: the digits of the fraction go to the mantissa, and the exponent
    counts them. *)
Definition number_of (negative : bool) (u : Decimal.uint) (r : string)
    : outcome (value * string) :=
  match u with
  | Decimal.Nil => Throw SyntaxError
  | _ =>
      if leading_zero u then Throw SyntaxError
      else
        '(f, r1) ← fraction r;
        '(x, r2) ← exponent r1;
        v ← number_of_decimal negative (Z.of_uint (Decimal.app u f))
              (x - Z.of_nat (Decimal.nb_digits f));
        Return (v, r2)
  end.

(** A number: a minus sign or none, digits, and then a fraction and an
    exponent or none. *)
Definition parse_number (s : string) : outcome (value * string) :=
  let '(negative, s) :=
    match s with
    | String "-"%char s' => (true, s')
    | _ => (false, s)
    end in
  let '(u, r) := take_digits s in
  number_of negative u r.

(** [s] without its prefix [p]. *)
Fixpoint strip_prefix (p s : string) : option string :=
  match p with
  | EmptyString => Some s
  | String a p' =>
      match s with
      | String b s' => if Ascii.eqb a b then strip_prefix p' s' else None
      | EmptyString => None
      end
  end.

(** The elements of an array after the first bracket, up to the closing
    one; [pv] reads one value. *)
Fixpoint parse_elements (n : nat) (pv : string -> outcome (value * string))
    (s : string) (acc : list value) : outcome (value * string) :=
  match n with
  | O => Unmodelled
  | S n' =>
      '(v, r) ← pv s;
      match skip_ws r with
      | String c r' =>
          if Ascii.eqb c "," then parse_elements n' pv r' (acc ++ [v])
          else if Ascii.eqb c "]" then Return (Array (acc ++ [v]), r')
          else Throw SyntaxError
      | EmptyString => Throw SyntaxError
      end
  end.

(** The members of an object after the first brace, up to the closing
    one. *)
Fixpoint parse_members (n : nat) (pv : string -> outcome (value * string))
    (s : string) (acc : list (string * value)) : outcome (value * string) :=
  match n with
  | O => Unmodelled
  | S n' =>
      match skip_ws s with
      | String c s1 =>
          if (N_of_ascii c =? 34)%N then
            '(k, r) ← parse_chars s1;
            match skip_ws r with
            | String c2 r2 =>
                if Ascii.eqb c2 ":" then
                  '(v, r3) ← pv r2;
                  let acc := JSObject.define_property k v acc in
                  match skip_ws r3 with
                  | String c3 r4 =>
                      if Ascii.eqb c3 "," then parse_members n' pv r4 acc
                      else if Ascii.eqb c3 "}" then Return (Object acc, r4)
                      else Throw SyntaxError
                  | EmptyString => Throw SyntaxError
                  end
                else Throw SyntaxError
            | EmptyString => Throw SyntaxError
            end
          else Throw SyntaxError
      | EmptyString => Throw SyntaxError
      end
  end.

Definition keyword (word : string) (v : value) (s : string)
    : outcome (value * string) :=
  match strip_prefix word s with
  | Some r => Return (v, r)
  | None => Throw SyntaxError
  end.

(** One value and what follows it.  Each round reads at least one
    character, so a fuel of the length of the text is never used up. *)
Fixpoint parse_value (fuel : nat) (s : string) : outcome (value * string) :=
  match fuel with
  | O => Unmodelled
  | S fuel' =>
      match skip_ws s with
      | EmptyString => Throw SyntaxError
      | String c s' =>
          let n := N_of_ascii c in
          if (n =? 123)%N then
            match skip_ws s' with
            | String "}"%char r => Return (Object [], r)
            | _ => parse_members fuel' (parse_value fuel') s' []
            end
          else if (n =? 91)%N then
            match skip_ws s' with
            | String "]"%char r => Return (Array [], r)
            | _ => parse_elements fuel' (parse_value fuel') s' []
            end
          else if (n =? 34)%N then
            '(t, r) ← parse_chars s'; Return (Str t, r)
          else if (n =? 116)%N then keyword "true" (Bool true) (String c s')
          else if (n =? 102)%N then keyword "false" (Bool false) (String c s')
          else if (n =? 110)%N then keyword "null" Null (String c s')
          else if (n =? 45)%N || ((48 <=? n) && (n <=? 57))%N then
            parse_number (String c s')
          else Throw SyntaxError
      end
  end.

(** [JSON.parse(text)]. *)
Definition parse (text : string) : outcome value :=
  '(v, r) ← parse_value (S (String.length text)) text;
  match skip_ws r with
  | EmptyString => Return v
  | String _ _ => Throw SyntaxError
  end.

(** What may follow a number: no digit, and no fraction or exponent. *)
Definition delimited (rest : string) : bool :=
  match rest with
  | String c _ =>
      match digit c with
      | Some _ => false
      | None => negb (Ascii.eqb c "." || Ascii.eqb c "e" || Ascii.eqb c "E")
      end
  | EmptyString => true
  end.

(** ** The values JSON text can hold *)

(** The keys of one object, in the order the object lists them. *)
Fixpoint keys_ordered (ks : list string) : bool :=
  match ks with
  | [] => true
  | k :: ks' => forallb (JSObject.key_before k) ks' && keys_ordered ks'
  end.

(** A value that JSON text represents as it is: no [undefined], no
    [BigInt], no reference to an enclosing object, every number in its
    form ([Number z] for a safe integer, [Double m e] for another finite
    double), and objects with their keys in order. *)
Fixpoint is_json (v : value) : bool :=
  match v with
  | Null | Bool _ | Str _ => true
  | Number z => is_safe_integer z
  | Double m e => is_double m e
  | Array items => forallb is_json items
  | Object props =>
      keys_ordered (map fst props) && forallb (fun p => is_json (snd p)) props
  | Undefined | BigInt _ | Cycle _ => false
  end.

(** The text of a value of [is_json]: elements and members joined by
    commas. *)
Definition join_elements (text : value -> string) :=
  fix join (l : list value) (first : bool) : string :=
    match l with
    | [] => ""
    | x :: l' => comma first +:+ text x +:+ join l' false
    end.

Definition join_members (text : value -> string) :=
  fix join (l : list (string * value)) (first : bool) : string :=
    match l with
    | [] => ""
    | (k, x) :: l' =>
        comma first +:+ quote k +:+ ":" +:+ text x +:+ join l' false
    end.

(** The text [serialize] gives a value of [is_json]; that it does is
    [stringify_text_of] below. *)
Fixpoint text_of (v : value) : string :=
  match v with
  | Null => "null"
  | Bool true => "true"
  | Bool false => "false"
  | Number z => Number_toString z
  | Double m e => default "" (double_text m e)
  | Str s => quote s
  | Array items => "[" +:+ join_elements text_of items true +:+ "]"
  | Object props => "{" +:+ join_members text_of props true +:+ "}"
  | Undefined | BigInt _ | Cycle _ => ""
  end.

(** A character a number starts with. *)
Definition number_start (c : ascii) : bool :=
  Ascii.eqb c "-" || match digit c with Some _ => true | None => false end.

(** A character a value can start with, other than a closing bracket. *)
Definition value_start (c : ascii) : bool :=
  negb (is_ws c) && negb (Ascii.eqb c "]") && negb (Ascii.eqb c "}").

(** The rounds a value needs. *)
Fixpoint need (v : value) : nat :=
  match v with
  | Array items => S (Nat.max (length items) (list_max (map need items)))
  | Object props =>
      S (Nat.max (length props) (list_max (map (fun p => need (snd p)) props)))
  | _ => 1
  end.

(** [parse_value] reads the text of [x] back, given rounds enough and a
    text that goes on with something other than the number. *)
Definition reads_back (x : value) : Prop :=
  is_json x = true ->
  forall fuel rest, (need x <= fuel)%nat -> delimited rest = true ->
    parse_value fuel (text_of x +:+ rest) = Return (x, rest).

(** ** Text that is written, then read *)

#[local] Arguments String.append !s1 s2 / : simpl nomatch.

Lemma append_cons (x : ascii) (a b : string) :
  String x a +:+ b = String x (a +:+ b).
Proof. reflexivity. Qed.

Lemma append_nil_l (b : string) : "" +:+ b = b.
Proof. reflexivity. Qed.

Lemma append_assoc (a b c : string) : (a +:+ b) +:+ c = a +:+ (b +:+ c).
Proof.
  induction a as [| x a IH]; [reflexivity |].
  now rewrite !append_cons, IH.
Qed.

(** Appends nested to the right, with the leading characters in front. *)
Ltac right_nested :=
  repeat (progress (rewrite ?append_cons, ?append_assoc, ?append_nil_l)).

Lemma length_append (a b : string) :
  String.length (a +:+ b) = (String.length a + String.length b)%nat.
Proof.
  induction a as [| x a IH]; [reflexivity |].
  rewrite append_cons. simpl. now rewrite IH.
Qed.

Lemma parse_chars_quote_char c t :
  parse_chars (quote_char c +:+ t) =
    '(t', r) ← parse_chars t; Return (String c t', r).
Proof.
  destruct c as [[] [] [] [] [] [] [] []]; reflexivity.
Qed.

Lemma parse_chars_quote_chars s rest :
  parse_chars (quote_chars s +:+ String "034" rest) = Return (s, rest).
Proof.
  induction s as [| c s IH]; [reflexivity |].
  simpl quote_chars. rewrite append_assoc, parse_chars_quote_char.
  rewrite IH. reflexivity.
Qed.

Lemma take_digits_string_of_uint u rest :
  match rest with
  | String c _ => digit c = None
  | EmptyString => True
  end ->
  take_digits (NilEmpty.string_of_uint u +:+ rest) = (u, rest).
Proof.
  intros Hrest. induction u; simpl NilEmpty.string_of_uint;
    rewrite ?append_cons; simpl; rewrite ?IHu; try reflexivity.
  destruct rest as [| c r]; [reflexivity |]. simpl. now rewrite Hrest.
Qed.

(** The digits of a positive number start with a digit that is not 0. *)
Lemma to_uint_head p :
  match Pos.to_uint p with
  | Decimal.Nil | Decimal.D0 _ => False
  | _ => True
  end.
Proof.
  pose proof (DecimalPos.Unsigned.to_of (Pos.to_uint p)) as H.
  rewrite DecimalPos.Unsigned.of_to in H. simpl in H.
  pose proof (DecimalPos.Unsigned.to_uint_nonzero p) as Hnz.
  rewrite H in Hnz |- *.
  assert (Hh : forall d, match Decimal.nzhead d with Decimal.D0 _ => False | _ => True end).
  { induction d; simpl; auto. }
  unfold Decimal.unorm in *. specialize (Hh (Pos.to_uint p)).
  destruct (Decimal.nzhead (Pos.to_uint p)); try exact I; try contradiction.
Qed.

Lemma delimited_digit rest :
  delimited rest = true ->
  match rest with
  | String c _ => digit c = None
  | EmptyString => True
  end.
Proof.
  destruct rest as [| c r]; [easy |]. simpl. now destruct (digit c).
Qed.

(** No digit comes next. *)
Definition not_digit (rest : string) : Prop :=
  match rest with
  | String c _ => digit c = None
  | EmptyString => True
  end.

Lemma delimited_fraction rest :
  delimited rest = true -> fraction rest = Return (Decimal.Nil, rest).
Proof.
  destruct rest as [| c r]; [reflexivity |]. unfold delimited.
  destruct (digit c); [discriminate |].
  intros [[H1 H2]%orb_false_iff H3]%negb_true_iff%orb_false_iff.
  destruct c as [[] [] [] [] [] [] [] []]; try reflexivity; discriminate.
Qed.

Lemma delimited_exponent rest :
  delimited rest = true -> exponent rest = Return (0, rest).
Proof.
  destruct rest as [| c r]; [reflexivity |]. unfold delimited, exponent.
  destruct (digit c); [discriminate |].
  intros [[H1 H2]%orb_false_iff H3]%negb_true_iff%orb_false_iff.
  now rewrite H2, H3.
Qed.

Lemma parse_number_unsigned u rest :
  u <> Decimal.Nil -> not_digit rest ->
  parse_number (NilEmpty.string_of_uint u +:+ rest) = number_of false u rest.
Proof.
  intros Hu Hd. unfold parse_number.
  assert (Hs : (let '(negative, s) :=
                  match NilEmpty.string_of_uint u +:+ rest with
                  | String "-"%char s' => (true, s')
                  | _ => (false, NilEmpty.string_of_uint u +:+ rest)
                  end in (negative, s))
               = (false, NilEmpty.string_of_uint u +:+ rest)).
  { destruct u; try contradiction; reflexivity. }
  destruct (match NilEmpty.string_of_uint u +:+ rest with
            | String "-"%char s' => (true, s')
            | _ => (false, NilEmpty.string_of_uint u +:+ rest)
            end) as [negative s]. injection Hs as -> ->.
  now rewrite take_digits_string_of_uint.
Qed.

Lemma parse_number_negative u rest :
  not_digit rest ->
  parse_number (String "-" (NilEmpty.string_of_uint u +:+ rest)) =
    number_of true u rest.
Proof.
  intros Hd. unfold parse_number.
  now rewrite take_digits_string_of_uint.
Qed.

(** A number in its parts: sign, digits, fraction and exponent. *)
Lemma parse_number_parts (negative : bool) u f x tail tail1 rest :
  u <> Decimal.Nil -> leading_zero u = false -> not_digit tail ->
  fraction tail = Return (f, tail1) -> exponent tail1 = Return (x, rest) ->
  parse_number
    ((if negative then "-" else "") +:+ NilEmpty.string_of_uint u +:+ tail)
  = v ← number_of_decimal negative (Z.of_uint (Decimal.app u f))
          (x - Z.of_nat (Decimal.nb_digits f));
    Return (v, rest).
Proof.
  intros Hu Hlz Hd Hf Hx.
  assert (Hn : number_of negative u tail
               = v ← number_of_decimal negative (Z.of_uint (Decimal.app u f))
                       (x - Z.of_nat (Decimal.nb_digits f));
                 Return (v, rest)).
  { unfold number_of. rewrite Hlz, Hf. simpl. rewrite Hx. simpl.
    now destruct u. }
  destruct negative; simpl.
  - now rewrite parse_number_negative.
  - now rewrite parse_number_unsigned.
Qed.

Lemma Number_toString_pos p :
  Number_toString (Z.pos p) = NilEmpty.string_of_uint (Pos.to_uint p).
Proof.
  unfold Number_toString. simpl.
  pose proof (DecimalPos.Unsigned.to_uint_nonnil p).
  now destruct (Pos.to_uint p).
Qed.

Lemma Number_toString_neg p :
  Number_toString (Z.neg p) =
    String "-" (NilEmpty.string_of_uint (Pos.to_uint p)).
Proof.
  unfold Number_toString. simpl.
  pose proof (DecimalPos.Unsigned.to_uint_nonnil p).
  now destruct (Pos.to_uint p).
Qed.

Lemma to_uint_leading_zero p : leading_zero (Pos.to_uint p) = false.
Proof.
  pose proof (to_uint_head p). now destruct (Pos.to_uint p).
Qed.

Lemma of_to_uint p : Z.of_uint (Pos.to_uint p) = Z.pos p.
Proof. unfold Z.of_uint. now rewrite DecimalPos.Unsigned.of_to. Qed.

(** ** The number a decimal stands for *)

(** A ratio that is the double [m * 2 ^ e] stands for that double. *)
Lemma number_of_double_exact a b m e :
  0 < b -> Z.odd m = true -> Z.abs m < 2 ^ 53 -> Double.min_exponent <= e ->
  Double.is_ratio a b (Z.abs m) e ->
  number_of_double (Double.round (Z.sgn m * a) b) =
    if 1024 <=? Z.log2 (Z.abs m) + e then Unmodelled
    else if (0 <=? e) && (Z.abs m * 2 ^ e <=? max_safe_integer)
    then Return (Number (m * 2 ^ e))
    else Return (Double m e).
Proof.
  intros Hb Ho Hm He Hr. unfold number_of_double.
  now rewrite (Double.normalize_round_exact a b m e).
Qed.

(** The digits of a safe integer stand for it. *)
Lemma number_of_decimal_integer (negative : bool) z :
  0 <= z <= max_safe_integer ->
  number_of_decimal negative z 0 = Return (Number (if negative then - z else z)).
Proof.
  intros Hz. unfold number_of_decimal, decimal_ratio.
  change (0 <=? 0) with true. cbv iota. rewrite Z.pow_0_r, Z.mul_1_r.
  destruct z as [| p | p]; [now destruct negative | | lia].
  pose proof (Double.odd_part_spec p 0) as Hp.
  destruct (Double.odd_part p 0) as [m t].
  destruct Hp as (Ho & Hm & Ht & Hp). rewrite Z.sub_0_r in Hp.
  pose proof (Double.pow2_pos t Ht) as Hpt.
  set (m' := if negative then - m else m).
  assert (Ho' : Z.odd m' = true)
    by (unfold m'; destruct negative; [now rewrite Z.odd_opp | assumption]).
  assert (Ha : Z.abs m' = m) by (unfold m'; destruct negative; lia).
  replace (if negative then - Z.pos p else Z.pos p) with (Z.sgn m' * Z.pos p)
    by (unfold m'; destruct negative; lia).
  unfold max_safe_integer in Hz.
  assert (Hlt : Z.abs m' < 2 ^ 53) by (rewrite Ha; nia).
  assert (Hr : Double.is_ratio (Z.pos p) 1 (Z.abs m') t).
  { unfold Double.is_ratio. destruct (Z.leb_spec 0 t); [| lia].
    rewrite Ha. lia. }
  rewrite (number_of_double_exact (Z.pos p) 1 m' t ltac:(lia) Ho' Hlt
             ltac:(unfold Double.min_exponent; lia) Hr).
  rewrite Ha.
  assert (Hl : Z.log2 m + t = Z.log2 (Z.pos p))
    by (rewrite Hp, Z.log2_mul_pow2 by lia; lia).
  assert (Z.log2 (Z.pos p) <= 52) by (apply Double.log2_le_52; lia).
  destruct (Z.leb_spec 1024 (Z.log2 m + t)); [lia |].
  destruct (Z.leb_spec 0 t); [| lia].
  unfold max_safe_integer.
  destruct (Z.leb_spec (m * 2 ^ t) 9007199254740991); [| lia].
  simpl. do 2 f_equal. unfold m'. destruct negative; lia.
Qed.

Lemma parse_number_toString z rest :
  is_safe_integer z = true -> delimited rest = true ->
  parse_number (Number_toString z +:+ rest) = Return (Number z, rest).
Proof.
  unfold is_safe_integer. intros Hz%andb_true_iff Hd.
  destruct Hz as [Hlo%Z.leb_le Hhi%Z.leb_le].
  pose proof (delimited_digit _ Hd) as Hnd.
  pose proof (delimited_fraction _ Hd) as Hf.
  pose proof (delimited_exponent _ Hd) as Hx.
  destruct z as [| p | p].
  - refine (eq_trans (parse_number_parts false (Decimal.D0 Decimal.Nil) _ _ _ _ _
                        ltac:(discriminate) eq_refl Hnd Hf Hx) _).
    reflexivity.
  - rewrite Number_toString_pos.
    refine (eq_trans (parse_number_parts false (Pos.to_uint p) _ _ _ _ _
                        (DecimalPos.Unsigned.to_uint_nonnil p)
                        (to_uint_leading_zero p) Hnd Hf Hx) _).
    rewrite DecimalFacts.app_nil_r, of_to_uint. simpl (0 - _).
    now rewrite number_of_decimal_integer by lia.
  - rewrite Number_toString_neg.
    refine (eq_trans (parse_number_parts true (Pos.to_uint p) _ _ _ _ _
                        (DecimalPos.Unsigned.to_uint_nonnil p)
                        (to_uint_leading_zero p) Hnd Hf Hx) _).
    rewrite DecimalFacts.app_nil_r, of_to_uint. simpl (0 - _).
    rewrite number_of_decimal_integer by (unfold max_safe_integer in *; lia).
    reflexivity.
Qed.

(** ** The digits of a double *)

Lemma reads_as_spec m e s E :
  reads_as m e s E = true ->
  number_of_decimal (m <? 0) s E = Return (Double m e).
Proof.
  unfold reads_as.
  destruct (number_of_decimal (m <? 0) s E) as [v | |]; try discriminate.
  destruct v; try discriminate.
  now intros [->%Z.eqb_eq ->%Z.eqb_eq]%andb_true_iff.
Qed.

(** Zero is no [Double]. *)
Lemma reads_as_zero m e E : reads_as m e 0 E = false.
Proof.
  unfold reads_as, number_of_decimal, decimal_ratio.
  now destruct (0 <=? E), (m <? 0).
Qed.

Lemma shortest_S m e D q j :
  shortest m e D q (S j) =
    let p := 10 ^ Z.of_nat (S j) in
    let lo := D / p in
    let hi := lo + 1 in
    let E := q + Z.of_nat (S j) in
    match reads_as m e lo E, reads_as m e hi E with
    | true, true =>
        if D - lo * p <? hi * p - D then Some (lo, E)
        else if hi * p - D <? D - lo * p then Some (hi, E)
        else if Z.even lo then Some (lo, E) else Some (hi, E)
    | true, false => Some (lo, E)
    | false, true => Some (hi, E)
    | false, false => shortest m e D q j
    end.
Proof. reflexivity. Qed.

(** The decimal found is read as the double, and is positive. *)
Lemma shortest_reads_as m e D q j s E :
  0 <= D -> shortest m e D q j = Some (s, E) ->
  reads_as m e s E = true /\ 0 < s.
Proof.
  intros HD.
  assert (Hpos : forall s' E', 0 <= s' -> reads_as m e s' E' = true ->
                               reads_as m e s' E' = true /\ 0 < s').
  { intros s' E' Hs Hr. split; [exact Hr |].
    destruct (Z.eq_dec s' 0) as [-> |]; [| lia].
    now rewrite reads_as_zero in Hr. }
  induction j as [| j IH].
  - simpl. destruct (reads_as m e D q) eqn:Hr; [| discriminate].
    injection 1 as <- <-. now apply Hpos.
  - rewrite shortest_S. cbv zeta.
    set (p := 10 ^ Z.of_nat (S j)).
    assert (Hp : 0 < p) by (apply Z.pow_pos_nonneg; lia).
    assert (Hlo : 0 <= D / p) by (apply Z.div_pos; lia).
    destruct (reads_as m e (D / p) (q + Z.of_nat (S j))) eqn:Hrl,
      (reads_as m e (D / p + 1) (q + Z.of_nat (S j))) eqn:Hrh.
    + destruct (D - D / p * p <? (D / p + 1) * p - D);
        [| destruct ((D / p + 1) * p - D <? D - D / p * p);
           [| destruct (Z.even (D / p))]];
        injection 1 as <- <-; apply Hpos; (assumption || lia).
    + injection 1 as <- <-. now apply Hpos.
    + injection 1 as <- <-. apply Hpos; (assumption || lia).
    + exact IH.
Qed.

(** Once the exact decimal is read as the double, a decimal is found. *)
Lemma shortest_total m e D q j :
  reads_as m e D q = true -> exists r, shortest m e D q j = Some r.
Proof.
  intros Hr. induction j as [| j IH].
  - simpl. rewrite Hr. eauto.
  - rewrite shortest_S. cbv zeta.
    destruct (reads_as m e _ _), (reads_as m e _ _);
      repeat match goal with |- context [if ?c then _ else _] => destruct c end;
      eauto.
Qed.

Lemma is_double_spec m e :
  is_double m e = true ->
  Z.odd m = true /\ Z.abs m < 2 ^ 53 /\ Double.min_exponent <= e /\
  Z.log2 (Z.abs m) + e < 1024 /\
  (0 <=? e) && (Z.abs m * 2 ^ e <=? max_safe_integer) = false.
Proof.
  unfold is_double.
  intros [[[[Ho Hm%Z.ltb_lt]%andb_true_iff He%Z.leb_le]%andb_true_iff
             Hl%Z.ltb_lt]%andb_true_iff Hn%negb_true_iff]%andb_true_iff.
  repeat split; assumption.
Qed.

(** A double is what its exact decimal is read as. *)
Lemma reads_as_exact m e :
  is_double m e = true ->
  reads_as m e (fst (exact_decimal (Z.abs m) e)) (snd (exact_decimal (Z.abs m) e))
  = true /\ 0 < fst (exact_decimal (Z.abs m) e).
Proof.
  intros (Ho & Hm & He & Hl & Hn)%is_double_spec.
  assert (Hnz : m <> 0) by (intros ->; discriminate).
  assert (Hsgn : forall a, (if m <? 0 then - a else a) = Z.sgn m * a)
    by (intros a; destruct (Z.ltb_spec m 0); lia).
  assert (Hread : forall a b, 0 < b -> Double.is_ratio a b (Z.abs m) e ->
            number_of_double (Double.round (if m <? 0 then - a else a) b)
            = Return (Double m e)).
  { intros a b Hb Hr.
    rewrite Hsgn, (number_of_double_exact a b m e Hb Ho Hm He Hr), Hn.
    now destruct (Z.leb_spec 1024 (Z.log2 (Z.abs m) + e)); [lia |]. }
  unfold exact_decimal, reads_as, number_of_decimal, decimal_ratio.
  destruct (Z.leb_spec 0 e) as [He0 | He0]; simpl fst; simpl snd.
  - assert (0 < 2 ^ e) by (apply Z.pow_pos_nonneg; lia).
    split; [| nia].
    change (0 <=? 0) with true. cbv iota.
    rewrite Hread, !Z.eqb_refl; [reflexivity | lia |].
    unfold Double.is_ratio. destruct (Z.leb_spec 0 e); lia.
  - assert (0 < 5 ^ (- e)) by (apply Z.pow_pos_nonneg; lia).
    split; [| nia].
    destruct (Z.leb_spec 0 e); [lia |].
    rewrite Hread, !Z.eqb_refl; [reflexivity | apply Z.pow_pos_nonneg; lia |].
    unfold Double.is_ratio. destruct (Z.leb_spec 0 e); [lia |].
    change 10 with (2 * 5). rewrite Z.pow_mul_l. ring.
Qed.

(** Every double has its digits. *)
Lemma digits_total m e :
  is_double m e = true ->
  exists s E, digits m e = Some (s, E) /\ reads_as m e s E = true /\ 0 < s.
Proof.
  intros Hd. destruct (reads_as_exact m e Hd) as [Hr HD].
  unfold digits. destruct (exact_decimal (Z.abs m) e) as [D q].
  simpl in Hr, HD.
  destruct (shortest_total m e D q
              (Decimal.nb_digits (Pos.to_uint (Z.to_pos D))) Hr)
    as [[s E] Hs].
  exists s, E. split; [exact Hs |].
  eapply shortest_reads_as; [| exact Hs]. lia.
Qed.

(** ** The text of a double, read *)

Lemma to_uint_nzhead p : Decimal.nzhead (Pos.to_uint p) = Pos.to_uint p.
Proof.
  pose proof (to_uint_head p). now destruct (Pos.to_uint p).
Qed.

Lemma nzhead_leading_zero u : Decimal.nzhead u = u -> leading_zero u = false.
Proof.
  intros H. destruct u as [| u | | | | | | | | |]; try reflexivity.
  pose proof (DecimalFacts.nzhead_nonzero (Decimal.D0 u) u) as Hn.
  now rewrite H in Hn.
Qed.

Lemma of_uint_zeros n u : Z.of_uint (Nat.iter n Decimal.D0 u) = Z.of_uint u.
Proof. induction n as [| n IH]; [reflexivity | exact IH]. Qed.

Lemma fraction_point f rest :
  f <> Decimal.Nil -> not_digit rest ->
  fraction (String "." (NilEmpty.string_of_uint f +:+ rest)) = Return (f, rest).
Proof.
  intros Hf Hd. unfold fraction.
  rewrite take_digits_string_of_uint by assumption. now destruct f.
Qed.

Lemma exponent_exponent_text y rest :
  not_digit rest ->
  exponent (String "e" (exponent_text y +:+ rest)) = Return (y, rest).
Proof.
  intros Hd. unfold exponent, exponent_text.
  change (Ascii.eqb "e" "e" || Ascii.eqb "e" "E") with true. cbv iota.
  assert (Hnil : N.to_uint (Z.to_N (Z.abs y)) <> Decimal.Nil).
  { destruct (Z.to_N (Z.abs y)); [discriminate |].
    apply DecimalPos.Unsigned.to_uint_nonnil. }
  assert (Hof : Z.of_uint (N.to_uint (Z.to_N (Z.abs y))) = Z.abs y).
  { unfold Z.of_uint. change Pos.of_uint with N.of_uint.
    rewrite DecimalN.Unsigned.of_to. lia. }
  destruct (Z.ltb_spec y 0); rewrite append_cons; cbv iota beta;
    rewrite take_digits_string_of_uint by assumption;
    destruct (N.to_uint (Z.to_N (Z.abs y))); try contradiction;
    do 2 f_equal; lia.
Qed.

Lemma string_of_uint_head u :
  u <> Decimal.Nil ->
  exists c t, NilEmpty.string_of_uint u = String c t /\ number_start c = true.
Proof.
  destruct u; try contradiction; intros _; eexists _, _; now split.
Qed.

(** The same in the scientific notation. *)
Lemma parse_number_scientific (negative : bool) p E rest :
  delimited rest = true ->
  let u := Pos.to_uint p in
  let k := Z.of_nat (Decimal.nb_digits u) in
  parse_number
    ((if negative then "-" else "")
     +:+ (NilEmpty.string_of_uint
            (Decimal.del_tail (Decimal.nb_digits u - 1) u)
          +:+ (if k =? 1 then ""
               else String "." (NilEmpty.string_of_uint (Decimal.del_head 1 u)))
          +:+ String "e" (exponent_text (k + E - 1)))
     +:+ rest)
  = v ← number_of_decimal negative (Z.pos p) E; Return (v, rest).
Proof.
  intros Hd u k.
  pose proof (delimited_digit _ Hd) as Hnd.
  pose proof (to_uint_nzhead p) as Hnz.
  pose proof (DecimalPos.Unsigned.to_uint_nonnil p) as Hnil.
  pose proof (of_to_uint p) as Hof.
  fold u in Hnz, Hnil, Hof.
  assert (Hk : (0 < Decimal.nb_digits u)%nat)
    by (destruct u; try contradiction; simpl; lia).
  set (X := Decimal.del_tail (Decimal.nb_digits u - 1) u).
  set (f := Decimal.del_head 1 u).
  assert (HX : X <> Decimal.Nil) by (apply DecimalFacts.del_tail_nonnil; lia).
  assert (Hlz : leading_zero X = false).
  { apply nzhead_leading_zero, DecimalFacts.nzhead_del_tail_nzhead_eq;
      [exact Hnz | lia]. }
  assert (Heq : (1 = Decimal.nb_digits u - (Decimal.nb_digits u - 1))%nat)
    by lia.
  assert (Happ : Decimal.app X f = u).
  { unfold X, f. rewrite Heq at 2.
    apply DecimalFacts.app_del_tail_head. lia. }
  assert (Hnb : Decimal.nb_digits f = (Decimal.nb_digits u - 1)%nat).
  { unfold f. rewrite Heq at 1.
    apply DecimalFacts.nb_digits_del_head_sub. lia. }
  pose proof (exponent_exponent_text (k + E - 1) rest Hnd) as Hx.
  assert (Hres : number_of_decimal negative (Z.of_uint (Decimal.app X f))
                   (k + E - 1 - Z.of_nat (Decimal.nb_digits f))
                 = number_of_decimal negative (Z.pos p) E).
  { rewrite Happ, Hof, Hnb. f_equal. unfold k. lia. }
  destruct (Z.eqb_spec k 1) as [Hk1 | Hk1].
  - assert (Hf0 : f = Decimal.Nil).
    { unfold f. replace 1%nat with (Decimal.nb_digits u) by (unfold k in Hk1; lia).
      apply DecimalFacts.del_head_nb_digits. }
    rewrite append_nil_l, append_assoc, append_cons.
    refine (eq_trans (parse_number_parts negative X Decimal.Nil (k + E - 1)
                        (String "e" (exponent_text (k + E - 1) +:+ rest))
                        (String "e" (exponent_text (k + E - 1) +:+ rest))
                        rest HX Hlz eq_refl eq_refl Hx) _).
    rewrite <- Hf0. now rewrite Hres.
  - assert (Hfn : f <> Decimal.Nil)
      by (apply DecimalFacts.del_head_nonnil; unfold k in Hk1; lia).
    rewrite !append_assoc, !append_cons.
    refine (eq_trans (parse_number_parts negative X f (k + E - 1)
                        (String "."
                           (NilEmpty.string_of_uint f
                            +:+ String "e" (exponent_text (k + E - 1) +:+ rest)))
                        (String "e" (exponent_text (k + E - 1) +:+ rest))
                        rest HX Hlz eq_refl
                        (fraction_point f
                           (String "e" (exponent_text (k + E - 1) +:+ rest))
                           Hfn eq_refl) Hx) _).
    now rewrite Hres.
Qed.

(** The digits of an integer. *)
Lemma parse_number_integer (negative : bool) p E rest :
  delimited rest = true -> 0 <= E ->
  parse_number
    ((if negative then "-" else "")
     +:+ NilEmpty.string_of_uint (Pos.to_uint (Z.to_pos (Z.pos p * 10 ^ E)))
     +:+ rest)
  = v ← number_of_decimal negative (Z.pos p) E; Return (v, rest).
Proof.
  intros Hd HE.
  pose proof (delimited_digit _ Hd) as Hnd.
  pose proof (delimited_fraction _ Hd) as Hf.
  pose proof (delimited_exponent _ Hd) as Hx.
  assert (Hp : 0 < Z.pos p * 10 ^ E)
    by (pose proof (Z.pow_pos_nonneg 10 E); nia).
  destruct (Z.pos p * 10 ^ E) as [| p' | p'] eqn:Hp'; try lia.
  change (Z.to_pos (Z.pos p')) with p'.
  refine (eq_trans (parse_number_parts negative (Pos.to_uint p') _ _ _ _ _
                      (DecimalPos.Unsigned.to_uint_nonnil p')
                      (to_uint_leading_zero p') Hnd Hf Hx) _).
  rewrite DecimalFacts.app_nil_r, of_to_uint. simpl (0 - _).
  unfold number_of_decimal, decimal_ratio.
  change (0 <=? 0) with true. cbv iota.
  destruct (Z.leb_spec 0 E); [| lia].
  now rewrite <- Hp', Z.pow_0_r, Z.mul_1_r.
Qed.

(** A point within the digits. *)
Lemma parse_number_point (negative : bool) p E rest :
  delimited rest = true ->
  let u := Pos.to_uint p in
  let k := Z.of_nat (Decimal.nb_digits u) in
  E < 0 -> 0 < k + E ->
  parse_number
    ((if negative then "-" else "")
     +:+ (NilEmpty.string_of_uint (Decimal.del_tail (Z.to_nat (- E)) u)
          +:+ String "."
                (NilEmpty.string_of_uint
                   (Decimal.del_head (Z.to_nat (k + E)) u)))
     +:+ rest)
  = v ← number_of_decimal negative (Z.pos p) E; Return (v, rest).
Proof.
  intros Hd u k HE Hn.
  pose proof (delimited_digit _ Hd) as Hnd.
  pose proof (delimited_exponent _ Hd) as Hx.
  pose proof (to_uint_nzhead p) as Hnz.
  pose proof (of_to_uint p) as Hof.
  fold u in Hnz, Hof.
  set (X := Decimal.del_tail (Z.to_nat (- E)) u).
  set (f := Decimal.del_head (Z.to_nat (k + E)) u).
  assert (HX : X <> Decimal.Nil)
    by (apply DecimalFacts.del_tail_nonnil; unfold k in *; lia).
  assert (Hlz : leading_zero X = false).
  { apply nzhead_leading_zero, DecimalFacts.nzhead_del_tail_nzhead_eq;
      [exact Hnz | unfold k in *; lia]. }
  assert (Hfn : f <> Decimal.Nil)
    by (apply DecimalFacts.del_head_nonnil; unfold k in *; lia).
  assert (Heq : Z.to_nat (k + E)
                = (Decimal.nb_digits u - Z.to_nat (- E))%nat)
    by (unfold k; lia).
  assert (Happ : Decimal.app X f = u).
  { unfold X, f. rewrite Heq.
    apply DecimalFacts.app_del_tail_head. unfold k in *; lia. }
  assert (Hnb : Decimal.nb_digits f = Z.to_nat (- E)).
  { unfold f. rewrite Heq.
    apply DecimalFacts.nb_digits_del_head_sub. unfold k in *; lia. }
  rewrite append_assoc, append_cons.
  refine (eq_trans (parse_number_parts negative X f 0
                      (String "." (NilEmpty.string_of_uint f +:+ rest))
                      rest rest
                      HX Hlz eq_refl (fraction_point f rest Hfn Hnd) Hx) _).
  rewrite Happ, Hof, Hnb. f_equal. f_equal. lia.
Qed.

(** Zeros between the point and the digits. *)
Lemma parse_number_zeros (negative : bool) p E rest :
  delimited rest = true ->
  let u := Pos.to_uint p in
  let k := Z.of_nat (Decimal.nb_digits u) in
  k + E <= 0 ->
  parse_number
    ((if negative then "-" else "")
     +:+ String "0"
           (String "."
              (NilEmpty.string_of_uint
                 (Nat.iter (Z.to_nat (- (k + E))) Decimal.D0 u)))
     +:+ rest)
  = v ← number_of_decimal negative (Z.pos p) E; Return (v, rest).
Proof.
  intros Hd u k Hn.
  pose proof (delimited_digit _ Hd) as Hnd.
  pose proof (delimited_exponent _ Hd) as Hx.
  pose proof (DecimalPos.Unsigned.to_uint_nonnil p) as Hnil.
  pose proof (of_to_uint p) as Hof.
  fold u in Hnil, Hof.
  assert (Hk : (0 < Decimal.nb_digits u)%nat)
    by (destruct u; try contradiction; simpl; lia).
  set (f := Nat.iter (Z.to_nat (- (k + E))) Decimal.D0 u).
  assert (Hnb : Decimal.nb_digits f
                = (Z.to_nat (- (k + E)) + Decimal.nb_digits u)%nat)
    by apply DecimalFacts.nb_digits_iter_D0.
  assert (Hfn : f <> Decimal.Nil)
    by (intros Hf0; rewrite Hf0 in Hnb; simpl in Hnb; lia).
  rewrite !append_cons.
  refine (eq_trans (parse_number_parts negative (Decimal.D0 Decimal.Nil)
                      f 0 (String "." (NilEmpty.string_of_uint f +:+ rest))
                      rest rest ltac:(discriminate) eq_refl eq_refl
                      (fraction_point f rest Hfn Hnd) Hx) _).
  change (Decimal.app (Decimal.D0 Decimal.Nil) f) with (Decimal.D0 f).
  change (Z.of_uint (Decimal.D0 f)) with (Z.of_uint f).
  unfold f at 1. rewrite of_uint_zeros, Hof, Hnb.
  f_equal. f_equal. unfold k. lia.
Qed.

(** The text of a decimal is read as the decimal. *)
Lemma parse_number_decimal_text (negative : bool) s E rest :
  0 < s -> delimited rest = true ->
  parse_number ((if negative then "-" else "") +:+ decimal_text s E +:+ rest)
  = v ← number_of_decimal negative s E; Return (v, rest).
Proof.
  intros Hs Hd. destruct s as [| p | p]; try lia. clear Hs.
  unfold decimal_text. change (Z.to_pos (Z.pos p)) with p. cbv zeta.
  destruct (Z.leb_spec 0 E),
    (Z.leb_spec (Z.of_nat (Decimal.nb_digits (Pos.to_uint p)) + E) 21),
    (Z.ltb_spec 0 (Z.of_nat (Decimal.nb_digits (Pos.to_uint p)) + E)),
    (Z.ltb_spec (-6) (Z.of_nat (Decimal.nb_digits (Pos.to_uint p)) + E)),
    (Z.leb_spec (Z.of_nat (Decimal.nb_digits (Pos.to_uint p)) + E) 0);
    cbn [andb];
    first [ now apply parse_number_integer
          | now apply (parse_number_point negative p E rest)
          | now apply (parse_number_zeros negative p E rest)
          | now apply (parse_number_scientific negative p E rest) ].
Qed.

(** The text of a double is read as the double. *)
Lemma parse_number_double_text m e text rest :
  is_double m e = true -> double_text m e = Some text ->
  delimited rest = true ->
  parse_number (text +:+ rest) = Return (Double m e, rest).
Proof.
  intros Hj Ht Hd. unfold double_text in Ht.
  destruct (digits m e) as [[s E] |] eqn:Hs; [| discriminate].
  injection Ht as <-.
  unfold digits in Hs.
  destruct (reads_as_exact m e Hj) as [_ HD].
  destruct (exact_decimal (Z.abs m) e) as [D q]. simpl in HD.
  apply shortest_reads_as in Hs as [Hr Hpos]; [| lia].
  rewrite append_assoc, parse_number_decimal_text by assumption.
  now rewrite (reads_as_spec _ _ _ _ Hr).
Qed.

Lemma double_text_total m e :
  is_double m e = true -> exists text, double_text m e = Some text.
Proof.
  intros (s & E & Hs & _)%digits_total. unfold double_text.
  rewrite Hs. eauto.
Qed.

Lemma decimal_text_head s E :
  0 < s ->
  exists c t, decimal_text s E = String c t /\ number_start c = true.
Proof.
  intros Hs. destruct s as [| p | p]; try lia. clear Hs.
  unfold decimal_text. change (Z.to_pos (Z.pos p)) with p. cbv zeta.
  pose proof (DecimalPos.Unsigned.to_uint_nonnil p) as Hnil.
  pose proof (to_uint_head p) as Hh.
  set (u := Pos.to_uint p) in *.
  assert (Hk : (0 < Decimal.nb_digits u)%nat)
    by (destruct u; try contradiction; simpl; lia).
  set (k := Z.of_nat (Decimal.nb_digits u)).
  assert (Hstart : forall X tail, X <> Decimal.Nil ->
            exists c t, NilEmpty.string_of_uint X +:+ tail = String c t
                        /\ number_start c = true).
  { intros X tail (c & t & -> & Hc)%string_of_uint_head.
    exists c, (t +:+ tail). now split. }
  destruct (Z.leb_spec 0 E),
    (Z.leb_spec (k + E) 21), (Z.ltb_spec 0 (k + E)),
    (Z.ltb_spec (-6) (k + E)), (Z.leb_spec (k + E) 0); cbn [andb];
    try (eexists _, _; split; reflexivity);
    try (apply string_of_uint_head, DecimalPos.Unsigned.to_uint_nonnil);
    try (apply Hstart, DecimalFacts.del_tail_nonnil; unfold k in *; lia).
Qed.

Lemma double_text_head m e text :
  is_double m e = true -> double_text m e = Some text ->
  exists c t, text = String c t /\ number_start c = true.
Proof.
  intros Hj Ht. unfold double_text in Ht.
  destruct (digits m e) as [[s E] |] eqn:Hs; [| discriminate].
  injection Ht as <-.
  unfold digits in Hs.
  destruct (reads_as_exact m e Hj) as [_ HD].
  destruct (exact_decimal (Z.abs m) e) as [D q]. simpl in HD.
  apply shortest_reads_as in Hs as [_ Hpos]; [| lia].
  destruct (m <? 0); [eexists _, _; now split |].
  rewrite append_nil_l. now apply decimal_text_head.
Qed.

(** Texts of doubles, written and read: 23.5, 0.1, the least double and
    the greatest, 2^69 with its zeros, 2^70 and 10^21 with an exponent, and a text
    with more digits than a double holds. *)
Example double_texts :
  double_text 47 (-1) = Some "23.5" /\
  double_text (-47) (-1) = Some "-23.5" /\
  double_text 3602879701896397 (-55) = Some "0.1" /\
  double_text 1 (-1074) = Some "5e-324" /\
  double_text 9007199254740991 971 = Some "1.7976931348623157e+308" /\
  double_text 1 69 = Some "590295810358705700000" /\
  double_text 1 70 = Some "1.1805916207174113e+21" /\
  double_text 476837158203125 21 = Some "1e+21" /\
  double_text 1351079888211149 (-52) = Some "0.30000000000000004" /\
  double_text 8264216902885605 (-83) = Some "8.545e-10" /\
  double_text 2833419889721787 (-74) = Some "1.5e-7" /\
  double_text 8483885939586761 (-36) = Some "123456.789" /\
  parse_number "23.5" = Return (Double 47 (-1), "") /\
  parse_number "-0.1e1" = Return (Number (-1), "") /\
  parse_number "9007199254740993" = Return (Double 1 53, "") /\
  parse_number "1E+21," = Return (Double 476837158203125 21, ",") /\
  parse_number "1e400" = Unmodelled /\
  parse_number "01" = Throw SyntaxError /\
  parse_number "1." = Throw SyntaxError /\
  parse_number "1e" = Throw SyntaxError.
Proof. vm_compute. repeat split; reflexivity. Qed.

Lemma value_ind' (P : value -> Prop) :
  P Undefined -> P Null -> (forall b, P (Bool b)) -> (forall z, P (Number z)) ->
  (forall m e, P (Double m e)) ->
  (forall z, P (BigInt z)) -> (forall s, P (Str s)) ->
  (forall items, Forall P items -> P (Array items)) ->
  (forall props, Forall (fun p => P (snd p)) props -> P (Object props)) ->
  (forall up, P (Cycle up)) ->
  forall v, P v.
Proof.
  intros HU HN HB HZ HD HBig HS HA HO HC. fix IH 1.
  intros [| | b | z | m e | z | s | items | props | up].
  - exact HU.
  - exact HN.
  - apply HB.
  - apply HZ.
  - apply HD.
  - apply HBig.
  - apply HS.
  - apply HA. induction items as [| x items IHitems]; constructor;
      [apply IH | exact IHitems].
  - apply HO. induction props as [| [k x] props IHprops]; constructor;
      [apply IH | exact IHprops].
  - apply HC.
Qed.

Lemma serialize_elements_text items : forall first,
  Forall (fun x => is_json x = true -> serialize x = Return (Some (text_of x)))
    items ->
  forallb is_json items = true ->
  serialize_elements serialize items first =
    Return (join_elements text_of items first).
Proof.
  induction items as [| x items IH]; intros first HF Hj; [reflexivity |].
  apply Forall_cons in HF as [Hx HF]. simpl in Hj.
  apply andb_true_iff in Hj as [Hjx Hj].
  simpl. rewrite (Hx Hjx). simpl. rewrite (IH false HF Hj). reflexivity.
Qed.

Lemma serialize_members_text props : forall first,
  Forall (fun p => is_json (snd p) = true ->
                   serialize (snd p) = Return (Some (text_of (snd p)))) props ->
  forallb (fun p => is_json (snd p)) props = true ->
  serialize_members serialize props first =
    Return (join_members text_of props first).
Proof.
  induction props as [| [k x] props IH]; intros first HF Hj; [reflexivity |].
  apply Forall_cons in HF as [Hx HF]. simpl in Hj, Hx.
  apply andb_true_iff in Hj as [Hjx Hj].
  simpl. rewrite (Hx Hjx). simpl. rewrite (IH false HF Hj). reflexivity.
Qed.

(** [JSON.stringify] gives a value of [is_json] its text. *)
Lemma stringify_text_of v :
  is_json v = true -> stringify v = Return (Some (text_of v)).
Proof.
  unfold stringify.
  induction v as [| | b | z | m e | z | s | items IH | props IH | up]
    using value_ind'; simpl; try discriminate; try reflexivity.
  - now destruct b.
  - now intros ->.
  - intros Hj. rewrite Hj.
    now destruct (double_text_total m e Hj) as [text ->].
  - intros Hj. now rewrite serialize_elements_text.
  - intros [Hk Hj]%andb_true_iff. now rewrite serialize_members_text.
Qed.

(** ** Keys in order *)

Lemma keys_ordered_app a b :
  keys_ordered (a ++ b) =
    keys_ordered a && keys_ordered b
    && forallb (fun x => forallb (JSObject.key_before x) b) a.
Proof.
  induction a as [| x a IH]; simpl.
  - now rewrite andb_true_r.
  - rewrite IH, forallb_app.
    destruct (forallb (JSObject.key_before x) a),
      (forallb (JSObject.key_before x) b),
      (keys_ordered a), (keys_ordered b); reflexivity.
Qed.

Lemma keys_ordered_last (acc l : list (string * value)) k x :
  keys_ordered (map fst (acc ++ (k, x) :: l)) = true ->
  forallb (fun p => JSObject.key_before (fst p) k) acc = true.
Proof.
  rewrite map_app, keys_ordered_app. simpl.
  intros [_ H]%andb_true_iff. clear -H.
  induction acc as [| [k' x'] acc IH]; [reflexivity |]. simpl in *.
  apply andb_true_iff in H as [[H1 _]%andb_true_iff H2].
  rewrite H1. now apply IH.
Qed.

(** ** Reading back what was written *)

Lemma Number_toString_head z :
  exists c t, Number_toString z = String c t /\ number_start c = true.
Proof.
  destruct z as [| p | p].
  - now exists "0"%char, "".
  - rewrite Number_toString_pos.
    pose proof (DecimalPos.Unsigned.to_uint_nonnil p).
    destruct (Pos.to_uint p); try contradiction; eexists _, _; now split.
  - rewrite Number_toString_neg. eexists _, _. now split.
Qed.

Lemma parse_value_number fuel c t :
  number_start c = true ->
  parse_value (S fuel) (String c t) = parse_number (String c t).
Proof.
  destruct c as [[] [] [] [] [] [] [] []]; try discriminate; reflexivity.
Qed.

Lemma parse_value_array fuel c t :
  value_start c = true ->
  parse_value (S fuel) (String "[" (String c t)) =
    parse_elements fuel (parse_value fuel) (String c t) [].
Proof.
  destruct c as [[] [] [] [] [] [] [] []]; try discriminate; reflexivity.
Qed.

Lemma text_of_head v :
  is_json v = true ->
  exists c t, text_of v = String c t /\ value_start c = true.
Proof.
  assert (Hstart : forall c, number_start c = true -> value_start c = true)
    by (intros [[] [] [] [] [] [] [] []]; try discriminate; reflexivity).
  destruct v as [| | [] | z | m e | z | s | items | props | up];
    try discriminate; intros Hj; try (eexists _, _; now split).
  - destruct (Number_toString_head z) as (c & t & Heq & Hc).
    exists c, t. split; [exact Heq | now apply Hstart].
  - simpl in Hj |- *. destruct (double_text_total m e Hj) as [text Ht].
    destruct (double_text_head m e text Hj Ht) as (c & t & -> & Hc).
    rewrite Ht. exists c, t. split; [reflexivity | now apply Hstart].
Qed.

Lemma parse_elements_join l : forall x acc n fuel rest,
  Forall reads_back (x :: l) ->
  forallb is_json (x :: l) = true ->
  (length (x :: l) <= n)%nat ->
  Forall (fun y => need y <= fuel)%nat (x :: l) ->
  parse_elements n (parse_value fuel)
    (text_of x +:+ join_elements text_of l false +:+ "]" +:+ rest) acc
  = Return (Array (acc ++ x :: l), rest).
Proof.
  induction l as [| y l IH]; intros x acc n fuel rest HF Hj Hn Hfuel;
    apply Forall_cons in HF as [Hx HF]; apply Forall_cons in Hfuel as [Hfx Hfuel];
    simpl in Hj; apply andb_true_iff in Hj as [Hjx Hj];
    (destruct n as [| n]; [simpl in Hn; lia |]); simpl parse_elements.
  - rewrite (Hx Hjx fuel _ Hfx) by reflexivity. reflexivity.
  - simpl join_elements. rewrite (Hx Hjx fuel _ Hfx) by reflexivity.
    simpl. rewrite append_assoc.
    replace (acc ++ x :: y :: l) with ((acc ++ [x]) ++ y :: l)
      by now rewrite <- app_assoc.
    apply IH; try assumption. simpl in Hn |- *. lia.
Qed.

Lemma parse_members_join l : forall k x acc n fuel rest,
  Forall (fun p => reads_back (snd p)) ((k, x) :: l) ->
  forallb (fun p => is_json (snd p)) ((k, x) :: l) = true ->
  keys_ordered (map fst (acc ++ (k, x) :: l)) = true ->
  (length ((k, x) :: l) <= n)%nat ->
  Forall (fun p => need (snd p) <= fuel)%nat ((k, x) :: l) ->
  parse_members n (parse_value fuel)
    (String "034"
       (quote_chars k +:+
        String "034"
          (String ":"
             (text_of x +:+ join_members text_of l false +:+ String "}" rest))))
    acc
  = Return (Object (acc ++ (k, x) :: l), rest).
Proof.
  induction l as [| [k' y] l IH]; intros k x acc n fuel rest HF Hj Hk Hn Hfuel;
    apply Forall_cons in HF as [Hx HF]; apply Forall_cons in Hfuel as [Hfx Hfuel];
    simpl in Hj, Hx, Hfx; apply andb_true_iff in Hj as [Hjx Hj];
    (destruct n as [| n]; [simpl in Hn; lia |]);
    pose proof (JSObject.define_property_last acc k x
                  (keys_ordered_last _ _ _ _ Hk)) as Hdef;
    simpl parse_members; rewrite parse_chars_quote_chars; simpl.
  - rewrite (Hx Hjx fuel _ Hfx) by reflexivity. simpl. now rewrite Hdef.
  - unfold quote. rewrite !append_assoc. simpl.
    rewrite (Hx Hjx fuel _ Hfx) by reflexivity. simpl. rewrite Hdef.
    replace (acc ++ (k, x) :: (k', y) :: l)
      with ((acc ++ [(k, x)]) ++ (k', y) :: l) in * by now rewrite <- app_assoc.
    rewrite ?append_assoc. apply IH; try assumption. simpl in Hn |- *. lia.
Qed.

Lemma list_max_Forall (f : nat) (l : list nat) :
  (list_max l <= f)%nat -> Forall (fun n => n <= f)%nat l.
Proof. intros H. now apply list_max_le. Qed.

Lemma text_of_array_cons x l rest :
  text_of (Array (x :: l)) +:+ rest =
    String "["
      (text_of x +:+ join_elements text_of l false +:+ String "]" rest).
Proof. simpl. now rewrite !append_assoc. Qed.

Lemma text_of_object_cons k x l rest :
  text_of (Object ((k, x) :: l)) +:+ rest =
    String "{"
      (String "034"
         (quote_chars k +:+
          String "034"
            (String ":"
               (text_of x +:+ join_members text_of l false
                +:+ String "}" rest)))).
Proof.
  simpl text_of. unfold quote, comma, dquote. right_nested. reflexivity.
Qed.

Lemma parse_value_object fuel t :
  parse_value (S fuel) (String "{" (String "034" t)) =
    parse_members fuel (parse_value fuel) (String "034" t) [].
Proof. reflexivity. Qed.

(** [parse_value] reads the text of a value of [is_json] back, given
    rounds enough. *)
Lemma parse_value_text_of v : reads_back v.
Proof.
  induction v as [| | b | z | m e | z | s | items IH | props IH | up]
    using value_ind'; intros Hj fuel rest Hfuel Hd; try discriminate;
    (destruct fuel as [| fuel]; [simpl in Hfuel; lia |]).
  - reflexivity.
  - now destruct b.
  - simpl text_of. simpl in Hj.
    destruct (Number_toString_head z) as (c & t & Heq & Hc).
    rewrite Heq, append_cons, parse_value_number by assumption.
    rewrite <- append_cons, <- Heq, parse_number_toString by assumption.
    reflexivity.
  - simpl in Hj. simpl text_of.
    destruct (double_text_total m e Hj) as [text Ht]. rewrite Ht.
    destruct (double_text_head m e text Hj Ht) as (c & t & Heq & Hc).
    simpl default. rewrite Heq, append_cons, parse_value_number by assumption.
    rewrite <- append_cons, <- Heq.
    now apply parse_number_double_text.
  - simpl text_of. unfold quote. rewrite !append_assoc. simpl.
    now rewrite parse_chars_quote_chars.
  - destruct items as [| x l]; [reflexivity |].
    simpl in Hj, Hfuel. pose proof Hj as Hj'.
    apply andb_true_iff in Hj' as [Hjx _].
    rewrite text_of_array_cons.
    destruct (text_of_head x Hjx) as (c & t & Heq & Hc).
    rewrite Heq, append_cons, parse_value_array by assumption.
    rewrite <- append_cons, <- Heq.
    apply (parse_elements_join l x []); try assumption.
    + simpl. lia.
    + apply Forall_cons. split; [lia |].
      assert (Hm : (list_max (map need l) <= fuel)%nat) by lia.
      apply list_max_Forall in Hm. now apply Forall_map in Hm.
  - destruct props as [| [k x] l]; [reflexivity |].
    simpl in Hj, Hfuel. apply andb_true_iff in Hj as [Hk Hj].
    rewrite text_of_object_cons, parse_value_object.
    apply (parse_members_join l k x []); try assumption.
    + simpl. lia.
    + apply Forall_cons. simpl. split; [lia |].
      assert (Hm : (list_max (map (fun p => need (snd p)) l) <= fuel)%nat) by lia.
      apply list_max_Forall in Hm. now apply Forall_map in Hm.
Qed.

Lemma need_positive v : (1 <= need v)%nat.
Proof. destruct v; simpl; lia. Qed.

Lemma length_join_elements l : forall first,
  Forall (fun x => need x <= String.length (text_of x))%nat l ->
  (length l <= String.length (join_elements text_of l first))%nat /\
  (list_max (map need l) <= String.length (join_elements text_of l first))%nat.
Proof.
  induction l as [| x l IH]; intros first HF; [simpl; lia |].
  apply Forall_cons in HF as [Hx HF]. destruct (IH false HF) as [H1 H2].
  pose proof (need_positive x).
  simpl join_elements. simpl map. simpl list_max. simpl length.
  rewrite !length_append. lia.
Qed.

Lemma length_join_members l : forall first,
  Forall (fun p => need (snd p) <= String.length (text_of (snd p)))%nat l ->
  (length l <= String.length (join_members text_of l first))%nat /\
  (list_max (map (fun p => need (snd p)) l)
   <= String.length (join_members text_of l first))%nat.
Proof.
  induction l as [| [k x] l IH]; intros first HF; [simpl; lia |].
  apply Forall_cons in HF as [Hx HF]. destruct (IH false HF) as [H1 H2].
  pose proof (need_positive x). simpl in Hx.
  simpl join_members. simpl map. simpl list_max. simpl length.
  repeat (rewrite ?length_append; simpl String.length). lia.
Qed.

(** The text of a value is at least as long as the rounds it needs. *)
Lemma need_le_length v :
  is_json v = true -> (need v <= String.length (text_of v))%nat.
Proof.
  induction v as [| | b | z | m e | z | s | items IH | props IH | up]
    using value_ind'; intros Hj; try discriminate.
  - simpl. lia.
  - destruct b; simpl; lia.
  - simpl. destruct (Number_toString_head z) as (c & t & -> & _). simpl. lia.
  - simpl in Hj |- *. destruct (double_text_total m e Hj) as [text Ht].
    destruct (double_text_head m e text Hj Ht) as (c & t & -> & _).
    rewrite Ht. simpl. lia.
  - simpl. lia.
  - simpl in Hj. simpl text_of. simpl need.
    repeat (rewrite ?length_append; simpl String.length).
    assert (HF : Forall (fun x => need x <= String.length (text_of x))%nat items).
    { clear -IH Hj. induction items as [| x l IHl]; constructor;
        apply Forall_cons in IH as [Hx IH]; simpl in Hj;
        apply andb_true_iff in Hj as [Hjx Hj]; auto. }
    destruct (length_join_elements items true HF). lia.
  - simpl in Hj. apply andb_true_iff in Hj as [_ Hj].
    simpl text_of. simpl need.
    repeat (rewrite ?length_append; simpl String.length).
    assert (HF : Forall (fun p => need (snd p)
                                  <= String.length (text_of (snd p)))%nat props).
    { clear -IH Hj. induction props as [| [k x] l IHl]; constructor;
        apply Forall_cons in IH as [Hx IH]; simpl in Hj;
        apply andb_true_iff in Hj as [Hjx Hj]; auto. }
    destruct (length_join_members props true HF). lia.
Qed.

Lemma append_nil_r (s : string) : s +:+ "" = s.
Proof. induction s as [| c s IH]; simpl; [reflexivity | now rewrite IH]. Qed.

(** [JSON.parse] reads the text of a value of [is_json] back. *)
Theorem parse_text_of v : is_json v = true -> parse (text_of v) = Return v.
Proof.
  intros Hj. unfold parse.
  pose proof (parse_value_text_of v Hj (S (String.length (text_of v))) "") as H.
  rewrite append_nil_r in H. rewrite H; [reflexivity | | reflexivity].
  pose proof (need_le_length v Hj). lia.
Qed.

(** The text of a value is never empty. *)
Lemma text_of_nonempty v : is_json v = true -> text_of v <> "".
Proof.
  intros Hj. destruct (text_of_head v Hj) as (c & t & -> & _). discriminate.
Qed.

End JSON.

(** * localStorage *)

Module localStorage.

(** The storage area of the page: its items, the room it has, and whether
    the page may use it at all. *)
Record storage :=
  { items : gmap string string;
    quota : N;
    available : bool }.

(** The length of a string in UTF-16 code units, from its UTF-8 bytes:
    one for a character, two for a character beyond the basic plane.  A
    byte from 128 to 191 goes on with a character, a byte from 240 on
    begins one of four bytes. *)
Fixpoint utf16_length (s : string) : nat :=
  match s with
  | EmptyString => 0
  | String c s' =>
      let n := N_of_ascii c in
      ((if ((128 <=? n) && (n <? 192))%N then 0
        else if (240 <=? n)%N then 2 else 1)
       + utf16_length s')%nat
  end.

(** The room the items take: the code units of their keys and values. *)
Definition used (m : gmap string string) : N :=
  map_fold
    (fun k v n => (N.of_nat (utf16_length k + utf16_length v) + n)%N) 0%N m.

(** Reading [window.localStorage]: it throws when the page may not use
    the storage area. *)
Definition window_localStorage (st : storage) : outcome storage :=
  if available st then Return st else Throw SecurityError.

(** [localStorage.setItem(key, value)], the value being at hand. *)
Definition setItem (key value : string) (st : storage) : outcome storage :=
  if negb (available st) then Throw SecurityError
  else
    let items' := <[key := value]> (items st) in
    if (quota st <? used items')%N then Throw QuotaExceededError
    else Return {| items := items'; quota := quota st;
                   available := available st |}.

(** [localStorage.getItem(key)]; [None] is [null]. *)
Definition getItem (key : string) (st : storage) : outcome (option string) :=
  if negb (available st) then Throw SecurityError
  else Return (items st !! key).

Lemma getItem_setItem key value st st' :
  setItem key value st = Return st' -> getItem key st' = Return (Some value).
Proof.
  unfold setItem, getItem. destruct (available st) eqn:Ha; [| discriminate].
  simpl. destruct (quota st <? used _)%N; [discriminate |].
  intros [= <-]. simpl. now rewrite lookup_insert_eq.
Qed.

End localStorage.

(** * StorageManager *)

Module StorageManager.

(** The storage area and the console. *)
Record world :=
  { storage : localStorage.storage;
    console : list (list string) }.

Definition error_name (e : error) : string :=
  match e with
  | TypeError => "TypeError"
  | SyntaxError => "SyntaxError"
  | QuotaExceededError => "QuotaExceededError"
  | SecurityError => "SecurityError"
  end.

(** [console.error(label, error)]. *)
Definition console_error (label : string) (e : error) (w : world) : world :=
  {| storage := storage w; console := console w ++ [[label; error_name e]] |}.

(** The string [setItem] makes of its second argument: the text, or the
    name of [undefined]. *)
Definition ToString (text : option string) : string :=
  default "undefined" text.

(** [StorageManager.set(key, value)]: [localStorage] is read before the
    argument [JSON.stringify(value)] is computed. *)
Definition set (key : string) (value : JSON.value) (w : world)
    : outcome (bool * world) :=
  match
    st ← localStorage.window_localStorage (storage w);
    text ← JSON.stringify value;
    localStorage.setItem key (ToString text) st
  with
  | Return st => Return (true, {| storage := st; console := console w |})
  | Throw e => Return (false, console_error "存储失败:" e w)
  | Unmodelled => Unmodelled
  end.

(** A string is true when it is not empty. *)
Definition truthy (item : string) : bool := negb (String.eqb item "").

(** [StorageManager.get(key, defaultValue = null)]; a default left out is
    [None].  Reading [localStorage] is part of [getItem] here, for nothing
    is computed between the two. *)
Definition get (key : string) (defaultValue : option JSON.value) (w : world)
    : outcome (JSON.value * world) :=
  let defaultValue := default JSON.Null defaultValue in
  match
    item ← localStorage.getItem key (storage w);
    match item with
    | Some text => if truthy text then JSON.parse text else Return defaultValue
    | None => Return defaultValue
    end
  with
  | Return v => Return (v, w)
  | Throw e => Return (defaultValue, console_error "读取失败:" e w)
  | Unmodelled => Unmodelled
  end.

(** The value [get] returns. *)
Definition got (key : string) (defaultValue : option JSON.value) (w : world)
    : outcome JSON.value :=
  match get key defaultValue w with
  | Return (v, _) => Return v
  | Throw e => Throw e
  | Unmodelled => Unmodelled
  end.

(** A storage area with room, holding one item. *)
Definition example_world : world :=
  {| storage :=
       {| localStorage.items := {["theme" := "1"]};
          localStorage.quota := 5000000;
          localStorage.available := true |};
     console := [] |}.

(** An object that holds itself: [a = {}; a.self = a]. *)
Definition self_reference : JSON.value :=
  JSON.Object [("self", JSON.Cycle 0)].

Definition example_value : JSON.value :=
  JSON.Object
    [("zoom", JSON.Array [JSON.Number 0; JSON.Double 47 (-1)]);
     ("step", JSON.Double 3602879701896397 (-55));
     ("label", JSON.Str "a b");
     ("live", JSON.Bool true);
     ("last", JSON.Null)].

(** What [get] returns depends on the storage area only. *)
Lemma got_storage key d w w' : storage w = storage w' -> got key d w = got key d w'.
Proof.
  unfold got, get. intros ->.
  destruct (localStorage.getItem key (storage w')) as [[text |] | e |];
    simpl; try reflexivity.
  destruct (truthy text); [| reflexivity].
  destruct (JSON.parse text); reflexivity.
Qed.

(** C3: after [set(key, value)] has returned true for a JSON value
    ([null], a boolean, a finite number, with a fraction or without, a
    string, or an array or object of such values), [get] on the same key
    returns that value, whatever default it is given. *)
Theorem get_after_set (key : string) (value : JSON.value)
    (d : option JSON.value) (w w' : world) :
  JSON.is_json value = true ->
  set key value w = Return (true, w') ->
  get key d w' = Return (value, w').
Proof.
  intros Hj. unfold set, localStorage.window_localStorage.
  destruct (localStorage.available (storage w)); [| discriminate].
  simpl. rewrite (JSON.stringify_text_of value Hj). simpl.
  destruct (localStorage.setItem key (JSON.text_of value) (storage w))
    as [st | e |] eqn:Hset; try discriminate.
  intros [= <-]. unfold get. simpl.
  rewrite (localStorage.getItem_setItem _ _ _ _ Hset). simpl.
  unfold truthy.
  destruct (String.eqb_spec (JSON.text_of value) "") as [He | _].
  - now apply JSON.text_of_nonempty in He.
  - simpl. now rewrite JSON.parse_text_of.
Qed.

(** C4: when serializing the value throws, [set] returns false and throws
    nothing; the storage area is as before, so [get] returns what it
    returned before.  One failure is logged: the one of the serializer,
    or, when the page may not use the storage area, the one of reading
    [localStorage], which comes first. *)
Theorem set_unserializable (key : string) (value : JSON.value) (e : error)
    (w : world) :
  JSON.stringify value = Throw e ->
  exists w',
    set key value w = Return (false, w') /\
    storage w' = storage w /\
    console w' =
      console w ++
      [["存储失败:";
        error_name (if localStorage.available (storage w) then e
                    else SecurityError)]] /\
    forall key' d, got key' d w' = got key' d w.
Proof.
  intros Hs.
  exists (console_error "存储失败:"
            (if localStorage.available (storage w) then e else SecurityError)
            w).
  unfold set, localStorage.window_localStorage.
  destruct (localStorage.available (storage w)); simpl; rewrite ?Hs; simpl;
    repeat split; intros key' d; now apply got_storage.
Qed.


(** [example_world] after the item [key := text] is written. *)
Definition example_world_with (key text : string) : world :=
  {| storage :=
       {| localStorage.items := <[key := text]> {["theme" := "1"]};
          localStorage.quota := 5000000;
          localStorage.available := true |};
     console := [] |}.

Lemma get_after_set_witness :
  let w' := example_world_with "lastChartZoom:c1" (JSON.text_of example_value) in
  JSON.is_json example_value = true /\
  set "lastChartZoom:c1" example_value example_world = Return (true, w') /\
  get "lastChartZoom:c1" (Some (JSON.Number 7)) w' = Return (example_value, w').
Proof.
  intros w'.
  assert (Hj : JSON.is_json example_value = true) by (vm_compute; reflexivity).
  assert (Hset : set "lastChartZoom:c1" example_value example_world
                 = Return (true, w')) by (vm_compute; reflexivity).
  split; [exact Hj |]. split; [exact Hset |].
  exact (get_after_set _ _ _ _ _ Hj Hset).
Defined.

Lemma set_unserializable_witness :
  JSON.stringify self_reference = Throw TypeError /\
  exists w',
    set "theme" self_reference example_world = Return (false, w') /\
    got "theme" None w' = got "theme" None example_world.
Proof.
  assert (Hs : JSON.stringify self_reference = Throw TypeError) by reflexivity.
  split; [exact Hs |].
  destruct (set_unserializable "theme" self_reference TypeError example_world Hs)
    as (w' & Hset & _ & _ & Hgot).
  exists w'. split; [exact Hset | apply Hgot].
Defined.


(** The three cases, run. *)
Example storage_examples :
  (r ← set "zoom" example_value example_world; got "zoom" None r.2)
  = Return example_value /\
  (r ← set "theme" self_reference example_world;
   Return (r.1, got "theme" None r.2))
  = Return (false, Return (JSON.Number 1)) /\
  (r ← set "theme" JSON.Undefined example_world;
   Return (r.1, got "theme" (Some (JSON.Str "dark")) r.2))
  = Return (true, Return (JSON.Str "dark")).
Proof. vm_compute. repeat split. Qed.

(** ** Reads that fall back, writes that are refused *)



(** X7: a [set] that returns false has changed nothing in the storage
    area and has logged exactly one failure; a [set] that returns true has
    logged nothing and has written the one key: every other key reads as
    before. *)
Theorem set_result (key : string) (value : JSON.value) (w w' : world)
    (ok : bool) :
  set key value w = Return (ok, w') ->
  (ok = false ->
   storage w' = storage w /\
   exists e, console w' = console w ++ [["存储失败:"; error_name e]]) /\
  (ok = true ->
   console w' = console w /\
   forall key' d, key' <> key -> got key' d w' = got key' d w).
Proof.
  unfold set, localStorage.window_localStorage.
  destruct (localStorage.available (storage w)) eqn:Ha; simpl.
  - destruct (JSON.stringify value) as [text | e |]; simpl; try discriminate.
    + unfold localStorage.setItem. rewrite Ha. simpl.
      destruct (_ <? _)%N; intros [= <- <-]; split; try discriminate; intros _.
      * split; [reflexivity | eexists; reflexivity].
      * split; [reflexivity |]. intros key' d Hne.
        unfold got, get, localStorage.getItem. simpl. rewrite Ha. simpl.
        rewrite lookup_insert_ne by congruence.
        destruct (localStorage.items (storage w) !! key') as [t |];
          [| reflexivity].
        simpl. destruct (truthy t); [| reflexivity].
        now destruct (JSON.parse t).
    + intros [= <- <-]. split; try discriminate. intros _.
      split; [reflexivity | eexists; reflexivity].
  - intros [= <- <-]. split; try discriminate. intros _.
    split; [reflexivity | eexists; reflexivity].
Qed.

Lemma set_result_witness :
  set "zoom" example_value example_world
  = Return (true, example_world_with "zoom" (JSON.text_of example_value)) /\
  got "theme" None (example_world_with "zoom" (JSON.text_of example_value))
  = got "theme" None example_world.
Proof.
  assert (Hset : set "zoom" example_value example_world
                 = Return (true, example_world_with "zoom"
                                   (JSON.text_of example_value)))
    by (vm_compute; reflexivity).
  split; [exact Hset |].
  destruct (set_result _ _ _ _ _ Hset) as [_ Hok].
  destruct (Hok eq_refl) as [_ Hframe]. apply Hframe. discriminate.
Defined.

(** X8: when the value has a text but the storage area refuses the write,
    because the page may not use it or because the item does not fit in
    the room left, [set] returns false, keeps what was stored, and every
    key reads as before. *)
Theorem set_refused (key : string) (value : JSON.value) (text : option string)
    (w : world) :
  JSON.stringify value = Return text ->
  localStorage.available (storage w) = false \/
  (localStorage.quota (storage w)
   < localStorage.used
       (<[key := ToString text]> (localStorage.items (storage w))))%N ->
  exists w',
    set key value w = Return (false, w') /\
    storage w' = storage w /\
    forall key' d, got key' d w' = got key' d w.
Proof.
  intros Hs Hrefused. unfold set, localStorage.window_localStorage.
  destruct (localStorage.available (storage w)) eqn:Ha; simpl.
  - rewrite Hs. simpl. unfold localStorage.setItem. rewrite Ha. simpl.
    destruct Hrefused as [? | Hq]; [discriminate |].
    apply N.ltb_lt in Hq. rewrite Hq.
    eexists. split; [reflexivity |]. split; [reflexivity |].
    intros key' d. now apply got_storage.
  - eexists. split; [reflexivity |]. split; [reflexivity |].
    intros key' d. now apply got_storage.
Qed.

(** A storage area with room for ten characters, holding one item. *)
Definition small_world : world :=
  {| storage :=
       {| localStorage.items := {["theme" := "1"]};
          localStorage.quota := 10;
          localStorage.available := true |};
     console := [] |}.

Lemma set_refused_witness :
  exists w',
    set "theme" example_value small_world = Return (false, w') /\
    got "theme" None w' = Return (JSON.Number 1).
Proof.
  assert (Hs : JSON.stringify example_value
               = Return (Some (JSON.text_of example_value)))
    by (vm_compute; reflexivity).
  destruct (set_refused "theme" example_value _ small_world Hs)
    as (w' & Hset & _ & Hgot).
  { right. vm_compute. reflexivity. }
  exists w'. split; [exact Hset |]. rewrite Hgot. vm_compute. reflexivity.
Defined.

End StorageManager.

(** * ChartManager *)

Module ChartManager.

(** The fixed parts of a chart option object. *)
Record textStyle := { color : string }.
Record lineStyle := { line_color : string; opacity : option Q }.
Record axisLine := { lineStyle_of : lineStyle }.
Record titleOption :=
  { text : string; left : string; title_textStyle : textStyle }.
Record tooltipOption :=
  { trigger : string; backgroundColor : string; borderColor : string;
    tooltip_textStyle : textStyle }.
Record axisOption :=
  { axis_type : string; axis_axisLine : axisLine; axisLabel : textStyle;
    splitLine : option axisLine }.

Section ChartManager.
(** Timestamps and readings: the code copies them and never looks inside. *)
Context {T V : Type}.

(** One item of a history: [{timestamp, value}]. *)
Record sample := { timestamp : T; value : V }.

(** One value of the sensor map: [{name, history}]; [history] may be
    missing. *)
Record sensor := { name : string; history : option (list sample) }.

(** One element of [option.series]. *)
Record lineSeries :=
  { series_name : string; series_type : string;
    series_data : list (T * V); smooth : bool }.

(** A chart option object; [{}] has no part at all. *)
Record chartOption :=
  { title : option titleOption; tooltip : option tooltipOption;
    xAxis : option axisOption; yAxis : option axisOption;
    series : list lineSeries }.

Definition empty_option : chartOption :=
  {| title := None; tooltip := None; xAxis := None; yAxis := None;
     series := [] |}.

(** The page and the manager.  A chart instance is a number handed out by
    the chart engine.  An element is named by its id: the page has one
    element of an id at most, and an element that leaves the page and is
    put back is the same element, with the chart instance it carries. *)
Record world :=
  { document : list string;          (* ids of the elements of the page *)
    instances : list (string * nat); (* engine: the instance on each element *)
    applied : list (nat * chartOption); (* engine: setOption calls, oldest first *)
    charts : list (string * nat);    (* this.charts *)
    resize_listeners : list nat;     (* window 'resize' listeners, by the
                                        chart each closure holds *)
    resized : list nat;              (* chart.resize() calls, oldest first *)
    console : list (list string) }.  (* console.error calls *)

(** [new ChartManager()] on a page with the elements [doc]. *)
Definition constructor (doc : list string) : world :=
  {| document := doc; instances := []; applied := []; charts := [];
     resize_listeners := []; resized := []; console := [] |}.

(** [echarts.init(dom)]: the instance the element already carries, or a
    new one. *)
Definition echarts_init (dom : string) (w : world) : nat * world :=
  match JSMap.get dom (instances w) with
  | Some chart => (chart, w)
  | None =>
      let chart := length (instances w) in
      (chart,
       {| document := document w;
          instances := instances w ++ [(dom, chart)];
          applied := applied w; charts := charts w;
          resize_listeners := resize_listeners w; resized := resized w;
          console := console w |})
  end.

(** [chart.setOption(options)]. *)
Definition setOption (chart : nat) (options : chartOption) (w : world) : world :=
  {| document := document w; instances := instances w;
     applied := applied w ++ [(chart, options)]; charts := charts w;
     resize_listeners := resize_listeners w; resized := resized w;
     console := console w |}.

(** [this.charts.set(chartId, chart)]. *)
Definition charts_set (chartId : string) (chart : nat) (w : world) : world :=
  {| document := document w; instances := instances w;
     applied := applied w; charts := JSMap.set chartId chart (charts w);
     resize_listeners := resize_listeners w; resized := resized w;
     console := console w |}.

(** [window.addEventListener('resize', () => { chart.resize(); })]. *)
Definition addEventListener_resize (chart : nat) (w : world) : world :=
  {| document := document w; instances := instances w;
     applied := applied w; charts := charts w;
     resize_listeners := resize_listeners w ++ [chart];
     resized := resized w; console := console w |}.

Definition console_error (args : list string) (w : world) : world :=
  {| document := document w; instances := instances w;
     applied := applied w; charts := charts w;
     resize_listeners := resize_listeners w; resized := resized w;
     console := console w ++ [args] |}.

(** [initChart(chartId, options = {})]: [options] is [None] when the caller
    leaves it out; the result is [None] for [null]. *)
Definition initChart (chartId : string) (options : option chartOption)
    (w : world) : option nat * world :=
  let options := default empty_option options in
  if bool_decide (chartId ∈ document w) then
    let '(chart, w) := echarts_init chartId w in
    let w := setOption chart options w in
    let w := charts_set chartId chart w in
    let w := addEventListener_resize chart w in
    (Some chart, w)
  else (None, console_error ["图表容器不存在:"; chartId] w).

(** The option object [createSensorTrendChart] starts from. *)
Definition trend_option : chartOption :=
  {| title := Some
       {| text := "传感器数据趋势"; left := "center";
          title_textStyle := {| color := "var(--text-primary)" |} |};
     tooltip := Some
       {| trigger := "axis"; backgroundColor := "var(--bg-primary)";
          borderColor := "var(--border-light)";
          tooltip_textStyle := {| color := "var(--text-primary)" |} |};
     xAxis := Some
       {| axis_type := "time";
          axis_axisLine :=
            {| lineStyle_of :=
                 {| line_color := "var(--border-light)"; opacity := None |} |};
          axisLabel := {| color := "var(--text-secondary)" |};
          splitLine := None |};
     yAxis := Some
       {| axis_type := "value";
          axis_axisLine :=
            {| lineStyle_of :=
                 {| line_color := "var(--border-light)"; opacity := None |} |};
          axisLabel := {| color := "var(--text-secondary)" |};
          splitLine := Some
            {| lineStyle_of :=
                 {| line_color := "var(--border-light)";
                    opacity := Some 0.3%Q |} |} |};
     series := [] |}.

(** [option.series.push(s)]. *)
Definition series_push (s : lineSeries) (o : chartOption) : chartOption :=
  {| title := title o; tooltip := tooltip o; xAxis := xAxis o;
     yAxis := yAxis o; series := series o ++ [s] |}.

(** The body of the [forEach] callback. *)
Definition add_sensor (o : chartOption) (entry : string * sensor) : chartOption :=
  let '(sensorId, data) := entry in
  match history data with
  | Some (item :: items) =>
      series_push
        {| series_name := name data; series_type := "line";
           series_data :=
             map (fun item => (timestamp item, value item)) (item :: items);
           smooth := true |} o
  | Some [] | None => o
  end.

(** [createSensorTrendChart(chartId, sensorData)]; [sensorData] is [None]
    for [null], otherwise the properties of the object in the order they
    were created. *)
Definition createSensorTrendChart (chartId : string)
    (sensorData : option (list (string * sensor))) (w : world)
    : option nat * world :=
  let option :=
    match sensorData with
    | Some props =>
        if (0 <? length (JSMap.keys (JSObject.entries props)))%nat
        then fold_left add_sensor (JSObject.entries props) trend_option
        else trend_option
    | None => trend_option
    end in
  initChart chartId (Some option) w.

(** [resizeAll()]. *)
Definition resizeAll (w : world) : world :=
  {| document := document w; instances := instances w;
     applied := applied w; charts := charts w;
     resize_listeners := resize_listeners w;
     resized := fold_left (fun log chart => log ++ [chart])
                  (JSMap.values (charts w)) (resized w);
     console := console w |}.

(** The browser delivers one 'resize' event: every listener runs, in the
    order of registration. *)
Definition window_resize (w : world) : world :=
  {| document := document w; instances := instances w;
     applied := applied w; charts := charts w;
     resize_listeners := resize_listeners w;
     resized := fold_left (fun log chart => log ++ [chart])
                  (resize_listeners w) (resized w);
     console := console w |}.

(** The page gets the elements [doc]. *)
Definition document_set (doc : list string) (w : world) : world :=
  {| document := doc; instances := instances w;
     applied := applied w; charts := charts w;
     resize_listeners := resize_listeners w; resized := resized w;
     console := console w |}.

(** The page without the element [id]. *)
Definition without (id : string) (doc : list string) : list string :=
  List.filter (fun i => negb (String.eqb i id)) doc.

(** [parent.appendChild(el)] for the element [id]: it goes last, and
    leaves the place it had. *)
Definition appendChild (id : string) (w : world) : world :=
  document_set (without id (document w) ++ [id]) w.

(** [el.remove()] for the element [id]. *)
Definition removeChild (id : string) (w : world) : world :=
  document_set (without id (document w)) w.

(** What can happen to a manager during the life of the page: its
    methods are called, the window is resized, and other code puts
    elements on the page and takes them off. *)
Inductive event :=
| InitChart (chartId : string) (options : option chartOption)
| CreateSensorTrendChart (chartId : string)
    (sensorData : option (list (string * sensor)))
| ResizeAll
| WindowResize
| Append (id : string)
| Remove (id : string).

Definition step (w : world) (e : event) : world :=
  match e with
  | InitChart chartId options => snd (initChart chartId options w)
  | CreateSensorTrendChart chartId sensorData =>
      snd (createSensorTrendChart chartId sensorData w)
  | ResizeAll => resizeAll w
  | WindowResize => window_resize w
  | Append id => appendChild id w
  | Remove id => removeChild id w
  end.

Definition run (es : list event) (w : world) : world := fold_left step es w.

(** An entry is drawn when its history is there and is not empty. *)
Definition has_history (data : sensor) : bool :=
  match history data with
  | Some (_ :: _) => true
  | _ => false
  end.

(** The smoothed line series of one entry. *)
Definition series_of (data : sensor) : lineSeries :=
  {| series_name := name data; series_type := "line";
     series_data :=
       map (fun item => (timestamp item, value item))
           (default [] (history data));
     smooth := true |}.

(** ** What one call does *)

Lemma resize_log (l log : list nat) :
  fold_left (fun log chart => log ++ [chart]) l log = log ++ l.
Proof.
  revert log. induction l as [| c l IH]; intros log; simpl.
  - now rewrite app_nil_r.
  - rewrite IH, <- app_assoc. reflexivity.
Qed.

Lemma echarts_init_frame dom w :
  let w1 := snd (echarts_init dom w) in
  document w1 = document w /\ applied w1 = applied w /\
  charts w1 = charts w /\ resize_listeners w1 = resize_listeners w /\
  resized w1 = resized w /\ console w1 = console w.
Proof.
  unfold echarts_init. destruct (JSMap.get dom (instances w)); simpl; tauto.
Qed.

(** The branch of [initChart] taken when the element exists. *)
Lemma initChart_found chartId options w :
  chartId ∈ document w ->
  initChart chartId options w =
    (Some (fst (echarts_init chartId w)),
     addEventListener_resize (fst (echarts_init chartId w))
       (charts_set chartId (fst (echarts_init chartId w))
          (setOption (fst (echarts_init chartId w))
             (default empty_option options)
             (snd (echarts_init chartId w))))).
Proof.
  intros Hin. unfold initChart.
  rewrite bool_decide_eq_true_2 by assumption.
  now destruct (echarts_init chartId w).
Qed.

(** The branch taken when it does not. *)
Lemma initChart_missing chartId options w :
  chartId ∉ document w ->
  initChart chartId options w =
    (None, console_error ["图表容器不存在:"; chartId] w).
Proof.
  intros Hnin. unfold initChart.
  now rewrite bool_decide_eq_false_2 by assumption.
Qed.

(** ** One handle per identifier *)

Lemma initChart_NoDup chartId options w :
  NoDup (JSMap.keys (charts w)) ->
  NoDup (JSMap.keys (charts (snd (initChart chartId options w)))).
Proof.
  intros Hnd. destruct (decide (chartId ∈ document w)) as [Hin | Hnin].
  - rewrite initChart_found by assumption. simpl.
    apply JSMap.keys_set_NoDup.
    now destruct (echarts_init_frame chartId w) as (_ & _ & -> & _).
  - now rewrite initChart_missing by assumption.
Qed.

Lemma step_NoDup w e :
  NoDup (JSMap.keys (charts w)) -> NoDup (JSMap.keys (charts (step w e))).
Proof.
  destruct e; simpl; try easy.
  - apply initChart_NoDup.
  - unfold createSensorTrendChart. apply initChart_NoDup.
Qed.

Lemma run_NoDup es w :
  NoDup (JSMap.keys (charts w)) -> NoDup (JSMap.keys (charts (run es w))).
Proof.
  unfold run. revert w. induction es as [| e es IH]; intros w Hnd; simpl.
  - assumption.
  - apply IH. now apply step_NoDup.
Qed.

(** ** The series of a trend chart *)

Lemma add_sensor_series o entry :
  add_sensor o entry =
    if has_history (snd entry) then series_push (series_of (snd entry)) o
    else o.
Proof.
  destruct entry as [sensorId data]. unfold add_sensor, has_history, series_of.
  simpl. destruct (history data) as [[| item items] |]; reflexivity.
Qed.

Lemma fold_add_sensor entries o :
  fold_left add_sensor entries o =
    {| title := title o; tooltip := tooltip o; xAxis := xAxis o;
       yAxis := yAxis o;
       series := series o ++
                 map series_of (List.filter has_history (map snd entries)) |}.
Proof.
  revert o. induction entries as [| entry entries IH]; intros o; simpl.
  - rewrite app_nil_r. now destruct o.
  - rewrite IH, add_sensor_series.
    destruct (has_history (snd entry)); simpl; [| reflexivity].
    now rewrite <- app_assoc.
Qed.

(** ** The claims about the registry *)

(** C1, amended: in every state a manager can reach, whatever calls,
    resizes and changes of the page came before, the registry holds at
    most one handle per identifier, and [initChart] on an element that is
    on the page puts the new handle in the place of the one registered
    before and leaves the other identifiers alone.  No listener is ever
    detached: the call adds one window-resize listener after those already
    there, so a window resize that follows runs every earlier listener and
    then the new one. *)
Theorem initChart_replaces_handle_keeps_listeners
    (doc : list string) (es : list event) (chartId : string)
    (options : option chartOption) :
  let w := run es (constructor doc) in
  chartId ∈ document w ->
  exists chart w',
    initChart chartId options w = (Some chart, w') /\
    NoDup (JSMap.keys (charts w)) /\
    NoDup (JSMap.keys (charts w')) /\
    JSMap.get chartId (charts w') = Some chart /\
    (forall k, k <> chartId ->
               JSMap.get k (charts w') = JSMap.get k (charts w)) /\
    resize_listeners w' = resize_listeners w ++ [chart] /\
    resized (window_resize w') = resized w' ++ resize_listeners w ++ [chart].
Proof.
  intros w Hdoc.
  assert (Hnd : NoDup (JSMap.keys (charts w)))
    by (apply run_NoDup; simpl; constructor).
  pose proof (initChart_NoDup chartId options w Hnd) as Hnd'.
  rewrite (initChart_found chartId options w Hdoc) in *.
  destruct (echarts_init_frame chartId w) as (_ & _ & Hc & Hl & _).
  destruct (echarts_init chartId w) as [chart w1]. simpl in *.
  eexists _, _. split; [reflexivity |]. simpl.
  repeat split; try assumption.
  - apply JSMap.get_set_eq.
  - intros k Hk. rewrite Hc. now apply JSMap.get_set_ne.
  - now rewrite Hl.
  - now rewrite resize_log, Hl.
Qed.

(** C8: when no element of the page has the identifier, [initChart] and
    [createSensorTrendChart] log one error and return [null]; the
    registry, the listeners and the chart engine are as before. *)
Theorem initChart_missing_target (chartId : string)
    (options : option chartOption)
    (sensorData : option (list (string * sensor))) (w : world) :
  chartId ∉ document w ->
  exists w',
    initChart chartId options w = (None, w') /\
    createSensorTrendChart chartId sensorData w = (None, w') /\
    charts w' = charts w /\
    resize_listeners w' = resize_listeners w /\
    instances w' = instances w /\ applied w' = applied w /\
    console w' = console w ++ [["图表容器不存在:"; chartId]].
Proof.
  intros Hnin. eexists. split; [| split].
  - now apply initChart_missing.
  - unfold createSensorTrendChart. now apply initChart_missing.
  - simpl. tauto.
Qed.

(** The series made of the properties of [sensorData]. *)
Lemma trend_series (props : list (string * sensor)) :
  series
    (if (0 <? length (JSMap.keys (JSObject.entries props)))%nat
     then fold_left add_sensor (JSObject.entries props) trend_option
     else trend_option)
  = map series_of
      (List.filter has_history (map snd (JSObject.entries props))).
Proof.
  destruct (JSObject.entries props) as [| entry entries]; [reflexivity |].
  change (0 <? length (JSMap.keys (entry :: entries)))%nat with true.
  cbv iota. now rewrite fold_add_sensor.
Qed.

(** C7, amended: on an element that exists, [createSensorTrendChart]
    applies a specification whose series are the smoothed line series of
    the entries with a history that is present and not empty, one each, in
    the order [Object.entries] lists the entries of the map: the ones whose
    key is an array index first, in ascending order, then the others in
    the order they were put in.  That is the order of insertion when no
    key is an array index.  The other entries add nothing.  [resizeAll]
    afterwards resizes the registered charts and nothing else. *)
Theorem createSensorTrendChart_series (chartId : string)
    (props : list (string * sensor)) (w : world) :
  chartId ∈ document w ->
  exists chart w' spec,
    createSensorTrendChart chartId (Some props) w = (Some chart, w') /\
    applied w' = applied w ++ [(chart, spec)] /\
    series spec =
      map series_of
        (List.filter has_history (map snd (JSObject.entries props))) /\
    (NoDup (map fst props) ->
     Forall (fun k => JSObject.array_index k = None) (map fst props) ->
     series spec = map series_of (List.filter has_history (map snd props))) /\
    JSMap.get chartId (charts w') = Some chart /\
    resized (resizeAll w') = resized w' ++ JSMap.values (charts w').
Proof.
  intros Hin. unfold createSensorTrendChart.
  rewrite (initChart_found chartId _ w Hin).
  destruct (echarts_init_frame chartId w) as (_ & Ha & _).
  destruct (echarts_init chartId w) as [chart w1]. simpl in *.
  eexists _, _, _. split; [reflexivity |]. simpl.
  split; [now rewrite Ha |]. split; [| split; [| split]].
  - apply trend_series.
  - intros Hnd Hna. rewrite trend_series.
    now rewrite JSObject.entries_insertion_order.
  - apply JSMap.get_set_eq.
  - apply resize_log.
Qed.

End ChartManager.

(** C1, as the specification states it, on a page with the one element
    [c1]: after [initChart] twice on [c1] the registry has one handle, but
    the listener of the first call is still attached next to the second, and
    one window resize calls [resize] twice. *)
Lemma initChart_twice_keeps_first_listener :
  let w0 := @constructor Z Z ["c1"] in
  let w1 := snd (initChart "c1" None w0) in
  let w2 := snd (initChart "c1" None w1) in
  charts w2 = [("c1", 0%nat)] /\
  resize_listeners w1 = [0%nat] /\
  resize_listeners w2 = [0%nat; 0%nat] /\
  resize_listeners w2 <> [0%nat] /\
  resized (window_resize w2) = [0%nat; 0%nat].
Proof. vm_compute. repeat split. discriminate. Qed.

Lemma initChart_replaces_handle_keeps_listeners_witness :
  let w := run [InitChart "c1" None; Append "c1"; InitChart "c1" None;
                WindowResize] (@constructor Z Z ["c2"]) in
  "c1" ∈ document w /\
  exists chart w',
    initChart "c1" None w = (Some chart, w') /\
    resize_listeners w' = [0%nat; chart].
Proof.
  intros w.
  assert (Hin : "c1" ∈ document w) by (vm_compute; repeat constructor).
  split; [exact Hin |].
  destruct (initChart_replaces_handle_keeps_listeners (T := Z) (V := Z)
              ["c2"] [InitChart "c1" None; Append "c1"; InitChart "c1" None;
                      WindowResize] "c1" None Hin)
    as (chart & w' & Hcall & _ & _ & _ & _ & Hl & _).
  exists chart, w'. split; [exact Hcall | exact Hl].
Defined.

Lemma initChart_missing_target_witness :
  ("c9" ∉ document (@constructor Z Z ["c1"])) /\
  exists w',
    initChart "c9" None (@constructor Z Z ["c1"]) = (None, w') /\
    charts w' = [].
Proof.
  assert (Hnin : "c9" ∉ document (@constructor Z Z ["c1"])).
  { simpl. intros H. apply list_elem_of_singleton in H. discriminate. }
  split; [exact Hnin |].
  destruct (initChart_missing_target "c9" None None _ Hnin)
    as (w' & Hcall & _ & Hc & _).
  exists w'. split; [exact Hcall | exact Hc].
Defined.

(** The map of the specification's end-to-end example. *)
Definition example_sensors : list (string * @sensor Z Z) :=
  [("s1", {| name := "Temp"; history := Some [] |});
   ("s2", {| name := "Humidity";
             history := Some [{| timestamp := 1000; value := 20 |}] |})].

(** A map with a sensor id that is a number: [{b: ..., a: ..., 1: ...}]. *)
Definition numbered_sensors : list (string * @sensor Z Z) :=
  [("b", {| name := "B";
            history := Some [{| timestamp := 1000; value := 2 |}] |});
   ("a", {| name := "A";
            history := Some [{| timestamp := 1000; value := 1 |}] |});
   ("1", {| name := "One";
            history := Some [{| timestamp := 1000; value := 3 |}] |})].

(** C7, as the specification states it, on a map whose third entry has
    the key [1]: every entry has a history, and the series are not in the
    order of insertion, for the entry put in last is drawn first. *)
Lemma createSensorTrendChart_index_key_first :
  let r := createSensorTrendChart "c1" (Some numbered_sensors)
             (constructor ["c1"]) in
  map (fun s : string * sensor => name (snd s)) numbered_sensors
  = ["B"; "A"; "One"] /\
  map (fun a => map series_name (series (snd a))) (applied (snd r))
  = [["One"; "B"; "A"]] /\
  map (fun a => map series_name (series (snd a))) (applied (snd r))
  <> [["B"; "A"; "One"]].
Proof. vm_compute. repeat split. discriminate. Qed.

Lemma createSensorTrendChart_series_witness :
  "c1" ∈ document (@constructor Z Z ["c1"]) /\
  exists chart w' spec,
    createSensorTrendChart "c1" (Some example_sensors) (constructor ["c1"])
    = (Some chart, w') /\
    applied w' = [(chart, spec)] /\
    series spec =
      [{| series_name := "Humidity"; series_type := "line";
          series_data := [(1000, 20)]; smooth := true |}] /\
    resized (resizeAll w') = JSMap.values (charts w').
Proof.
  assert (Hin : "c1" ∈ document (@constructor Z Z ["c1"])) by constructor.
  split; [exact Hin |].
  destruct (createSensorTrendChart_series "c1" example_sensors _ Hin)
    as (chart & w' & spec & Hcall & Ha & Hs & _ & _ & Hr).
  exists chart, w', spec. repeat split; try assumption.
  unfold createSensorTrendChart in Hcall.
  rewrite (initChart_found _ _ _ Hin) in Hcall. simpl in Hcall.
  injection Hcall as <- <-. simpl in Hr. exact Hr.
Defined.

(** The end-to-end example, run. *)
Example createSensorTrendChart_example :
  let r :=
    createSensorTrendChart "c1" (Some example_sensors) (constructor ["c1"]) in
  fst r = Some 0%nat /\
  map (fun a => map series_name (series (snd a))) (applied (snd r))
  = [["Humidity"]] /\
  charts (snd r) = [("c1", 0%nat)] /\
  resized (resizeAll (snd r)) = [0%nat].
Proof. vm_compute. repeat split. Qed.

(** ** The registry and the listeners over the life of the page *)

Section Registry.
Context {T V : Type}.
Implicit Types (e : @event T V) (es : list (@event T V)) (w : @world T V).

(** The identifier an event initialises a chart for. *)
Definition target e : option string :=
  match e with
  | InitChart chartId _ | CreateSensorTrendChart chartId _ => Some chartId
  | ResizeAll | WindowResize | Append _ | Remove _ => None
  end.

(** The event initialises a chart on an element of the page. *)
Definition finds_element (doc : list string) e : bool :=
  match target e with
  | Some chartId => bool_decide (chartId ∈ doc)
  | None => false
  end.

(** What an event does to the page. *)
Definition page_step (doc : list string) e : list string :=
  match e with
  | Append id => without id doc ++ [id]
  | Remove id => without id doc
  | InitChart _ _ | CreateSensorTrendChart _ _ | ResizeAll | WindowResize => doc
  end.

(** The event puts an element on the page or takes one off. *)
Definition changes_page e : bool :=
  match e with
  | Append _ | Remove _ => true
  | InitChart _ _ | CreateSensorTrendChart _ _ | ResizeAll | WindowResize =>
      false
  end.

(** The calls of a run that found their element, on a page that starts
    with the elements [doc]. *)
Fixpoint found (doc : list string) es : list event :=
  match es with
  | [] => []
  | e :: es' =>
      (if finds_element doc e then [e] else []) ++ found (page_step doc e) es'
  end.

Lemma elem_of_keys_set {A} (k k' : string) (a : A) (m : list (string * A)) :
  k' ∈ JSMap.keys (JSMap.set k a m) <-> k' = k \/ k' ∈ JSMap.keys m.
Proof.
  destruct (decide (k ∈ JSMap.keys m)) as [Hin | Hnin].
  - rewrite JSMap.keys_set_present by assumption. split; [tauto |].
    intros [-> | H]; assumption.
  - rewrite JSMap.keys_set_absent by assumption.
    rewrite elem_of_app, list_elem_of_singleton. tauto.
Qed.

Lemma elem_of_values_set {A} (k : string) (a c : A) (m : list (string * A)) :
  c ∈ JSMap.values (JSMap.set k a m) -> c = a \/ c ∈ JSMap.values m.
Proof.
  induction m as [| [k' a'] m IH]; simpl.
  - intros H%list_elem_of_singleton. now left.
  - destruct (String.eqb k k'); simpl; rewrite !elem_of_cons.
    + intros [-> | H]; tauto.
    + intros [-> | H]; [tauto |]. destruct (IH H); tauto.
Qed.

Lemma step_document w e : document (step w e) = page_step (document w) e.
Proof.
  assert (Hi : forall chartId options,
             document (snd (initChart chartId options w)) = document w).
  { intros chartId options. unfold initChart.
    destruct (bool_decide (chartId ∈ document w)); [| reflexivity].
    pose proof (echarts_init_frame chartId w) as (Hd & _).
    destruct (echarts_init chartId w); simpl in *. assumption. }
  destruct e; simpl; try reflexivity; [apply Hi |].
  unfold createSensorTrendChart. apply Hi.
Qed.

(** What one event does to the registry and to the listeners. *)
Lemma step_registry w e :
  if finds_element (document w) e then
    exists chartId chart,
      target e = Some chartId /\ chartId ∈ document w /\
      charts (step w e) = JSMap.set chartId chart (charts w) /\
      resize_listeners (step w e) = resize_listeners w ++ [chart]
  else
    charts (step w e) = charts w /\
    resize_listeners (step w e) = resize_listeners w.
Proof.
  assert (Hinit : forall chartId options,
    if bool_decide (chartId ∈ document w) then
      exists chart,
        charts (snd (initChart chartId options w))
        = JSMap.set chartId chart (charts w) /\
        resize_listeners (snd (initChart chartId options w))
        = resize_listeners w ++ [chart]
    else
      charts (snd (initChart chartId options w)) = charts w /\
      resize_listeners (snd (initChart chartId options w))
      = resize_listeners w).
  { intros chartId options. case_bool_decide as Hin.
    - rewrite initChart_found by assumption. simpl.
      destruct (echarts_init_frame chartId w) as (_ & _ & -> & -> & _).
      eexists. split; reflexivity.
    - now rewrite initChart_missing by assumption. }
  destruct e as [chartId options | chartId sensorData | | | id | id]; simpl;
    unfold finds_element; simpl; try (split; reflexivity).
  - specialize (Hinit chartId options). case_bool_decide as Hin.
    + destruct Hinit as (chart & Hc & Hl). now exists chartId, chart.
    + assumption.
  - unfold createSensorTrendChart.
    match goal with
    | |- context [initChart chartId ?o w] => specialize (Hinit chartId o)
    end.
    case_bool_decide as Hin.
    + destruct Hinit as (chart & Hc & Hl). now exists chartId, chart.
    + assumption.
Qed.

Lemma run_cons e es w :
  run (e :: es) w = run es (step w e).
Proof. reflexivity. Qed.

Lemma run_app es1 es2 w : run (es1 ++ es2) w = run es2 (run es1 w).
Proof. unfold run. apply fold_left_app. Qed.

Lemma listeners_run es : forall w,
  length (resize_listeners (run es w)) =
    (length (resize_listeners w) + length (found (document w) es))%nat.
Proof.
  induction es as [| e es IH]; intros w; [simpl; lia |].
  rewrite run_cons, IH, step_document. simpl found. rewrite length_app.
  pose proof (step_registry w e) as Hs.
  destruct (finds_element (document w) e).
  - destruct Hs as (chartId & chart & _ & _ & _ & ->).
    rewrite length_app. simpl. lia.
  - destruct Hs as [_ ->]. simpl. lia.
Qed.

(** On a page that does not change, the calls that find their element are
    those that name an element of the page. *)
Lemma found_constant_page es : forall doc,
  Forall (fun e => changes_page e = false) es ->
  found doc es = List.filter (finds_element doc) es.
Proof.
  induction es as [| e es IH]; intros doc Hes; [reflexivity |].
  apply Forall_cons in Hes as [He Hes]. simpl.
  assert (Hp : page_step doc e = doc) by (destruct e; (discriminate || reflexivity)).
  rewrite Hp, IH by assumption. now destruct (finds_element doc e).
Qed.

(** X9: the page has one window-resize listener per call of [initChart]
    or [createSensorTrendChart] that found its element on the page as it
    was at the call, however often an identifier was used again; one
    window resize then makes that many calls of [resize].  When the page
    does not change, these are the calls that name an element of it. *)
Theorem listeners_accumulate (doc : list string) es :
  let w := run es (constructor doc) in
  length (resize_listeners w) = length (found doc es) /\
  length (resized (window_resize w)) =
    (length (resized w) + length (found doc es))%nat /\
  (Forall (fun e => changes_page e = false) es ->
   found doc es = List.filter (finds_element doc) es).
Proof.
  intros w. assert (H := listeners_run es (constructor doc)).
  simpl in H. fold w in H. split; [exact H |]. split.
  - simpl. rewrite resize_log, length_app. lia.
  - apply found_constant_page.
Qed.

Lemma registered_run es : forall w (k : string),
  k ∈ JSMap.keys (charts (run es w)) <->
  k ∈ JSMap.keys (charts w) \/
  exists es1 e es2,
    es = es1 ++ e :: es2 /\ target e = Some k /\ k ∈ document (run es1 w).
Proof.
  induction es as [| e0 es IH]; intros w k.
  - simpl. split; [tauto |]. intros [H | (es1 & e & es2 & He & _)]; [assumption |].
    now destruct es1.
  - rewrite run_cons, IH.
    pose proof (step_registry w e0) as Hs.
    destruct (finds_element (document w) e0) eqn:Hf.
    + destruct Hs as (chartId & chart & Ht & Hin & -> & _).
      rewrite elem_of_keys_set. split.
      * intros [[-> | H] | (es1 & e & es2 & -> & Ht' & Hd)].
        -- right. now exists [], e0, es.
        -- now left.
        -- right. now exists (e0 :: es1), e, es2.
      * intros [H | (es1 & e & es2 & Heq & Ht' & Hd)]; [tauto |].
        destruct es1 as [| e1 es1]; simpl in Heq; injection Heq as <- ->.
        -- left. left. congruence.
        -- right. now exists es1, e, es2.
    + destruct Hs as [-> _]. split.
      * intros [H | (es1 & e & es2 & -> & Ht' & Hd)]; [tauto |].
        right. now exists (e0 :: es1), e, es2.
      * intros [H | (es1 & e & es2 & Heq & Ht' & Hd)]; [tauto |].
        destruct es1 as [| e1 es1]; simpl in Heq; injection Heq as <- ->.
        -- exfalso. unfold finds_element in Hf. rewrite Ht' in Hf.
           simpl in Hd. now rewrite bool_decide_eq_true_2 in Hf.
        -- right. now exists es1, e, es2.
Qed.

(** X10: an identifier is in the registry exactly when some earlier call
    of [initChart] or [createSensorTrendChart] named it while an element
    of the page had it: a call on a missing element registers nothing,
    also when the element comes later, and nothing is ever taken out of
    the registry, also when the element leaves the page. *)
Theorem registered_iff (doc : list string) es (k : string) :
  k ∈ JSMap.keys (charts (run es (constructor doc))) <->
  exists es1 e es2,
    es = es1 ++ e :: es2 /\ target e = Some k /\
    k ∈ document (run es1 (constructor doc)).
Proof.
  rewrite registered_run. simpl. split; [| tauto].
  intros [H | H]; [now apply elem_of_nil in H | assumption].
Qed.

Lemma listened_run es : forall w,
  (forall c, c ∈ JSMap.values (charts w) -> c ∈ resize_listeners w) ->
  forall c, c ∈ JSMap.values (charts (run es w)) ->
            c ∈ resize_listeners (run es w).
Proof.
  induction es as [| e es IH]; intros w Hw; [exact Hw |].
  rewrite run_cons. apply IH. intros c.
  pose proof (step_registry w e) as Hs.
  destruct (finds_element (document w) e).
  - destruct Hs as (chartId & chart & _ & _ & -> & ->).
    intros [-> | H]%elem_of_values_set; rewrite elem_of_app.
    + right. now apply list_elem_of_singleton.
    + left. now apply Hw.
  - destruct Hs as [-> ->]. apply Hw.
Qed.

(** X11: every chart in the registry has a window-resize listener: a
    window resize calls [resize] on every chart that [resizeAll] would
    resize. *)
Theorem registered_charts_listen (doc : list string) es (c : nat) :
  let w := run es (constructor doc) in
  c ∈ JSMap.values (charts w) ->
  c ∈ resize_listeners w /\
  exists before after,
    resized (window_resize w) = resized w ++ before ++ c :: after.
Proof.
  intros w Hc.
  assert (Hl : c ∈ resize_listeners w).
  { revert Hc. unfold w. apply listened_run. simpl.
    intros c' H. now apply elem_of_nil in H. }
  split; [exact Hl |]. simpl. rewrite resize_log.
  apply list_elem_of_split in Hl as (before & after & ->).
  now exists before, after.
Qed.

(** X12: on an element that exists, whatever map is given (also [null] or
    an empty one), the specification applied keeps the title, tooltip and
    axes of the template, has at most one series per entry, and every
    series in it is a smoothed line with at least one point; with [null]
    or an empty map it has no series. *)
Theorem createSensorTrendChart_spec (chartId : string)
    (sensorData : option (list (string * @sensor T V))) w :
  chartId ∈ document w ->
  exists chart w' spec,
    createSensorTrendChart chartId sensorData w = (Some chart, w') /\
    applied w' = applied w ++ [(chart, spec)] /\
    (title spec, tooltip spec, xAxis spec, yAxis spec) =
    (title (@trend_option T V), tooltip (@trend_option T V),
     xAxis (@trend_option T V), yAxis (@trend_option T V)) /\
    (length (series spec) <= length (default [] sensorData))%nat /\
    Forall (fun s => series_data s <> [] /\ series_type s = "line" /\
                     smooth s = true) (series spec).
Proof.
  intros Hin.
  assert (Hser : forall entries : list (string * @sensor T V),
    let l := map series_of (List.filter has_history (map snd entries)) in
    (length l <= length entries)%nat /\
    Forall (fun s => series_data s <> [] /\ series_type s = "line" /\
                     smooth s = true) l).
  { intros entries. cbv zeta. split.
    - rewrite length_map.
      etransitivity; [apply List.filter_length_le |]. now rewrite length_map.
    - apply Forall_map, Forall_forall. intros data Hd.
      apply list_elem_of_In, filter_In in Hd as [_ Hh].
      unfold series_of, has_history in *. simpl.
      destruct (history data) as [[| item items] |]; try discriminate.
      repeat split. discriminate. }
  unfold createSensorTrendChart.
  set (o := match sensorData with
            | Some props =>
                if (0 <? length (JSMap.keys (JSObject.entries props)))%nat
                then fold_left add_sensor (JSObject.entries props) trend_option
                else trend_option
            | None => trend_option
            end).
  assert (Ho : (title o, tooltip o, xAxis o, yAxis o) =
               (title (@trend_option T V), tooltip (@trend_option T V),
                xAxis (@trend_option T V), yAxis (@trend_option T V)) /\
               (length (series o) <= length (default [] sensorData))%nat /\
               Forall (fun s => series_data s <> [] /\ series_type s = "line" /\
                                smooth s = true) (series o)).
  { unfold o. destruct sensorData as [props |];
      [| simpl; repeat split; (lia || constructor)].
    split.
    - destruct (0 <? _)%nat; [| reflexivity]. now rewrite fold_add_sensor.
    - rewrite trend_series. destruct (Hser (JSObject.entries props)) as [H1 H2].
      pose proof (JSObject.length_entries props). simpl default.
      split; [lia | assumption]. }
  clearbody o.
  rewrite (initChart_found chartId _ w Hin).
  destruct (echarts_init_frame chartId w) as (_ & Ha & _).
  destruct (echarts_init chartId w) as [chart w1]. simpl in *.
  eexists _, _, _. split; [reflexivity |]. simpl.
  split; [now rewrite Ha | exact Ho].
Qed.

End Registry.

Lemma listeners_accumulate_witness :
  let es := [InitChart "c1" None; Append "c1"; InitChart "c1" None;
             Remove "c1"; InitChart "c1" None] in
  length (resize_listeners (run es (@constructor Z Z ["c2"]))) = 1%nat /\
  found ["c2"] [InitChart "c2" None; @ResizeAll Z Z; InitChart "c1" None]
  = [InitChart "c2" None].
Proof.
  intros es.
  destruct (listeners_accumulate (T := Z) (V := Z) ["c2"] es) as (H & _).
  split; [exact H |].
  destruct (listeners_accumulate (T := Z) (V := Z) ["c2"]
              [InitChart "c2" None; ResizeAll; InitChart "c1" None])
    as (_ & _ & Hc).
  rewrite Hc; [reflexivity |]. repeat constructor.
Defined.

Lemma registered_iff_witness :
  ("c1" ∉ JSMap.keys
            (charts (run [InitChart "c1" None; Append "c1"]
                       (@constructor Z Z [])))) /\
  ("c1" ∈ JSMap.keys
            (charts (run [Append "c1"; InitChart "c1" None; Remove "c1"]
                       (@constructor Z Z [])))).
Proof.
  split.
  - intros H. apply registered_iff in H as (es1 & e & es2 & Heq & Ht & Hd).
    destruct es1 as [| e1 [| e2 [| e3 es1]]]; simpl in Heq;
      try discriminate; injection Heq; intros; subst;
      try discriminate; try (now destruct es1).
    simpl in Hd. now apply elem_of_nil in Hd.
  - apply registered_iff.
    exists [Append "c1"], (InitChart "c1" None), [Remove "c1"].
    repeat split. vm_compute. constructor.
Defined.

Lemma createSensorTrendChart_spec_witness :
  exists chart w' spec,
    createSensorTrendChart "c1" (Some numbered_sensors)
      (@constructor Z Z ["c1"])
    = (Some chart, w') /\
    applied w' = [(chart, spec)] /\
    (length (series spec) <= 3)%nat.
Proof.
  assert (Hin : "c1" ∈ document (@constructor Z Z ["c1"])) by constructor.
  destruct (createSensorTrendChart_spec "c1" (Some numbered_sensors) _ Hin)
    as (chart & w' & spec & Hcall & Ha & _ & Hlen & _).
  exists chart, w', spec. repeat split; assumption.
Defined.

Lemma registered_charts_listen_witness :
  let w := run [InitChart "c1" None; InitChart "c1" None]
               (@constructor Z Z ["c1"]) in
  0%nat ∈ JSMap.values (charts w) /\ 0%nat ∈ resize_listeners w.
Proof.
  intros w.
  assert (H : 0%nat ∈ JSMap.values (charts w)) by (vm_compute; constructor).
  split; [exact H |].
  exact (proj1 (registered_charts_listen ["c1"]
                  [InitChart "c1" None; InitChart "c1" None] 0%nat H)).
Defined.

End ChartManager.

(** * Timers of the event loop

    [setTimeout] and [clearTimeout] on a clock that counts milliseconds.
    The delay given to [setTimeout] is converted to a signed 32-bit
    integer, and a negative one counts as 0: a delay from 0 to 2^31 - 1 is
    taken as it is, and a delay of 2^31 ms is no delay at all.  When time
    passes, the due timers fire one at a time, the earliest first and,
    among timers due at the same instant, in the order they were set.
    What a timer runs is left to the user of this section. *)

Module Timers.
Section Timers.
Context {C : Type}.

Record timer := { timer_id : nat; due : Z; callback : C }.

Record timers :=
  { clock : Z;            (* the present time *)
    next_id : nat;        (* the id the next timer gets *)
    pending : list timer  (* the timers set and not yet fired or cleared,
                             oldest first *) }.

(** No timer pending, at time [now]; ids start at 1. *)
Definition start (now : Z) : timers :=
  {| clock := now; next_id := 1; pending := [] |}.

(** The number [z] as a signed 32-bit integer: [z] modulo 2^32, between
    -2^31 and 2^31 - 1. *)
Definition ToInt32 (z : Z) : Z := (z + 2 ^ 31) mod 2 ^ 32 - 2 ^ 31.

(** The milliseconds a timer set with [delay] waits. *)
Definition timeout_of (delay : Z) : Z := Z.max 0 (ToInt32 delay).

(** A delay in the signed 32-bit range. *)
Definition is_long (delay : Z) : Prop := - 2 ^ 31 <= delay < 2 ^ 31.

Definition setTimeout (cb : C) (delay : Z) (t : timers) : nat * timers :=
  (next_id t,
   {| clock := clock t; next_id := S (next_id t);
      pending := pending t ++
                 [{| timer_id := next_id t;
                     due := clock t + timeout_of delay;
                     callback := cb |}] |}).

(** [clearTimeout(id)]; [None] is an [undefined] id, which clears
    nothing. *)
Definition clearTimeout (id : option nat) (t : timers) : timers :=
  match id with
  | None => t
  | Some i =>
      {| clock := clock t; next_id := next_id t;
         pending := List.filter (fun tm => negb (timer_id tm =? i)%nat)
                      (pending t) |}
  end.

(** The timer that fires first. *)
Fixpoint earliest (l : list timer) : option timer :=
  match l with
  | [] => None
  | tm :: l' =>
      match earliest l' with
      | Some tm' => if due tm' <? due tm then Some tm' else Some tm
      | None => Some tm
      end
  end.

(** The next timer to fire at or before [limit], taken off the pending
    list, with the clock moved to the instant it fires. *)
Definition take_due (limit : Z) (t : timers) : option (timer * timers) :=
  match earliest (pending t) with
  | Some tm =>
      if due tm <=? limit then
        Some (tm,
              {| clock := Z.max (clock t) (due tm); next_id := next_id t;
                 pending := List.filter
                              (fun tm' => negb (timer_id tm' =? timer_id tm)%nat)
                              (pending t) |})
      else None
  | None => None
  end.

(** Nothing left to fire before [limit]: the clock reaches it. *)
Definition idle_until (limit : Z) (t : timers) : timers :=
  {| clock := Z.max (clock t) limit; next_id := next_id t;
     pending := pending t |}.

Lemma timeout_of_long (delay : Z) :
  is_long delay -> timeout_of delay = Z.max 0 delay.
Proof.
  unfold is_long, timeout_of, ToInt32. intros H.
  rewrite Z.mod_small by lia. f_equal. lia.
Qed.

Lemma timeout_of_nonneg (delay : Z) : 0 <= timeout_of delay.
Proof. unfold timeout_of. lia. Qed.

Lemma take_due_single tm limit now n :
  take_due limit {| clock := now; next_id := n; pending := [tm] |} =
    if due tm <=? limit
    then Some (tm, {| clock := Z.max now (due tm); next_id := n;
                      pending := [] |})
    else None.
Proof.
  unfold take_due. simpl. destruct (due tm <=? limit); [| reflexivity].
  now rewrite Nat.eqb_refl.
Qed.

Lemma earliest_elem_of l tm : earliest l = Some tm -> tm ∈ l.
Proof.
  revert tm. induction l as [| tm0 l IH]; intros tm; simpl; [discriminate |].
  destruct (earliest l) as [tm' |].
  - destruct (due tm' <? due tm0); intros [= <-].
    + apply elem_of_cons. right. now apply IH.
    + apply elem_of_cons. now left.
  - intros [= <-]. apply elem_of_cons. now left.
Qed.

Lemma filter_shorter (f : timer -> bool) l tm :
  tm ∈ l -> f tm = false -> (length (List.filter f l) < length l)%nat.
Proof.
  induction l as [| tm0 l IH]; intros Hin Hf; [now apply elem_of_nil in Hin |].
  apply elem_of_cons in Hin as [<- | Hin]; simpl.
  - rewrite Hf. pose proof (List.filter_length_le f l). lia.
  - specialize (IH Hin Hf). destruct (f tm0); simpl; lia.
Qed.

(** Taking a timer off leaves fewer timers pending. *)
Lemma take_due_shorter limit t tm t' :
  take_due limit t = Some (tm, t') ->
  (length (pending t') < length (pending t))%nat.
Proof.
  unfold take_due. destruct (earliest (pending t)) as [tm0 |] eqn:E;
    [| discriminate].
  destruct (due tm0 <=? limit); [| discriminate].
  intros [= <- <-]. simpl. apply filter_shorter with tm0.
  - now apply earliest_elem_of.
  - now rewrite Nat.eqb_refl.
Qed.
End Timers.
Arguments timer : clear implicits.
Arguments timers : clear implicits.
End Timers.

(** * PlatformUtils.debounce *)

Module Debounce.
Section Debounce.
(** The argument list of one call of the debounced function. *)
Context {A : Type}.
(** The second argument of [debounce]. *)
Variable wait : Z.

(** The closure made by [debounce(func, wait)], with the timers it has
    set.  A pending timer runs [later], which holds the [args] of the
    call that set it; a call of [func] is recorded with its arguments. *)
Record world :=
  { timers : Timers.timers A;
    timeout : option nat;   (* [let timeout;] *)
    executed : list A }.    (* calls of [func], oldest first *)

(** [debounce(func, wait)] at time [now]. *)
Definition debounce (now : Z) : world :=
  {| timers := Timers.start now; timeout := None; executed := [] |}.

(** [later()]. *)
Definition later (args : A) (w : world) : world :=
  {| timers := Timers.clearTimeout (timeout w) (timers w);
     timeout := timeout w;
     executed := executed w ++ [args] |}.

(** [executedFunction(...args)]. *)
Definition executedFunction (args : A) (w : world) : world :=
  let t := Timers.clearTimeout (timeout w) (timers w) in
  let '(id, t) := Timers.setTimeout args wait t in
  {| timers := t; timeout := Some id; executed := executed w |}.

(** Time runs up to [limit]; each timer that comes due fires. *)
Fixpoint run_timers (fuel : nat) (limit : Z) (w : world) : option world :=
  match Timers.take_due limit (timers w) with
  | None =>
      Some {| timers := Timers.idle_until limit (timers w);
              timeout := timeout w; executed := executed w |}
  | Some (tm, t) =>
      match fuel with
      | O => None
      | S fuel' =>
          run_timers fuel' limit
            (later (Timers.callback tm)
               {| timers := t; timeout := timeout w;
                  executed := executed w |})
      end
  end.

(** [d] milliseconds pass.  A firing timer sets no timer, so one round per
    pending timer is enough. *)
Definition elapse (d : Z) (w : world) : option world :=
  run_timers (length (Timers.pending (timers w)))
    (Timers.clock (timers w) + d) w.

(** A run of calls, each [gap] ms after the one before. *)
Fixpoint calls (cs : list (Z * A)) (w : world) : option world :=
  match cs with
  | [] => Some w
  | (gap, args) :: cs' =>
      match elapse gap w with
      | Some w' => calls cs' (executedFunction args w')
      | None => None
      end
  end.

(** A burst on a new closure: a first call, then the calls of [cs]. *)
Definition burst (now : Z) (args : A) (cs : list (Z * A)) : option world :=
  calls cs (executedFunction args (debounce now)).

(** What happens to the closure: a call, or time that passes. *)
Inductive event :=
| Call (args : A)
| Wait (d : Z).

Definition step (w : world) (e : event) : option world :=
  match e with
  | Call args => Some (executedFunction args w)
  | Wait d => elapse d w
  end.

Fixpoint run (es : list event) (w : world) : option world :=
  match es with
  | [] => Some w
  | e :: es' =>
      match step w e with
      | Some w' => run es' w'
      | None => None
      end
  end.

(** The arguments of the calls of a run, in order. *)
Fixpoint call_args (es : list event) : list A :=
  match es with
  | [] => []
  | Call args :: es' => args :: call_args es'
  | Wait _ :: es' => call_args es'
  end.


(** The state right after a call with [args]: one pending timer, the one
    [timeout] names, holding [args] and due when the delay [setTimeout]
    makes of [wait] has passed; [func] has run with [log] so far. *)
Definition just_called (args : A) (log : list A) (w : world) : Prop :=
  exists id,
    timeout w = Some id /\
    Timers.pending (timers w) =
      [{| Timers.timer_id := id;
          Timers.due := Timers.clock (timers w) + Timers.timeout_of wait;
          Timers.callback := args |}] /\
    executed w = log.

(** No timer is pending but the one [timeout] names. *)
Definition settled (w : world) : Prop :=
  Timers.pending (timers w) = [] \/
  exists tm, Timers.pending (timers w) = [tm] /\
             timeout w = Some (Timers.timer_id tm).


Lemma just_called_settled args log w : just_called args log w -> settled w.
Proof. intros (id & Hto & Hp & _). right. eexists. split; eassumption. Qed.

(** A call cancels the pending timer, if there is one, and sets its own. *)
Lemma executedFunction_settled args w :
  settled w -> just_called args (executed w) (executedFunction args w).
Proof.
  intros Hs. destruct w as [[c n p] to ex]. simpl in *.
  exists n. unfold executedFunction. simpl.
  destruct Hs as [Hp | (tm & Hp & Hto)]; simpl in *; subst.
  - destruct to; repeat split.
  - simpl. rewrite Nat.eqb_refl. repeat split.
Qed.


Lemma elapse_settled d w :
  settled w ->
  exists w1,
    elapse d w = Some w1 /\ settled w1 /\
    executed w1 ++ map Timers.callback (Timers.pending (timers w1)) =
    executed w ++ map Timers.callback (Timers.pending (timers w)).
Proof.
  intros Hs. destruct w as [[c n p] to ex]. simpl in *.
  destruct Hs as [Hp | (tm & Hp & Hto)]; simpl in *; subst; unfold elapse; simpl.
  - eexists. split; [reflexivity |]. split; [now left | reflexivity].
  - rewrite Timers.take_due_single.
    destruct (Timers.due tm <=? c + d); simpl.
    + eexists. split; [reflexivity |]. simpl.
      split; [now left | now rewrite app_nil_r].
    + eexists. split; [reflexivity |]. simpl.
      split; [right; eexists; split; reflexivity | reflexivity].
Qed.





Lemma run_settled es : forall w (h : list A),
  settled w ->
  executed w ++ map Timers.callback (Timers.pending (timers w))
    `sublist_of` h ->
  exists w',
    run es w = Some w' /\ settled w' /\
    executed w' ++ map Timers.callback (Timers.pending (timers w'))
      `sublist_of` h ++ call_args es.
Proof.
  induction es as [| [args | d] es IH]; intros w h Hs Hsub.
  - exists w. split; [reflexivity |]. split; [assumption |].
    simpl. now rewrite app_nil_r.
  - simpl run.
    pose proof (executedFunction_settled args w Hs) as Hj.
    destruct (IH (executedFunction args w) (h ++ [args]))
      as (w' & Hr & Hs' & Hsub').
    + eapply just_called_settled, Hj.
    + destruct Hj as (id & _ & -> & ->). simpl.
      apply sublist_app; [| reflexivity].
      apply sublist_app_l in Hsub as (k1 & k2 & -> & H1 & _).
      now apply sublist_inserts_r.
    + exists w'. split; [exact Hr |]. split; [exact Hs' |].
      simpl call_args. now rewrite <- app_assoc in Hsub'.
  - simpl run. destruct (elapse_settled d w Hs) as (w1 & -> & Hs1 & Heq).
    apply IH; [assumption | now rewrite Heq].
Qed.



(** X14: over any run of calls and waits, at most one timer of the
    closure is pending at any time, and what [func] has run with, followed
    by what the pending timer holds, is a selection of the arguments of
    the calls in the order of the calls: [func] never runs with arguments
    no call has given, never for one call twice, never out of order. *)
Theorem debounce_invariant (now : Z) (es : list event) :
  exists w,
    run es (debounce now) = Some w /\
    (length (Timers.pending (timers w)) <= 1)%nat /\
    executed w ++ map Timers.callback (Timers.pending (timers w))
      `sublist_of` call_args es.
Proof.
  destruct (run_settled es (debounce now) []) as (w & Hr & Hs & Hsub).
  - now left.
  - simpl. reflexivity.
  - exists w. split; [exact Hr |]. split; [| exact Hsub].
    destruct Hs as [-> | (tm & -> & _)]; simpl; lia.
Qed.

End Debounce.



(** Three calls 100 ms and 250 ms apart with a wait of 300 ms, then 300 ms
    of quiet. *)
Example debounce_three_calls :
  match burst 300 0 "a" [(100, "b"); (250, "c")] with
  | Some w =>
      executed w = [] /\
      map Timers.callback (Timers.pending (timers w)) = ["c"] /\
      (executed <$> elapse 299 w) = Some [] /\
      (executed <$> elapse 300 w) = Some ["c"]
  | None => False
  end.
Proof. vm_compute. repeat split. Qed.


End Debounce.

(** * NotificationManager *)

Module NotificationManager.

(** A [div] made by [show].  Two elements are the same node when their
    [node] numbers agree. *)
Record element := { node : nat; cssText : string; innerHTML : string }.

(** The notification container and the timers of the page.  A pending
    timer runs the arrow function of [show], which holds its
    [notification]. *)
Record world :=
  { container : list element;    (* this.container's children, first to last *)
    next_node : nat;             (* the number of the next element made *)
    timers : Timers.timers nat }.

(** [new NotificationManager()] at time [now]: [init()] makes an empty
    container. *)
Definition constructor (now : Z) : world :=
  {| container := []; next_node := 0; timers := Timers.start now |}.

(** Reading a property of an object literal gives the member of the
    literal, or else the member every object inherits from
    [Object.prototype] under that name; [None] is [undefined]. *)
Definition lookup (own : string -> option string) (name : string)
    : option PlatformUtils.member :=
  match own name with
  | Some s => Some (PlatformUtils.Text s)
  | None =>
      if bool_decide (name ∈ PlatformUtils.Object_prototype_names)
      then Some (PlatformUtils.Inherited name)
      else None
  end.

(** The string [+] makes of a member.  An inherited member is a built-in
    function, shown by its source text (as V8 prints it), but for
    [__proto__], which is [Object.prototype] itself; [constructor] is the
    function [Object]. *)
Definition member_text (m : PlatformUtils.member) : string :=
  match m with
  | PlatformUtils.Text s => s
  | PlatformUtils.Inherited name =>
      if String.eqb name "__proto__" then "[object Object]"
      else "function "
           +:+ (if String.eqb name "constructor" then "Object" else name)
           +:+ "() { [native code] }"
  end.

(** [colors[type]] in [show]. *)
Definition colors (type : string) : option PlatformUtils.member :=
  lookup (fun type =>
            if String.eqb type "success" then Some "#10b981"
            else if String.eqb type "error" then Some "#ef4444"
            else if String.eqb type "warning" then Some "#f59e0b"
            else if String.eqb type "info" then Some "#3b82f6"
            else None) type.

(** [titles[type]] in [getTitle]. *)
Definition titles (type : string) : option PlatformUtils.member :=
  lookup (fun type =>
            if String.eqb type "success" then Some "成功"
            else if String.eqb type "error" then Some "错误"
            else if String.eqb type "warning" then Some "警告"
            else if String.eqb type "info" then Some "信息"
            else None) type.

(** [getTitle(type)]: every member the lookup can give is true, so the
    fallback is taken for [undefined] only. *)
Definition getTitle (type : string) : PlatformUtils.member :=
  default (PlatformUtils.Text "通知") (titles type).

(** [notification.parentNode], as a truth value. *)
Definition parentNode (el : nat) (w : world) : bool :=
  existsb (fun e => (node e =? el)%nat) (container w).

(** [notification.remove()]: the element leaves its parent, if it has
    one.  This is the manual dismissal of the handle [show] returns. *)
Definition remove (el : nat) (w : world) : world :=
  {| container := List.filter (fun e => negb (node e =? el)%nat) (container w);
     next_node := next_node w; timers := timers w |}.

(** The arrow function given to [setTimeout]. *)
Definition auto_dismiss (el : nat) (w : world) : world :=
  if parentNode el w then remove el w else w.

(** [show(message, type = 'info', duration = 5000)]; an argument left out
    is [None]. *)
Definition show (message : string) (type : option string)
    (duration : option Z) (w : world) : nat * world :=
  let type := default "info" type in
  let duration := default 5000 duration in
  let notification :=
    {| node := next_node w;
       cssText :=
         "background: var(--bg-primary); border: 1px solid var(--border-light); "
         +:+ "border-left: 4px solid "
         +:+ member_text (default (PlatformUtils.Text "#3b82f6") (colors type))
         +:+ "; "
         +:+ "border-radius: 8px; padding: 16px; margin-bottom: 10px; "
         +:+ "box-shadow: 0 10px 15px -3px rgba(0,0,0,0.1); "
         +:+ "animation: slideInRight 0.3s ease;";
       innerHTML :=
         "<div style=" +:+ dquote
         +:+ "font-weight: 600; margin-bottom: 4px; color: var(--text-primary);"
         +:+ dquote +:+ ">"
         +:+ member_text (getTitle type) +:+ "</div>"
         +:+ "<div style=" +:+ dquote
         +:+ "color: var(--text-secondary); font-size: 0.9rem;"
         +:+ dquote +:+ ">"
         +:+ message +:+ "</div>" |} in
  let appended := container w ++ [notification] in
  let t :=
    if 0 <? duration
    then snd (Timers.setTimeout (node notification) duration (timers w))
    else timers w in
  (node notification,
   {| container := appended; next_node := S (next_node w); timers := t |}).

(** Time runs up to [limit]; each timer that comes due fires. *)
Fixpoint run_timers (fuel : nat) (limit : Z) (w : world) : option world :=
  match Timers.take_due limit (timers w) with
  | None =>
      Some {| container := container w; next_node := next_node w;
              timers := Timers.idle_until limit (timers w) |}
  | Some (tm, t) =>
      match fuel with
      | O => None
      | S fuel' =>
          run_timers fuel' limit
            (auto_dismiss (Timers.callback tm)
               {| container := container w; next_node := next_node w;
                  timers := t |})
      end
  end.

(** [d] milliseconds pass.  A firing timer sets no timer, so one round per
    pending timer is enough. *)
Definition elapse (d : Z) (w : world) : option world :=
  run_timers (length (Timers.pending (timers w)))
    (Timers.clock (timers w) + d) w.

(** What can happen to the notifications during the life of the page. *)
Inductive event :=
| Show (message : string) (type : option string) (duration : option Z)
| Dismiss (el : nat)
| Elapse (d : Z).

Definition step (w : world) (e : event) : option world :=
  match e with
  | Show message type duration => Some (snd (show message type duration w))
  | Dismiss el => Some (remove el w)
  | Elapse d => elapse d w
  end.

Fixpoint run (es : list event) (w : world) : option world :=
  match es with
  | [] => Some w
  | e :: es' =>
      match step w e with
      | Some w' => run es' w'
      | None => None
      end
  end.

(** ** Dismissal *)

Lemma parentNode_remove_same el w : parentNode el (remove el w) = false.
Proof.
  unfold parentNode, remove. simpl.
  induction (container w) as [| e l IH]; simpl; [reflexivity |].
  destruct (Nat.eqb_spec (node e) el) as [He | He]; simpl; [assumption |].
  destruct (Nat.eqb_spec (node e) el); [contradiction | assumption].
Qed.

Lemma parentNode_remove_other el el' w :
  el' <> el -> parentNode el' (remove el w) = parentNode el' w.
Proof.
  intros Hne. unfold parentNode, remove. simpl.
  induction (container w) as [| e l IH]; simpl; [reflexivity |].
  destruct (Nat.eqb_spec (node e) el) as [He | He]; simpl.
  - destruct (Nat.eqb_spec (node e) el'); [congruence | assumption].
  - now rewrite IH.
Qed.

(** Removing an element that has no parent changes nothing. *)
Lemma remove_detached el w : parentNode el w = false -> remove el w = w.
Proof.
  unfold parentNode, remove. destruct w as [c n t]. simpl. intros H.
  f_equal. induction c as [| e l IH]; simpl in *; [reflexivity |].
  apply orb_false_iff in H as [He Hl]. rewrite He. simpl. now rewrite IH.
Qed.

Lemma auto_dismiss_detached el w : parentNode el w = false -> auto_dismiss el w = w.
Proof. unfold auto_dismiss. now intros ->. Qed.

Lemma parentNode_remove_false el el' w :
  parentNode el w = false -> parentNode el (remove el' w) = false.
Proof.
  intros H. destruct (Nat.eq_dec el el') as [-> | Hne].
  - apply parentNode_remove_same.
  - now rewrite parentNode_remove_other.
Qed.

Lemma parentNode_auto_dismiss_false el el' w :
  parentNode el w = false -> parentNode el (auto_dismiss el' w) = false.
Proof.
  intros H. unfold auto_dismiss. destruct (parentNode el' w); [| assumption].
  now apply parentNode_remove_false.
Qed.

Lemma auto_dismiss_frame el w :
  next_node (auto_dismiss el w) = next_node w /\
  timers (auto_dismiss el w) = timers w.
Proof. unfold auto_dismiss. destruct (parentNode el w); split; reflexivity. Qed.

(** The timers that come due all fire, and firing them brings no detached
    element back. *)
Lemma run_timers_total fuel : forall limit w,
  (length (Timers.pending (timers w)) <= fuel)%nat ->
  exists w',
    run_timers fuel limit w = Some w' /\ next_node w' = next_node w /\
    forall el, parentNode el w = false -> parentNode el w' = false.
Proof.
  induction fuel as [| fuel IH]; intros limit w Hlen.
  - destruct (Timers.take_due limit (timers w)) as [[tm t] |] eqn:E.
    + apply Timers.take_due_shorter in E. lia.
    + simpl. rewrite E. eexists. split; [reflexivity |]. split; [reflexivity |].
      intros el H. exact H.
  - simpl. destruct (Timers.take_due limit (timers w)) as [[tm t] |] eqn:E.
    + apply Timers.take_due_shorter in E.
      set (w1 := {| container := container w; next_node := next_node w;
                    timers := t |}).
      destruct (auto_dismiss_frame (Timers.callback tm) w1) as [Hn Ht].
      destruct (IH limit (auto_dismiss (Timers.callback tm) w1))
        as (w' & Hrun & Hn' & Hgone).
      { rewrite Ht. simpl. lia. }
      exists w'. split; [exact Hrun |]. split; [now rewrite Hn', Hn |].
      intros el H. apply Hgone. now apply parentNode_auto_dismiss_false.
    + eexists. split; [reflexivity |]. split; [reflexivity |].
      intros el H. exact H.
Qed.

Lemma step_total w e el :
  (el < next_node w)%nat -> parentNode el w = false ->
  exists w',
    step w e = Some w' /\ (el < next_node w')%nat /\ parentNode el w' = false.
Proof.
  intros Hlt Hgone. destruct e as [message type duration | el' | d]; simpl.
  - eexists. split; [reflexivity |]. simpl. split; [lia |].
    unfold parentNode in *. simpl. rewrite existsb_app, Hgone. simpl.
    destruct (Nat.eqb_spec (next_node w) el); [lia | reflexivity].
  - eexists. split; [reflexivity |]. split; [assumption |].
    now apply parentNode_remove_false.
  - destruct (run_timers_total (length (Timers.pending (timers w)))
                (Timers.clock (timers w) + d) w (Nat.le_refl _))
      as (w' & Hrun & Hn & Hg).
    exists w'. split; [exact Hrun |]. split; [lia | now apply Hg].
Qed.

(** An element made earlier and detached stays detached, whatever
    happens. *)
Lemma detached_forever es : forall w el,
  (el < next_node w)%nat -> parentNode el w = false ->
  exists w', run es w = Some w' /\ parentNode el w' = false.
Proof.
  induction es as [| e es IH]; intros w el Hlt Hgone; simpl.
  - exists w. split; [reflexivity | assumption].
  - destruct (step_total w e el Hlt Hgone) as (w1 & -> & Hlt1 & Hgone1).
    now apply IH.
Qed.

(** C5, amended: for an entry [el] that [show] has made, manual dismissal
    detaches the entry and nothing else; it does not touch the timers, so
    the auto-dismiss timer that [show] sets for a positive TTL (due when
    the delay [setTimeout] makes of the TTL has passed) is still pending
    after the entry is dismissed by hand, and when that timer fires it
    finds the entry without a parent and does nothing.  Dismissing an
    entry that is already detached, by hand or by its timer, changes
    nothing at all.  Once detached, an entry is never in the container
    again, whatever is shown, dismissed or fired afterwards. *)
Theorem dismissal_is_final (w : world) (el : nat) :
  (el < next_node w)%nat ->
  (forall message type duration, 0 < duration ->
     let r := show message type (Some duration) w in
     Timers.pending (timers (remove (fst r) (snd r))) =
       Timers.pending (timers w) ++
       [{| Timers.timer_id := Timers.next_id (timers w);
           Timers.due := Timers.clock (timers w) + Timers.timeout_of duration;
           Timers.callback := fst r |}]) /\
  timers (remove el w) = timers w /\
  parentNode el (remove el w) = false /\
  (forall el', el' <> el -> parentNode el' (remove el w) = parentNode el' w) /\
  remove el (remove el w) = remove el w /\
  auto_dismiss el (remove el w) = remove el w /\
  (parentNode el w = false -> remove el w = w /\ auto_dismiss el w = w) /\
  (forall es, exists w',
      run es (remove el w) = Some w' /\ parentNode el w' = false) /\
  (parentNode el w = false ->
   forall es, exists w', run es w = Some w' /\ parentNode el w' = false).
Proof.
  intros Hlt. pose proof (parentNode_remove_same el w) as Hgone.
  split.
  { intros message type duration Hd. simpl.
    destruct (Z.ltb_spec 0 duration); [| lia]. reflexivity. }
  repeat split.
  - exact Hgone.
  - intros el' Hne. now apply parentNode_remove_other.
  - now apply remove_detached.
  - now apply auto_dismiss_detached.
  - now apply remove_detached.
  - now apply auto_dismiss_detached.
  - intros es. now apply detached_forever.
  - intros H es. now apply detached_forever.
Qed.

Lemma dismissal_is_final_witness :
  let w := snd (show "low battery" (Some "warning") (Some 100) (constructor 0)) in
  (0 < next_node w)%nat /\
  timers (remove 0 w) = timers w /\
  exists w', run [Elapse 100; Show "ok" None None] (remove 0 w) = Some w' /\
             parentNode 0 w' = false.
Proof.
  intros w.
  assert (Hlt : (0 < next_node w)%nat) by (simpl; lia).
  split; [exact Hlt |].
  destruct (dismissal_is_final w 0%nat Hlt)
    as (_ & Ht & _ & _ & _ & _ & _ & Hrun & _).
  split; [exact Ht | exact (Hrun _)].
Defined.

(** C5, as the specification states it, on one entry shown with a TTL of
    100 ms and dismissed by hand: the entry is detached, and its
    auto-dismiss timer is still pending. *)
Lemma manual_dismissal_leaves_timer_pending :
  let r := show "low battery" (Some "warning") (Some 100) (constructor 0) in
  let w := remove (fst r) (snd r) in
  parentNode (fst r) w = false /\
  Timers.pending (timers w) =
    [{| Timers.timer_id := 1; Timers.due := 100; Timers.callback := fst r |}] /\
  Timers.pending (timers w) <> [].
Proof. vm_compute. repeat split. discriminate. Qed.

(** The lifecycle of the specification: shown with a TTL of 100 ms, the
    entry is there 99 ms later and gone after 100 ms; dismissing it then
    leaves a second entry in place. *)
Example show_then_expire :
  let r1 := show "low battery" (Some "warning") (Some 100) (constructor 0) in
  let r2 := show "saved" None (Some 0) (snd r1) in
  (parentNode (fst r1) <$> elapse 99 (snd r2)) = Some true /\
  (parentNode (fst r1) <$> elapse 100 (snd r2)) = Some false /\
  (map node <$> (container <$> (remove (fst r1) <$> elapse 100 (snd r2))))
  = Some [fst r2].
Proof. vm_compute. repeat split. Qed.

(** ** The convenience wrappers *)

(** [success(message, duration = 5000)]. *)
Definition success (message : string) (duration : option Z) (w : world)
    : nat * world :=
  show message (Some "success") (Some (default 5000 duration)) w.

(** [error(message, duration = 5000)]. *)
Definition error (message : string) (duration : option Z) (w : world)
    : nat * world :=
  show message (Some "error") (Some (default 5000 duration)) w.

(** [info(message, duration = 5000)]. *)
Definition info (message : string) (duration : option Z) (w : world)
    : nat * world :=
  show message (Some "info") (Some (default 5000 duration)) w.

(** ** How long an entry is shown *)

(** What holds of the notifications at any time: timers have ids of their
    own, below the next id, and belong to elements made earlier; the
    entries of the container are in the order they were made. *)
Definition well_formed (w : world) : Prop :=
  NoDup (map Timers.timer_id (Timers.pending (timers w))) /\
  Forall (fun tm => (Timers.timer_id tm < Timers.next_id (timers w))%nat /\
                    (Timers.callback tm < next_node w)%nat)
         (Timers.pending (timers w)) /\
  StronglySorted lt (map node (container w)) /\
  Forall (fun e => (node e < next_node w)%nat) (container w).

Lemma filter_Forall {X} (P : X -> Prop) (f : X -> bool) (l : list X) :
  Forall P l -> Forall P (List.filter f l).
Proof.
  induction 1 as [| x l Hx Hl IH]; simpl; [constructor |].
  destruct (f x); [constructor |]; assumption.
Qed.

Lemma filter_map_elem_of {X Y} (g : X -> Y) (f : X -> bool) (l : list X) y :
  y ∈ map g (List.filter f l) -> y ∈ map g l.
Proof.
  induction l as [| x l IH]; simpl; [easy |].
  destruct (f x); simpl; rewrite !elem_of_cons; intuition.
Qed.

Lemma filter_map_NoDup {X Y} (g : X -> Y) (f : X -> bool) (l : list X) :
  NoDup (map g l) -> NoDup (map g (List.filter f l)).
Proof.
  induction l as [| x l IH]; simpl; [easy |].
  intros [Hx Hl]%NoDup_cons. destruct (f x); [| now apply IH].
  simpl. apply NoDup_cons. split; [| now apply IH].
  intros H. apply Hx. now apply filter_map_elem_of in H.
Qed.

Lemma filter_map_sorted {X} (g : X -> nat) (f : X -> bool) (l : list X) :
  StronglySorted lt (map g l) -> StronglySorted lt (map g (List.filter f l)).
Proof.
  induction l as [| x l IH]; simpl; [easy |].
  intros [Hx Hl]%StronglySorted_cons. destruct (f x); [| now apply IH].
  simpl. apply StronglySorted_cons. split; [| now apply IH].
  apply Forall_forall. intros y Hy%filter_map_elem_of.
  revert y Hy. now apply Forall_forall.
Qed.

(** The timer that fires first is due no later than any other. *)
Lemma earliest_least (l : list (Timers.timer nat)) tm :
  Timers.earliest l = Some tm ->
  Forall (fun t => Timers.due tm <= Timers.due t) l.
Proof.
  revert tm. induction l as [| t0 l IH]; intros tm; simpl; [constructor |].
  destruct (Timers.earliest l) as [tm' |] eqn:E.
  - specialize (IH tm' eq_refl).
    destruct (Z.ltb_spec (Timers.due tm') (Timers.due t0)); intros [= <-].
    + constructor; [lia | assumption].
    + constructor; [lia |]. eapply Forall_impl; [exact IH |].
      simpl. intros; lia.
  - intros [= <-]. destruct l as [| t1 l]; [repeat constructor; lia |].
    simpl in E. destruct (Timers.earliest l) as [tm' |];
      [destruct (_ <? _) |]; discriminate.
Qed.

Lemma take_due_Some limit (t t' : Timers.timers nat) tm :
  Timers.take_due limit t = Some (tm, t') ->
  tm ∈ Timers.pending t /\ Timers.due tm <= limit /\
  Timers.next_id t' = Timers.next_id t /\
  Timers.pending t' =
    List.filter (fun tm' => negb (Timers.timer_id tm' =? Timers.timer_id tm)%nat)
      (Timers.pending t).
Proof.
  unfold Timers.take_due.
  destruct (Timers.earliest (Timers.pending t)) as [tm0 |] eqn:E;
    [| discriminate].
  destruct (Z.leb_spec (Timers.due tm0) limit); [| discriminate].
  intros [= <- <-]. simpl.
  split; [now apply Timers.earliest_elem_of |]. repeat split. assumption.
Qed.

Lemma take_due_None limit (t : Timers.timers nat) :
  Timers.take_due limit t = None ->
  Forall (fun tm => limit < Timers.due tm) (Timers.pending t).
Proof.
  unfold Timers.take_due.
  destruct (Timers.earliest (Timers.pending t)) as [tm0 |] eqn:E.
  - destruct (Z.leb_spec (Timers.due tm0) limit); [discriminate |].
    intros _. eapply Forall_impl; [apply (earliest_least _ _ E) |].
    simpl. intros; lia.
  - intros _. destruct (Timers.pending t) as [| t1 l]; [constructor |].
    simpl in E. destruct (Timers.earliest l) as [tm' |];
      [destruct (_ <? _) |]; discriminate.
Qed.

Lemma parentNode_auto_dismiss_other el el' w :
  el' <> el -> parentNode el' (auto_dismiss el w) = parentNode el' w.
Proof.
  intros Hne. unfold auto_dismiss. destruct (parentNode el w); [| reflexivity].
  now apply parentNode_remove_other.
Qed.

Lemma parentNode_auto_dismiss_same el w : parentNode el (auto_dismiss el w) = false.
Proof.
  unfold auto_dismiss. destruct (parentNode el w) eqn:E; [| exact E].
  apply parentNode_remove_same.
Qed.

Lemma remove_well_formed el w : well_formed w -> well_formed (remove el w).
Proof.
  intros (H1 & H2 & H3 & H4). repeat split; simpl; try assumption.
  - now apply filter_map_sorted.
  - now apply filter_Forall.
Qed.

Lemma auto_dismiss_well_formed el w : well_formed w -> well_formed (auto_dismiss el w).
Proof.
  intros H. unfold auto_dismiss. destruct (parentNode el w); [| exact H].
  now apply remove_well_formed.
Qed.

Lemma show_well_formed message type duration w :
  well_formed w -> well_formed (snd (show message type duration w)).
Proof.
  intros (H1 & H2 & H3 & H4). unfold well_formed, show. simpl.
  split; [| split; [| split]].
  - destruct (0 <? default 5000 duration); simpl; [| assumption].
    rewrite map_app. simpl.
    apply NoDup_app. repeat split; [assumption | | apply NoDup_singleton].
    intros x Hx ->%list_elem_of_singleton.
    apply list_elem_of_fmap in Hx as (tm & Heq & Htm).
    apply (proj1 (Forall_forall _ _) H2) in Htm. lia.
  - destruct (0 <? default 5000 duration); simpl.
    + apply Forall_app. split; [| repeat constructor; simpl; lia].
      eapply Forall_impl; [exact H2 |]. simpl. intros; lia.
    + eapply Forall_impl; [exact H2 |]. simpl. intros; lia.
  - rewrite map_app. simpl.
    apply StronglySorted_app. repeat split; [| assumption | repeat constructor].
    intros x y Hx ->%list_elem_of_singleton.
    apply list_elem_of_fmap in Hx as (e & -> & He).
    revert e He. now apply Forall_forall.
  - apply Forall_app. split; [| repeat constructor; simpl; lia].
    eapply Forall_impl; [exact H4 |]. simpl. intros; lia.
Qed.

Lemma timers_well_formed limit w tm t :
  Timers.take_due limit (timers w) = Some (tm, t) ->
  well_formed w ->
  well_formed {| container := container w; next_node := next_node w;
                 timers := t |}.
Proof.
  intros (_ & _ & Hn & Hp)%take_due_Some (H1 & H2 & H3 & H4).
  unfold well_formed. simpl. rewrite Hn, Hp.
  repeat split; try assumption.
  - now apply filter_map_NoDup.
  - now apply filter_Forall.
Qed.

Lemma run_timers_well_formed fuel : forall limit w w',
  run_timers fuel limit w = Some w' -> well_formed w -> well_formed w'.
Proof.
  induction fuel as [| fuel IH]; intros limit w w'; simpl;
    destruct (Timers.take_due limit (timers w)) as [[tm t] |] eqn:E;
    try discriminate.
  - intros [= <-] Hwf. exact Hwf.
  - intros Hrun Hwf. apply IH in Hrun; [exact Hrun |].
    apply auto_dismiss_well_formed. now apply (timers_well_formed limit w tm t).
  - intros [= <-] Hwf. exact Hwf.
Qed.

(** Firing leaves no timer that was not pending before. *)
Lemma run_timers_pending fuel (P : Timers.timer nat -> Prop) : forall limit w w',
  run_timers fuel limit w = Some w' ->
  Forall P (Timers.pending (timers w)) -> Forall P (Timers.pending (timers w')).
Proof.
  induction fuel as [| fuel IH]; intros limit w w'; simpl;
    destruct (Timers.take_due limit (timers w)) as [[tm t] |] eqn:E;
    try discriminate.
  - intros [= <-] H. exact H.
  - intros Hrun H. apply IH in Hrun; [exact Hrun |].
    destruct (auto_dismiss_frame (Timers.callback tm)
                {| container := container w; next_node := next_node w;
                   timers := t |}) as [_ ->]. simpl.
    apply take_due_Some in E as (_ & _ & _ & ->). now apply filter_Forall.
  - intros [= <-] H. exact H.
Qed.

(** An entry stays while no timer that comes due is its own. *)
Lemma run_timers_keeps fuel el : forall limit w w',
  run_timers fuel limit w = Some w' ->
  parentNode el w = true ->
  Forall (fun tm => Timers.due tm <= limit -> Timers.callback tm <> el)
         (Timers.pending (timers w)) ->
  parentNode el w' = true.
Proof.
  induction fuel as [| fuel IH]; intros limit w w'; simpl;
    destruct (Timers.take_due limit (timers w)) as [[tm t] |] eqn:E;
    try discriminate.
  - intros [= <-] H _. exact H.
  - intros Hrun Hin Hp.
    apply take_due_Some in E as (Htm & Hdue & _ & Hpt).
    assert (Hne : Timers.callback tm <> el).
    { exact (proj1 (Forall_forall _ _) Hp tm Htm Hdue). }
    apply IH in Hrun; [exact Hrun | |].
    + now rewrite parentNode_auto_dismiss_other by congruence.
    + destruct (auto_dismiss_frame (Timers.callback tm)
                  {| container := container w; next_node := next_node w;
                     timers := t |}) as [_ ->]. simpl.
      rewrite Hpt. now apply filter_Forall.
  - intros [= <-] H _. exact H.
Qed.

Lemma NoDup_map_inj {X Y} (g : X -> Y) (l : list X) (a b : X) :
  NoDup (map g l) -> a ∈ l -> b ∈ l -> g a = g b -> a = b.
Proof.
  induction l as [| x l IH]; simpl; [now intros _ ?%elem_of_nil |].
  intros [Hx Hl]%NoDup_cons [-> | Ha]%elem_of_cons [-> | Hb]%elem_of_cons Heq;
    auto.
  - exfalso. apply Hx. rewrite Heq. now apply list_elem_of_fmap_2.
  - exfalso. apply Hx. rewrite <- Heq. now apply list_elem_of_fmap_2.
Qed.

(** An entry whose timer comes due is gone once the timers have fired. *)
Lemma run_timers_expires fuel el : forall limit w w',
  run_timers fuel limit w = Some w' ->
  NoDup (map Timers.timer_id (Timers.pending (timers w))) ->
  parentNode el w = false \/
  (exists tm, tm ∈ Timers.pending (timers w) /\ Timers.callback tm = el /\
              Timers.due tm <= limit) ->
  parentNode el w' = false.
Proof.
  induction fuel as [| fuel IH]; intros limit w w'; simpl;
    destruct (Timers.take_due limit (timers w)) as [[tm0 t] |] eqn:E;
    try discriminate.
  - intros [= <-] _ [H | (tm & Htm & _ & Hdue)]; [exact H |].
    apply take_due_None in E.
    apply (proj1 (Forall_forall _ _) E) in Htm. lia.
  - intros Hrun Hnd Hcase.
    apply take_due_Some in E as (Htm0 & Hdue0 & _ & Hpt).
    set (w1 := {| container := container w; next_node := next_node w;
                  timers := t |}) in *.
    destruct (auto_dismiss_frame (Timers.callback tm0) w1) as [_ Ht].
    apply IH in Hrun; [exact Hrun | |].
    + rewrite Ht. simpl. rewrite Hpt. now apply filter_map_NoDup.
    + destruct Hcase as [H | (tm & Htm & Hcb & Hdue)].
      * left. now apply parentNode_auto_dismiss_false.
      * destruct (Nat.eqb_spec (Timers.timer_id tm) (Timers.timer_id tm0))
          as [Hid | Hid].
        -- left. assert (tm = tm0)
             by (eapply (NoDup_map_inj Timers.timer_id); eassumption).
           subst tm0. rewrite Hcb. apply parentNode_auto_dismiss_same.
        -- right. exists tm. rewrite Ht. simpl. rewrite Hpt.
           split; [| split; assumption].
           apply list_elem_of_In, filter_In. split.
           ++ now apply list_elem_of_In.
           ++ apply negb_true_iff. now apply Nat.eqb_neq.
  - intros [= <-] _ [H | (tm & Htm & _ & Hdue)]; [exact H |].
    apply take_due_None in E.
    apply (proj1 (Forall_forall _ _) E) in Htm. lia.
Qed.

Lemma step_well_formed w e w' :
  step w e = Some w' -> well_formed w -> well_formed w'.
Proof.
  destruct e as [message type duration | el | d]; simpl.
  - intros [= <-]. apply show_well_formed.
  - intros [= <-]. apply remove_well_formed.
  - apply run_timers_well_formed.
Qed.

Lemma run_well_formed es : forall w w',
  run es w = Some w' -> well_formed w -> well_formed w'.
Proof.
  induction es as [| e es IH]; intros w w'; simpl.
  - now intros [= <-].
  - destruct (step w e) as [w1 |] eqn:E; [| discriminate].
    intros Hrun Hwf. eapply IH; [exact Hrun |].
    now apply (step_well_formed w e).
Qed.

Lemma reachable_well_formed now es w :
  run es (constructor now) = Some w -> well_formed w.
Proof.
  intros H. apply (run_well_formed es _ _ H).
  repeat split; simpl; constructor.
Qed.

(** What [show] does to the container and to the timers. *)
Lemma show_effect message type duration w :
  let r := show message type duration w in
  fst r = next_node w /\
  next_node (snd r) = S (next_node w) /\
  (exists e, node e = next_node w /\ container (snd r) = container w ++ [e]) /\
  Timers.clock (timers (snd r)) = Timers.clock (timers w) /\
  (0 < default 5000 duration ->
   Timers.pending (timers (snd r)) =
     Timers.pending (timers w) ++
     [{| Timers.timer_id := Timers.next_id (timers w);
         Timers.due :=
           Timers.clock (timers w) + Timers.timeout_of (default 5000 duration);
         Timers.callback := next_node w |}]) /\
  (default 5000 duration <= 0 -> timers (snd r) = timers w).
Proof.
  unfold show. simpl. repeat split.
  - eexists. split; [| reflexivity]. reflexivity.
  - now destruct (0 <? default 5000 duration).
  - intros Hd. destruct (Z.ltb_spec 0 (default 5000 duration)); [| lia].
    reflexivity.
  - intros Hd. now destruct (Z.ltb_spec 0 (default 5000 duration)); [lia |].
Qed.

Lemma parentNode_app el (l : list element) e n t :
  parentNode el {| container := l ++ [e]; next_node := n; timers := t |} =
  parentNode el {| container := l; next_node := n; timers := t |}
  || (node e =? el)%nat.
Proof. unfold parentNode. simpl. rewrite existsb_app. simpl. now rewrite orb_false_r. Qed.

(** An entry with a positive time to live is in the container until that
    time has passed, and out of it from then on. *)
Lemma show_lifetime_well_formed message type duration w :
  well_formed w -> 0 < default 5000 duration < 2 ^ 31 ->
  let r := show message type duration w in
  parentNode (fst r) (snd r) = true /\
  (forall d, 0 <= d < default 5000 duration ->
     exists w', elapse d (snd r) = Some w' /\ parentNode (fst r) w' = true) /\
  (forall d, default 5000 duration <= d ->
     exists w', elapse d (snd r) = Some w' /\ parentNode (fst r) w' = false).
Proof.
  intros Hwf Hpos r.
  pose proof (show_well_formed message type duration w Hwf) as Hwf1.
  destruct (show_effect message type duration w)
    as (Hel & Hn & (e & He & Hc) & Hclock & Hp & _).
  fold r in Hwf1, Hel, Hn, Hc, Hclock, Hp.
  specialize (Hp ltac:(lia)). clearbody r.
  rewrite Timers.timeout_of_long, Z.max_r in Hp
    by (unfold Timers.is_long; lia).
  destruct Hwf as (_ & H2 & _ & _).
  assert (Hin : parentNode (fst r) (snd r) = true).
  { destruct (snd r) as [c n t]. simpl in Hc. subst c.
    rewrite parentNode_app, Hel, He, Nat.eqb_refl. apply orb_true_r. }
  assert (Htotal : forall d, exists w', elapse d (snd r) = Some w').
  { intros d. destruct (run_timers_total
                          (length (Timers.pending (timers (snd r))))
                          (Timers.clock (timers (snd r)) + d) (snd r)
                          (Nat.le_refl _)) as (w' & Hrun & _).
    now exists w'. }
  split; [exact Hin |]. split.
  - intros d Hd. destruct (Htotal d) as (w' & Hrun). exists w'.
    split; [exact Hrun |].
    apply (run_timers_keeps _ _ _ _ _ Hrun Hin).
    rewrite Hp, Hclock. apply Forall_app. split.
    + eapply Forall_impl; [exact H2 |]. simpl. intros tm [_ Hcb] _.
      rewrite Hel. lia.
    + repeat constructor. simpl. lia.
  - intros d Hd. destruct (Htotal d) as (w' & Hrun). exists w'.
    split; [exact Hrun |].
    apply (run_timers_expires _ _ _ _ _ Hrun); [apply Hwf1 |].
    right. eexists. rewrite Hp. split; [| split].
    + apply elem_of_app. right. now apply list_elem_of_singleton.
    + now rewrite Hel.
    + simpl. rewrite Hclock. lia.
Qed.


(** X16: the wrappers [success], [error] and [info] called without a
    duration make an entry that is shown for 5000 ms: it is there while
    less than 5000 ms have passed and gone from 5000 ms on. *)
Theorem wrappers_default_lifetime (now : Z) (es : list event) (w : world)
    (message : string) (r : nat * world) :
  run es (constructor now) = Some w ->
  r ∈ [success message None w; error message None w; info message None w] ->
  parentNode (fst r) (snd r) = true /\
  (forall d, 0 <= d < 5000 ->
     exists w', elapse d (snd r) = Some w' /\ parentNode (fst r) w' = true) /\
  (forall d, 5000 <= d ->
     exists w', elapse d (snd r) = Some w' /\ parentNode (fst r) w' = false).
Proof.
  intros Hrun Hr. apply (reachable_well_formed now es) in Hrun.
  rewrite !elem_of_cons, elem_of_nil in Hr.
  destruct Hr as [-> | [-> | [-> | []]]];
    apply (show_lifetime_well_formed _ _ (Some 5000));
    (assumption || (simpl; lia)).
Qed.

(** The entry [el] is in the container and no timer is its own. *)
Definition persistent (el : nat) (w : world) : Prop :=
  parentNode el w = true /\
  Forall (fun tm => Timers.callback tm <> el) (Timers.pending (timers w)) /\
  (el < next_node w)%nat.

Lemma step_persistent el w e :
  persistent el w -> e <> Dismiss el ->
  exists w', step w e = Some w' /\ persistent el w'.
Proof.
  intros (Hin & Hp & Hlt) Hne.
  destruct e as [message type duration | el' | d].
  - exists (snd (show message type duration w)). split; [reflexivity |].
    destruct (show_effect message type duration w)
      as (_ & Hn & (e & He & Hc) & _ & Hpos & Hnone).
    set (r := show message type duration w) in *. clearbody r.
    repeat split.
    + destruct (snd r) as [c n t]. simpl in Hc. subst c.
      rewrite parentNode_app, orb_true_iff. left.
      destruct w; exact Hin.
    + destruct (Z.ltb_spec 0 (default 5000 duration)) as [Hd | Hd].
      * rewrite (Hpos Hd). apply Forall_app. split; [assumption |].
        repeat constructor. simpl. lia.
      * rewrite (Hnone Hd). assumption.
    + rewrite Hn. lia.
  - exists (remove el' w). split; [reflexivity |].
    repeat split; try assumption.
    rewrite parentNode_remove_other by congruence. assumption.
  - simpl. destruct (run_timers_total (length (Timers.pending (timers w)))
                (Timers.clock (timers w) + d) w (Nat.le_refl _))
      as (w' & Hrun & Hn & _).
    exists w'. split; [exact Hrun |]. repeat split.
    + apply (run_timers_keeps _ _ _ _ _ Hrun Hin).
      eapply Forall_impl; [exact Hp |]. simpl. auto.
    + now apply (run_timers_pending _ _ _ _ _ Hrun).
    + lia.
Qed.

Lemma run_persistent el es : forall w,
  persistent el w -> Forall (fun e => e <> Dismiss el) es ->
  exists w', run es w = Some w' /\ persistent el w'.
Proof.
  induction es as [| e es IH]; intros w Hp Hes; simpl.
  - now exists w.
  - apply Forall_cons in Hes as [He Hes].
    destruct (step_persistent el w e Hp He) as (w1 & -> & Hp1).
    now apply IH.
Qed.

(** X17: an entry shown with a time to live of 0 or less gets no timer,
    and stays in the container through everything that happens afterwards
    (other entries shown, dismissed, expired) as long as it is not
    dismissed itself. *)
Theorem show_without_timer_stays (now : Z) (es0 es : list event) (w : world)
    (message : string) (type : option string) (d : Z) :
  run es0 (constructor now) = Some w -> d <= 0 ->
  Forall (fun e => e <> Dismiss (fst (show message type (Some d) w))) es ->
  let r := show message type (Some d) w in
  timers (snd r) = timers w /\
  exists w', run es (snd r) = Some w' /\ parentNode (fst r) w' = true.
Proof.
  intros Hrun Hd Hes r.
  apply (reachable_well_formed now es0) in Hrun as (_ & H2 & _ & _).
  destruct (show_effect message type (Some d) w)
    as (Hel & Hn & (e & He & Hc) & _ & _ & Hnone).
  fold r in Hel, Hn, Hc, Hnone, Hes. specialize (Hnone Hd). clearbody r.
  split; [exact Hnone |].
  destruct (run_persistent (fst r) es (snd r)) as (w' & Hr & Hp & _);
    [| exact Hes | now exists w'].
  repeat split.
  - destruct (snd r) as [c n t]. simpl in Hc. subst c.
    rewrite parentNode_app, Hel, He, Nat.eqb_refl. apply orb_true_r.
  - rewrite Hnone. eapply Forall_impl; [exact H2 |]. simpl.
    intros tm [_ Hcb]. rewrite Hel. lia.
  - rewrite Hn, Hel. lia.
Qed.

(** X18: at any time in the life of the page the entries of the container
    are in the order they were shown, each once; [show] puts the new entry
    after all of them. *)
Theorem entries_in_order_shown (now : Z) (es : list event) (w : world)
    (message : string) (type : option string) (duration : option Z) :
  run es (constructor now) = Some w ->
  StronglySorted lt (map node (container w)) /\
  NoDup (map node (container w)) /\
  let r := show message type duration w in
  Forall (fun e => (node e < fst r)%nat) (container w) /\
  exists e, node e = fst r /\ container (snd r) = container w ++ [e].
Proof.
  intros Hrun. apply (reachable_well_formed now es) in Hrun as (_ & _ & H3 & H4).
  split; [exact H3 |]. split.
  - clear -H3. induction (map node (container w)) as [| x l IH];
      [constructor |].
    apply StronglySorted_cons in H3 as [Hx Hl]. apply NoDup_cons.
    split; [| now apply IH].
    intros Hin. apply (proj1 (Forall_forall _ _) Hx) in Hin. lia.
  - destruct (show_effect message type duration w)
      as (Hel & _ & (e & He & Hc) & _).
    cbv zeta. rewrite Hel. split; [exact H4 |]. now exists e.
Qed.


Lemma wrappers_default_lifetime_witness :
  let r := error "sensor offline" None (constructor 0) in
  run [] (constructor 0) = Some (constructor 0) /\
  (exists w', elapse 4999 (snd r) = Some w' /\ parentNode (fst r) w' = true) /\
  (exists w', elapse 5000 (snd r) = Some w' /\ parentNode (fst r) w' = false).
Proof.
  intros r.
  assert (Hrun : run [] (constructor 0) = Some (constructor 0)) by reflexivity.
  assert (Hr : r ∈ [success "sensor offline" None (constructor 0);
                    error "sensor offline" None (constructor 0);
                    info "sensor offline" None (constructor 0)])
    by (apply elem_of_cons; right; apply elem_of_cons; now left).
  destruct (wrappers_default_lifetime 0 [] _ "sensor offline" r Hrun Hr)
    as (_ & Hbefore & Hafter).
  split; [exact Hrun |]. split; [apply Hbefore | apply Hafter]; lia.
Defined.

Lemma show_without_timer_stays_witness :
  let r := show "pinned" None (Some 0) (constructor 0) in
  exists w',
    run [Show "other" None None; Elapse 6000; Dismiss 1] (snd r) = Some w' /\
    parentNode (fst r) w' = true.
Proof.
  intros r.
  assert (Hrun : run [] (constructor 0) = Some (constructor 0)) by reflexivity.
  assert (Hd : 0 <= 0) by lia.
  assert (Hes : Forall (fun e => e <> Dismiss (fst (show "pinned" None (Some 0)
                                                      (constructor 0))))
                  [Show "other" None None; Elapse 6000; Dismiss 1])
    by (repeat constructor; discriminate).
  exact (proj2 (show_without_timer_stays 0 [] _ (constructor 0) "pinned" None 0
                  Hrun Hd Hes)).
Defined.

Lemma entries_in_order_shown_witness :
  let w := snd (show "a" None None (constructor 0)) in
  run [Show "a" None None] (constructor 0) = Some w /\
  NoDup (map node (container w)).
Proof.
  intros w.
  assert (Hrun : run [Show "a" None None] (constructor 0) = Some w)
    by reflexivity.
  split; [exact Hrun |].
  exact (proj1 (proj2 (entries_in_order_shown 0 _ w "b" None None Hrun))).
Defined.

End NotificationManager.
